(** * Tab Group Bookmarks: the reconciliation engine of background.js

    A shallow embedding of the extension's background script: the
    window/folder mappings, the sync guard with its pending set, the two
    one-way reconcilers ([syncTabsToBookmarks], [syncBookmarksToTabs]),
    [associateWindowWithFolder], [createFolderForWindow],
    [disassociateWindow], [openFolderAsNewWindow], [initialize] and the
    listeners, and of the folder list of popup.js.  The popup's buttons
    appear as the events that call the exported functions.

    The browser (bookmark store, tab provider, local storage) is the
    collaborator the script talks to.  It is modelled as explicit data:
    ordered child lists per folder, ordered tab lists per window, one counter
    for fresh identifiers, a function placing tabs and an oracle deciding
    which call rejects.  Every [await] of a browser call is an [api] step of
    the monad [M], numbered and logged.  An [async] function runs up to its
    first [await] when it is called; what is left of a pass that passed the
    guard is a suspended [task] that the event loop runs to its end in one
    turn.  Requests that arrive while the pass waits are served between the
    two: they see the guard taken and touch the pending set only, which the
    pass reads in its [finally] block.  A function that [await]s a pass gets
    the pass's outcome: the pass has run to its end when the function goes
    on, and a rejected pass rejects the function.
    [openFolderAsNewWindow_during] is [openFolderAsNewWindow] with the
    events that are handled while it waits for the tabs it opens. *)

From stdpp Require Import gmap strings list fin_maps sorting.

#[local] Set Warnings "-clear-no-such-hyp".

Local Open Scope string_scope.
Local Open Scope list_scope.
Local Open Scope nat_scope.

(* ===================================================================== *)
(** ** Data model *)
(* ===================================================================== *)

(** A child of a bookmark folder.  A subfolder has no [url]. *)
Record bookmark := Bookmark {
  bm_id : nat;
  bm_url : option string;
  bm_title : string
}.

(** A tab of a window. *)
Record tab := Tab {
  tab_id : nat;
  tab_url : string;
  tab_title : string;
  tab_pinned : bool
}.

(** What [getSubTree] and [tabs.query] hand out: the item together with the
    [index] it had when the snapshot was taken. *)
Record indexed (A : Type) := Indexed { index : nat; item : A }.
Arguments Indexed {A} _ _.
Arguments index {A} _.
Arguments item {A} _.

(** [windowMappings[windowId] = { folderId, folderTitle }] *)
Record mapping := Mapping { folderId : nat; folderTitle : string }.

#[global] Instance bookmark_eq_dec : EqDecision bookmark.
Proof. solve_decision. Defined.
#[global] Instance tab_eq_dec : EqDecision tab.
Proof. solve_decision. Defined.
#[global] Instance mapping_eq_dec : EqDecision mapping.
Proof. solve_decision. Defined.

(** Items the browser addresses by identifier. *)
Class HasId (A : Type) := get_id : A → nat.
#[global] Instance bookmark_has_id : HasId bookmark := bm_id.
#[global] Instance tab_has_id : HasId tab := tab_id.

(** The browser calls the script issues, as they appear in the log. *)
Inductive api_call :=
  | BookmarksGetSubTree (folder : nat)
  | BookmarksCreate (parent : nat) (title url : string) (idx : nat)
  | BookmarksUpdate (id : nat) (title : string)
  | BookmarksMove (id idx : nat)
  | BookmarksRemove (id : nat)
  | TabsQuery (window : nat)
  | TabsCreate (window : nat) (url : string) (pinned : bool) (idx : option nat)
  | TabsUpdate (id : nat) (pinned : bool)
  | TabsMove (id window idx : nat)
  | TabsRemove (id : nat)
  | WindowsCreate
  | StorageSet (key : string).

(** [browser.storage.local]: the three persisted records. *)
Record storage := Storage {
  stored_mappings : option (gmap nat mapping);
  stored_pinned : option (gmap nat (list string));
  stored_lastUsed : option (gmap nat nat)
}.

(** The collaborator.  [br_fail] is the failure oracle: the call number [n]
    rejects when [br_fail n] holds.  [br_place others t req] is the position
    at which the tab provider really puts tab [t] among [others] when
    position [req] is asked for (Firefox keeps pinned tabs in front, so it
    need not be [req]).  [br_title] is the title a fresh tab shows for a
    url, [br_now] is [Date.now()]. *)
Record browser := Browser {
  br_bookmarks : gmap nat (list bookmark);
  br_tabs : gmap nat (list tab);
  br_storage : storage;
  br_next : nat;
  br_clock : nat;
  br_log : list (api_call * bool);
  br_fail : nat → bool;
  br_place : list tab → tab → nat → nat;
  br_title : string → string;
  br_now : nat
}.

(** The script's globals. A JS [Set] is a duplicate-free list in insertion
    order. *)
Record engine := Engine {
  windowMappings : gmap nat mapping;
  pinnedTabsByFolder : gmap nat (list string);
  folderLastUsed : gmap nat nat;
  isSyncing : bool;
  pendingSyncs : list nat
}.

(** A pass that passed the guard and is suspended at its first [await]. *)
Inductive task :=
  | TabsToBookmarks (windowId : nat) (m : mapping)
  | BookmarksToTabs (folder : nat) (windowId : nat).

Record state := State {
  ext : engine;
  env : browser;
  suspended : list task
}.

(* --------------------------------------------------------------------- *)
(** *** Field updates *)

Definition set_bookmarks (v : gmap nat (list bookmark)) (b : browser) : browser :=
  Browser v (br_tabs b) (br_storage b) (br_next b) (br_clock b) (br_log b)
          (br_fail b) (br_place b) (br_title b) (br_now b).
Definition set_tabs (v : gmap nat (list tab)) (b : browser) : browser :=
  Browser (br_bookmarks b) v (br_storage b) (br_next b) (br_clock b) (br_log b)
          (br_fail b) (br_place b) (br_title b) (br_now b).
Definition set_storage (v : storage) (b : browser) : browser :=
  Browser (br_bookmarks b) (br_tabs b) v (br_next b) (br_clock b) (br_log b)
          (br_fail b) (br_place b) (br_title b) (br_now b).
Definition set_next (v : nat) (b : browser) : browser :=
  Browser (br_bookmarks b) (br_tabs b) (br_storage b) v (br_clock b) (br_log b)
          (br_fail b) (br_place b) (br_title b) (br_now b).
Definition logged (c : api_call) (ok : bool) (b : browser) : browser :=
  Browser (br_bookmarks b) (br_tabs b) (br_storage b) (br_next b)
          (S (br_clock b)) ((c, ok) :: br_log b)
          (br_fail b) (br_place b) (br_title b) (br_now b).

Definition set_windowMappings (v : gmap nat mapping) (e : engine) : engine :=
  Engine v (pinnedTabsByFolder e) (folderLastUsed e) (isSyncing e) (pendingSyncs e).
Definition set_pinnedTabsByFolder (v : gmap nat (list string)) (e : engine) : engine :=
  Engine (windowMappings e) v (folderLastUsed e) (isSyncing e) (pendingSyncs e).
Definition set_folderLastUsed (v : gmap nat nat) (e : engine) : engine :=
  Engine (windowMappings e) (pinnedTabsByFolder e) v (isSyncing e) (pendingSyncs e).
Definition set_isSyncing (v : bool) (e : engine) : engine :=
  Engine (windowMappings e) (pinnedTabsByFolder e) (folderLastUsed e) v (pendingSyncs e).
Definition set_pendingSyncs (v : list nat) (e : engine) : engine :=
  Engine (windowMappings e) (pinnedTabsByFolder e) (folderLastUsed e) (isSyncing e) v.

Definition with_ext (f : engine → engine) (st : state) : state :=
  State (f (ext st)) (env st) (suspended st).
Definition with_env (f : browser → browser) (st : state) : state :=
  State (ext st) (f (env st)) (suspended st).
Definition set_suspended (v : list task) (st : state) : state :=
  State (ext st) (env st) v.

(* ===================================================================== *)
(** ** JavaScript values *)
(* ===================================================================== *)

(** [Set.prototype.add] and [Set.prototype.has]. *)
Definition set_add `{EqDecision A} (x : A) (s : list A) : list A :=
  if decide (x ∈ s) then s else s ++ [x].
Definition set_has `{EqDecision A} (x : A) (s : list A) : bool :=
  bool_decide (x ∈ s).

(** A string is truthy when it is not empty; a missing [url] is falsy. *)
Definition truthy (s : string) : bool := negb (String.eqb s "").
Definition has_url (b : bookmark) : option string :=
  match bm_url b with
  | Some u => if truthy u then Some u else None
  | None => None
  end.

(** [url.startsWith('about:') || url.startsWith('moz-extension:')] *)
Definition special (url : string) : bool :=
  String.prefix "about:" url || String.prefix "moz-extension:" url.

(** [Object.keys(o)] of an object with integer keys: ascending order. *)
Definition Object_keys {V} (o : gmap nat V) : list nat :=
  merge_sort Nat.le (map_to_list o).*1.

(* ===================================================================== *)
(** ** Ordered collections addressed by identifier *)
(* ===================================================================== *)

Section by_id.
Context {A : Type} `{HasId A}.

Definition ids (l : list A) : list nat := get_id <$> l.

Definition find_id (id : nat) (l : list A) : option A :=
  snd <$> list_find (λ x, get_id x = id) l.

Definition remove_id (id : nat) (l : list A) : list A :=
  filter (λ x, get_id x ≠ id) l.

(** Insertion at a position; a position past the end appends. *)
Definition insert_at (i : nat) (x : A) (l : list A) : list A :=
  take i l ++ x :: drop i l.

Definition alter_id (f : A → A) (id : nat) (l : list A) : list A :=
  (λ x, if decide (get_id x = id) then f x else x) <$> l.

(** Take the item out and put it back at position [i]. *)
Definition move_id (id i : nat) (l : list A) : list A :=
  match find_id id l with
  | Some x => insert_at i x (remove_id id l)
  | None => l
  end.

Definition snapshot (l : list A) : list (indexed A) := imap Indexed l.
End by_id.

(* ===================================================================== *)
(** ** The monad of the script: state, and a thrown exception *)
(* ===================================================================== *)

Inductive outcome (A : Type) := Ok (a : A) | Throw.
Arguments Ok {A} _.
Arguments Throw {A}.

Definition M (A : Type) : Type := state → outcome A * state.

#[global] Instance M_ret : MRet M := λ A a st, (Ok a, st).
#[global] Instance M_bind : MBind M := λ A B f c st,
  match c st with
  | (Ok a, st') => f a st'
  | (Throw, st') => (Throw, st')
  end.

Definition skip : M unit := mret tt.

(** [for (const x of l) { ... }] with loop-carried locals [acc]. *)
Fixpoint foldM {A B} (f : B → A → M B) (acc : B) (l : list A) : M B :=
  match l with
  | [] => mret acc
  | x :: l' => acc' ← f acc x; foldM f acc' l'
  end.

Definition forM {A} (l : list A) (f : A → M unit) : M unit :=
  foldM (λ _ x, f x) tt l.

(** [try { body } finally { fin }] *)
Definition try_finally {A} (body : M A) (fin : M unit) : M A := λ st,
  match body st with
  | (r, st') =>
      match fin st' with
      | (Ok _, st'') => (r, st'')
      | (Throw, st'') => (Throw, st'')
      end
  end.

Definition get_ext : M engine := λ st, (Ok (ext st), st).
Definition modify_ext (f : engine → engine) : M unit := λ st, (Ok tt, with_ext f st).

(** One awaited browser call: it is numbered and logged, and rejects when
    the oracle says so or when the browser cannot serve it. *)
Definition api {A} (c : api_call) (op : browser → option (A * browser)) : M A := λ st,
  let b := env st in
  match (if br_fail b (br_clock b) then None else op b) with
  | Some (a, b') => (Ok a, with_env (λ _, logged c true b') st)
  | None => (Throw, with_env (logged c false) st)
  end.

(* ===================================================================== *)
(** ** The browser API, as far as the script uses it *)
(* ===================================================================== *)

(** The bookmark store honours the requested index (a position past the end
    appends).  The tab provider decides the final position through
    [br_place].  Identifiers come from one counter. *)

Definition retitle (title : string) (b : bookmark) : bookmark :=
  Bookmark (bm_id b) (bm_url b) title.
Definition repin (pinned : bool) (t : tab) : tab :=
  Tab (tab_id t) (tab_url t) (tab_title t) pinned.

(** [tabs.update(id, {pinned})] inside one window: the flag changes and the
    provider places the tab again, asked to keep its position. *)
Definition update_pinned (place : list tab → tab → nat → nat)
    (id : nat) (pinned : bool) (ts : list tab) : list tab :=
  match list_find (λ t, get_id t = id) ts with
  | Some (i, t) =>
      let others := remove_id id ts in
      insert_at (place others (repin pinned t) i) (repin pinned t) others
  | None => ts
  end.

Definition place_id (place : list tab → tab → nat → nat)
    (id i : nat) (ts : list tab) : list tab :=
  match find_id id ts with
  | Some t => let others := remove_id id ts in insert_at (place others t i) t others
  | None => ts
  end.

Definition bookmarks_getSubTree (folder : nat) : M (list (indexed bookmark)) :=
  api (BookmarksGetSubTree folder) (λ b,
    kids ← br_bookmarks b !! folder;
    Some (snapshot kids, b)).

Definition bookmarks_create (parent : nat) (title url : string) (idx : nat) : M bookmark :=
  api (BookmarksCreate parent title url idx) (λ b,
    kids ← br_bookmarks b !! parent;
    let nb := Bookmark (br_next b) (Some url) title in
    Some (nb, set_next (S (br_next b))
                (set_bookmarks (<[parent := insert_at idx nb kids]> (br_bookmarks b)) b))).

Definition bookmarks_update (id : nat) (title : string) : M unit :=
  api (BookmarksUpdate id title) (λ b,
    Some (tt, set_bookmarks (alter_id (retitle title) id <$> br_bookmarks b) b)).

Definition bookmarks_move (id idx : nat) : M unit :=
  api (BookmarksMove id idx) (λ b,
    Some (tt, set_bookmarks (move_id id idx <$> br_bookmarks b) b)).

Definition bookmarks_remove (id : nat) : M unit :=
  api (BookmarksRemove id) (λ b,
    Some (tt, set_bookmarks (remove_id id <$> br_bookmarks b) b)).

Definition tabs_query (windowId : nat) : M (list (indexed tab)) :=
  api (TabsQuery windowId) (λ b,
    Some (snapshot (default [] (br_tabs b !! windowId)), b)).

Definition tabs_create (windowId : nat) (url : string) (pinned : bool)
    (idx : option nat) : M tab :=
  api (TabsCreate windowId url pinned idx) (λ b,
    ts ← br_tabs b !! windowId;
    let t := Tab (br_next b) url (br_title b url) pinned in
    let pos := br_place b ts t (default (length ts) idx) in
    Some (t, set_next (S (br_next b))
               (set_tabs (<[windowId := insert_at pos t ts]> (br_tabs b)) b))).

Definition tabs_update (id : nat) (pinned : bool) : M unit :=
  api (TabsUpdate id pinned) (λ b,
    Some (tt, set_tabs (update_pinned (br_place b) id pinned <$> br_tabs b) b)).

Definition tabs_move (id windowId idx : nat) : M unit :=
  api (TabsMove id windowId idx) (λ b,
    ts ← br_tabs b !! windowId;
    _ ← find_id id ts;
    Some (tt, set_tabs (<[windowId := place_id (br_place b) id idx ts]> (br_tabs b)) b)).

Definition tabs_remove (id : nat) : M unit :=
  api (TabsRemove id) (λ b,
    Some (tt, set_tabs (remove_id id <$> br_tabs b) b)).

(** The default page of a fresh window. *)
Definition blank_page : string := "about:blank".

(** [windows.create()]: a new window holding one blank tab. *)
Definition windows_create : M nat :=
  api WindowsCreate (λ b,
    let w := br_next b in
    let blank := Tab (S w) blank_page (br_title b blank_page) false in
    Some (w, set_next (S (S w)) (set_tabs (<[w := [blank]]> (br_tabs b)) b))).

Definition Date_now : M nat := λ st, (Ok (br_now (env st)), st).

(* ===================================================================== *)
(** ** background.js *)
(* ===================================================================== *)

Definition STORAGE_KEY : string := "windowFolderMappings".
Definition PINNED_TABS_KEY : string := "pinnedTabsByFolder".
Definition FOLDER_LAST_USED_KEY : string := "folderLastUsed".

Definition saveWindowMappings : M unit :=
  e ← get_ext;
  api (StorageSet STORAGE_KEY) (λ b,
    let s := br_storage b in
    Some (tt, set_storage
                (Storage (Some (windowMappings e)) (stored_pinned s) (stored_lastUsed s)) b)).

Definition savePinnedTabs : M unit :=
  e ← get_ext;
  api (StorageSet PINNED_TABS_KEY) (λ b,
    let s := br_storage b in
    Some (tt, set_storage
                (Storage (stored_mappings s) (Some (pinnedTabsByFolder e)) (stored_lastUsed s)) b)).

Definition updateFolderLastUsed (folder : nat) : M unit :=
  now ← Date_now;
  modify_ext (λ e, set_folderLastUsed (<[folder := now]> (folderLastUsed e)) e);;
  e ← get_ext;
  api (StorageSet FOLDER_LAST_USED_KEY) (λ b,
    let s := br_storage b in
    Some (tt, set_storage
                (Storage (stored_mappings s) (stored_pinned s) (Some (folderLastUsed e))) b)).

(** *** Entering a pass: the code before the first [await] *)

(** [syncTabsToBookmarks(windowId)] up to [await browser.tabs.query]. *)
Definition syncTabsToBookmarks (windowId : nat) (st : state) : state :=
  match windowMappings (ext st) !! windowId with
  | None => st
  | Some m =>
      if isSyncing (ext st)
      then with_ext (λ e, set_pendingSyncs (set_add windowId (pendingSyncs e)) e) st
      else set_suspended (suspended st ++ [TabsToBookmarks windowId m])
             (with_ext (set_isSyncing true) st)
  end.

(** [Object.keys(windowMappings).find(wId => windowMappings[wId].folderId === folderId)] *)
Definition find_window (mappings : gmap nat mapping) (folder : nat) : option nat :=
  snd <$> list_find
    (λ wId, folderId <$> mappings !! wId = Some folder) (Object_keys mappings).

(** [syncBookmarksToTabs(folderId)] up to [await browser.bookmarks.getSubTree]. *)
Definition syncBookmarksToTabs (folder : nat) (st : state) : state :=
  match find_window (windowMappings (ext st)) folder with
  | None => st
  | Some windowId =>
      if isSyncing (ext st)
      then with_ext (λ e, set_pendingSyncs (set_add windowId (pendingSyncs e)) e) st
      else set_suspended (suspended st ++ [BookmarksToTabs folder windowId])
             (with_ext (set_isSyncing true) st)
  end.

(** A call of an async function whose promise nobody awaits. *)
Definition spawn (f : state → state) : M unit := λ st, (Ok tt, f st).

(** *** Tab to bookmark: the [try] block *)

(** [bookmarksByUrl]: later children overwrite earlier ones of the same url. *)
Definition bookmarksByUrl (existingBookmarks : list (indexed bookmark))
  : gmap string (indexed bookmark) :=
  foldl (λ m bookmark,
           match has_url (item bookmark) with
           | Some u => <[u := bookmark]> m
           | None => m
           end) ∅ existingBookmarks.

(** [!tab.url || tab.url.startsWith('about:') || tab.url.startsWith('moz-extension:')] *)
Definition skipped (t : tab) : bool :=
  negb (truthy (tab_url t)) || special (tab_url t).

Record t2b_locals := T2bLocals {
  seenBookmarkIds : list nat;
  pinnedUrls : list string;
  bookmarkIndex : nat
}.

(** One iteration of the loop over [tabs]. *)
Definition t2b_tab (m : mapping) (byUrl : gmap string (indexed bookmark))
    (acc : t2b_locals) (t : indexed tab) : M t2b_locals :=
  let tab := item t in
  if skipped tab then mret acc
  else
    let pinned' :=
      if tab_pinned tab then set_add (tab_url tab) (pinnedUrls acc) else pinnedUrls acc in
    match byUrl !! tab_url tab with
    | Some existingBookmark =>
        let seen' := set_add (bm_id (item existingBookmark)) (seenBookmarkIds acc) in
        (if decide (bm_title (item existingBookmark) = tab_title tab) then skip
         else bookmarks_update (bm_id (item existingBookmark)) (tab_title tab));;
        (if decide (index existingBookmark = bookmarkIndex acc) then skip
         else bookmarks_move (bm_id (item existingBookmark)) (bookmarkIndex acc));;
        mret (T2bLocals seen' pinned' (S (bookmarkIndex acc)))
    | None =>
        newBookmark ← bookmarks_create (folderId m) (tab_title tab) (tab_url tab)
                        (bookmarkIndex acc);
        mret (T2bLocals (set_add (bm_id newBookmark) (seenBookmarkIds acc)) pinned'
                        (S (bookmarkIndex acc)))
    end.

(** The removal loop over the snapshot. *)
Definition t2b_cleanup (seen : list nat) (existingBookmarks : list (indexed bookmark))
  : M unit :=
  forM existingBookmarks (λ bookmark,
    if set_has (bm_id (item bookmark)) seen then skip
    else bookmarks_remove (bm_id (item bookmark))).

Definition t2b_body (windowId : nat) (m : mapping) : M unit :=
  tabs ← tabs_query windowId;
  existingBookmarks ← bookmarks_getSubTree (folderId m);
  acc ← foldM (t2b_tab m (bookmarksByUrl existingBookmarks)) (T2bLocals [] [] 0) tabs;
  t2b_cleanup (seenBookmarkIds acc) existingBookmarks;;
  modify_ext (λ e, set_pinnedTabsByFolder
                     (<[folderId m := pinnedUrls acc]> (pinnedTabsByFolder e)) e);;
  savePinnedTabs.

(** The [finally] block of [syncTabsToBookmarks]. *)
Definition t2b_finally : M unit :=
  modify_ext (set_isSyncing false);;
  e ← get_ext;
  match pendingSyncs e with
  | [] => skip
  | nextWindowId :: rest =>
      modify_ext (set_pendingSyncs rest);;
      spawn (syncTabsToBookmarks nextWindowId)
  end.

(** *** Bookmark to tab: the [try] block *)

Definition tabsByUrl (tabs : list (indexed tab)) : gmap string (indexed tab) :=
  foldl (λ m t, if skipped (item t) then m else <[tab_url (item t) := t]> m) ∅ tabs.

(** One iteration of the loop over [bookmarks]; [i] is the loop counter. *)
Definition b2t_bookmark (windowId : nat) (pinned : list string)
    (byUrl : gmap string (indexed tab)) (seenTabIds : list nat)
    (bookmark : indexed bookmark) : M (list nat) :=
  let i := index bookmark in
  match has_url (item bookmark) with
  | None => mret seenTabIds
  | Some url =>
      let shouldBePinned := set_has url pinned in
      match byUrl !! url with
      | Some existingTab =>
          (if decide (tab_pinned (item existingTab) = shouldBePinned) then skip
           else tabs_update (tab_id (item existingTab)) shouldBePinned);;
          (if decide (index existingTab = i) then skip
           else tabs_move (tab_id (item existingTab)) windowId i);;
          mret (set_add (tab_id (item existingTab)) seenTabIds)
      | None =>
          newTab ← tabs_create windowId url shouldBePinned (Some i);
          mret (set_add (tab_id newTab) seenTabIds)
      end
  end.

Definition b2t_cleanup (seen : list nat) (tabs : list (indexed tab)) : M unit :=
  forM tabs (λ t,
    if negb (set_has (tab_id (item t)) seen) && negb (special (tab_url (item t)))
    then tabs_remove (tab_id (item t))
    else skip).

Definition b2t_body (folder windowId : nat) : M unit :=
  bookmarks ← bookmarks_getSubTree folder;
  tabs ← tabs_query windowId;
  e ← get_ext;
  let pinned := default [] (pinnedTabsByFolder e !! folder) in
  seen ← foldM (b2t_bookmark windowId pinned (tabsByUrl tabs)) [] bookmarks;
  b2t_cleanup seen tabs.

(** The [finally] block of [syncBookmarksToTabs]. *)
Definition b2t_finally : M unit :=
  modify_ext (set_isSyncing false);;
  e ← get_ext;
  match pendingSyncs e with
  | [] => skip
  | nextWindowId :: rest =>
      modify_ext (set_pendingSyncs rest);;
      spawn (syncTabsToBookmarks nextWindowId)
  end.

(** The [try] block of a suspended pass. *)
Definition task_body (t : task) : M unit :=
  match t with
  | TabsToBookmarks w m => t2b_body w m
  | BookmarksToTabs f w => b2t_body f w
  end.

(** The rest of a pass, from its first [await] to the end of [finally]. *)
Definition run_task (t : task) : M unit :=
  match t with
  | TabsToBookmarks windowId m => try_finally (t2b_body windowId m) t2b_finally
  | BookmarksToTabs folder windowId => try_finally (b2t_body folder windowId) b2t_finally
  end.

(** One turn of the event loop: the oldest suspended pass runs to its end. *)
Definition turn (st : state) : outcome unit * state :=
  match suspended st with
  | [] => (Ok tt, st)
  | t :: rest => run_task t (set_suspended rest st)
  end.

(** *** Association *)

(** [await syncTabsToBookmarks(windowId)], for a caller that waits for the
    call.  A call that returns before its first [await] (no mapping, or the
    guard taken and the window put on the pending set) resolves at once.  An
    admitted pass has run to its end, [finally] block included and nothing
    else interleaving, when the caller goes on; its rejection is the
    caller's. *)
Definition await_syncTabsToBookmarks (windowId : nat) : M unit := λ st,
  match windowMappings (ext st) !! windowId with
  | None => (Ok tt, st)
  | Some m =>
      if isSyncing (ext st)
      then (Ok tt,
            with_ext (λ e, set_pendingSyncs (set_add windowId (pendingSyncs e)) e) st)
      else run_task (TabsToBookmarks windowId m) (with_ext (set_isSyncing true) st)
  end.

Definition associateWindowWithFolder (windowId folder : nat) (title : string) : M unit :=
  modify_ext (λ e, set_windowMappings
                     (<[windowId := Mapping folder title]> (windowMappings e)) e);;
  saveWindowMappings;;
  updateFolderLastUsed folder;;
  await_syncTabsToBookmarks windowId.

Definition disassociateWindow (windowId : nat) : M unit :=
  modify_ext (λ e, set_windowMappings (delete windowId (windowMappings e)) e);;
  saveWindowMappings.

(** [b.url && !b.url.startsWith('about:') && !b.url.startsWith('moz-extension:')] *)
Definition openable (b : bookmark) : bool :=
  match has_url b with
  | Some u => negb (special u)
  | None => false
  end.

Definition openFolderAsNewWindow (folder : nat) (title : string) : M nat :=
  bookmarks ← bookmarks_getSubTree folder;
  let urlBookmarks := filter (λ b, openable (item b)) bookmarks in
  if decide (length urlBookmarks = 0) then
    newWindow ← windows_create;
    modify_ext (λ e, set_windowMappings
                       (<[newWindow := Mapping folder title]> (windowMappings e)) e);;
    saveWindowMappings;;
    updateFolderLastUsed folder;;
    mret newWindow
  else
    e ← get_ext;
    let pinned := default [] (pinnedTabsByFolder e !! folder) in
    newWindow ← windows_create;
    initialTabs ← tabs_query newWindow;
    let initialBlankTabId := (λ t, tab_id (item t)) <$> head initialTabs in
    modify_ext (λ e, set_windowMappings
                       (<[newWindow := Mapping folder title]> (windowMappings e)) e);;
    saveWindowMappings;;
    updateFolderLastUsed folder;;
    forM urlBookmarks (λ bookmark,
      let url := default "" (bm_url (item bookmark)) in
      _ ← tabs_create newWindow url (set_has url pinned) None;
      skip);;
    match initialBlankTabId with
    | Some (S n) => tabs_remove (S n)
    | _ => skip
    end;;
    mret newWindow.

(** *** Notifications and the event loop *)

Inductive event :=
  | TabNotification (windowId : nat)
  | WindowRemoved (windowId : nat)
  | BookmarkNotification (parentId : nat)
  | PopupAssociate (windowId folder : nat) (title : string)
  | PopupDisassociate (windowId : nat)
  | PopupOpenFolder (folder : nat) (title : string)
  | Resume.

(** The listeners.  A tab listener of a tracked window asks for a tab to
    bookmark pass, a bookmark listener of a tracked folder for a bookmark to
    tab pass; [Resume] lets the suspended pass run. *)
Definition handle (ev : event) (st : state) : state :=
  match ev with
  | TabNotification w =>
      match windowMappings (ext st) !! w with
      | None => st
      | Some _ => syncTabsToBookmarks w st
      end
  | WindowRemoved w =>
      match windowMappings (ext st) !! w with
      | None => st
      | Some _ => snd (disassociateWindow w st)
      end
  | BookmarkNotification f =>
      match find_window (windowMappings (ext st)) f with
      | None => st
      | Some _ => syncBookmarksToTabs f st
      end
  | PopupAssociate w f title => snd (associateWindowWithFolder w f title st)
  | PopupDisassociate w => snd (disassociateWindow w st)
  | PopupOpenFolder f title => snd (openFolderAsNewWindow f title st)
  | Resume => snd (turn st)
  end.

Definition run_events (evs : list event) (st : state) : state :=
  foldl (λ s ev, handle ev s) st evs.

(* ===================================================================== *)
(** ** Specification vocabulary *)
(* ===================================================================== *)

(** *** Frames: what a computation leaves alone *)

Definition keeps {X A} (proj : state → X) (c : M A) : Prop :=
  ∀ st r st', c st = (r, st') → proj st' = proj st.

(** The guard and the queue of passes, and the same with the mappings. *)
Definition lock_view (st : state) : bool * list nat * list task :=
  (isSyncing (ext st), pendingSyncs (ext st), suspended st).
Definition guard_view (st : state) : bool * list nat * list task * gmap nat mapping :=
  (lock_view st, windowMappings (ext st)).
(** The script's globals and the queue: everything but the browser. *)
Definition script_view (st : state) : engine * list task := (ext st, suspended st).
(** The pinned sets, in memory and persisted. *)
Definition pinned_view (st : state) : gmap nat (list string) * option (gmap nat (list string)) :=
  (pinnedTabsByFolder (ext st), stored_pinned (br_storage (env st))).


(** The guard is held exactly while one admitted pass is in flight. *)
Definition guard_ok (st : state) : Prop :=
  (isSyncing (ext st) = false ∧ suspended st = []) ∨
  (isSyncing (ext st) = true ∧ ∃ t, suspended st = [t]).

(** A request that found the guard taken: only the pending set changes. *)
Definition deferred (windowId : nat) (st : state) : state :=
  with_ext (λ e, set_pendingSyncs (set_add windowId (pendingSyncs e)) e) st.

(** A request that passed the guard: the flag is set, the pass is queued. *)
Definition admitted (t : task) (st : state) : state :=
  set_suspended (suspended st ++ [t]) (with_ext (set_isSyncing true) st).

Definition only_ok (calls : list (api_call * bool)) : Prop :=
  Forall (λ e, e.2 = true) calls.

(** The calls a computation adds to the log all succeeded, except that a
    thrown computation ends with the one call that rejected. *)
Definition stops_at_failure {A} (c : M A) : Prop :=
  ∀ st r st', c st = (r, st') →
    ∃ calls, only_ok calls ∧
      match r with
      | Ok _ => br_log (env st') = calls ++ br_log (env st)
      | Throw => ∃ c, br_log (env st') = (c, false) :: calls ++ br_log (env st)
      end.

(** A computation that talks to nobody: it returns and leaves the browser. *)
Definition silent {A} (c : M A) : Prop :=
  ∀ st, ∃ a st', c st = (Ok a, st') ∧ env st' = env st.

(** An invariant of the state that a computation maintains, thrown or not. *)
Definition preserves {A} (I : state → Prop) (c : M A) : Prop :=
  ∀ st r st', I st → c st = (r, st') → I st'.

(* ===================================================================== *)
(** ** A small browser to run the script on *)
(* ===================================================================== *)

Module Demo.
Definition A : string := "https://a.example/".
Definition B : string := "https://b.example/".
Definition C : string := "https://c.example/".
Definition N : string := "https://n.example/".
Definition U : string := "https://u.example/".

Definition entry (id : nat) (url : string) : bookmark := Bookmark id (Some url) url.
Definition page (id : nat) (url : string) : tab := Tab id url url false.

(** Window 1 is synced with folder 10; no call ever rejects and the tab
    provider puts every tab where it is asked to. *)
Definition browser0 (kids : list bookmark) (ts : list tab) : browser :=
  Browser {[ 10 := kids ]} {[ 1 := ts ]} (Storage None None None)
          100 0 [] (λ _, false) (λ _ _ req, req) (λ url, url) 0.
Definition engine0 : engine := Engine {[ 1 := Mapping 10 "Group" ]} ∅ ∅ false [].
Definition start (kids : list bookmark) (ts : list tab) : state :=
  State engine0 (browser0 kids ts) [].

(** The same browser, rejecting the call number [n]. *)
Definition failing (n : nat) (st : state) : state :=
  with_env (λ b, Browser (br_bookmarks b) (br_tabs b) (br_storage b) (br_next b)
                         (br_clock b) (br_log b) (λ k, bool_decide (k = n))
                         (br_place b) (br_title b) (br_now b)) st.

Definition kids_of (st : state) : list bookmark :=
  default [] (br_bookmarks (env st) !! 10).
Definition tabs_of (st : state) : list tab :=
  default [] (br_tabs (env st) !! 1).
End Demo.

(* ===================================================================== *)
(** ** What a pass does to one folder and one window *)
(* ===================================================================== *)

(** The effect of one iteration of the tab loop of [syncTabsToBookmarks] on
    the loop's locals, the children of the synced folder and the identifier
    counter, when no call rejects. *)
Definition t2b_tab_effect (byUrl : gmap string (indexed bookmark))
    (s : t2b_locals * list bookmark * nat) (tab : tab)
  : t2b_locals * list bookmark * nat :=
  let '(acc, kids, next) := s in
  if skipped tab then s
  else
    let pinned' :=
      if tab_pinned tab then set_add (tab_url tab) (pinnedUrls acc) else pinnedUrls acc in
    match byUrl !! tab_url tab with
    | Some existingBookmark =>
        let id := bm_id (item existingBookmark) in
        let k1 := if decide (bm_title (item existingBookmark) = tab_title tab) then kids
                  else alter_id (retitle (tab_title tab)) id kids in
        let k2 := if decide (index existingBookmark = bookmarkIndex acc) then k1
                  else move_id id (bookmarkIndex acc) k1 in
        (T2bLocals (set_add id (seenBookmarkIds acc)) pinned' (S (bookmarkIndex acc)),
         k2, next)
    | None =>
        let nb := Bookmark next (Some (tab_url tab)) (tab_title tab) in
        (T2bLocals (set_add next (seenBookmarkIds acc)) pinned' (S (bookmarkIndex acc)),
         insert_at (bookmarkIndex acc) nb kids, S next)
    end.

(** The effect of the removal loop on the children of the synced folder. *)
Definition t2b_cleanup_effect (seen : list nat) (existingBookmarks : list bookmark)
    (kids : list bookmark) : list bookmark :=
  foldl (λ k b, if set_has (bm_id b) seen then k else remove_id (bm_id b) k)
        kids existingBookmarks.

(** The children of the synced folder after a completed tab to bookmark
    pass over [tabs], and the pinned set the pass stores. *)
Definition t2b_effect (kids : list bookmark) (next : nat) (tabs : list tab)
  : list bookmark * list string :=
  let '(acc, k, _) :=
    foldl (t2b_tab_effect (bookmarksByUrl (snapshot kids)))
          (T2bLocals [] [] 0, kids, next) tabs in
  (t2b_cleanup_effect (seenBookmarkIds acc) kids k, pinnedUrls acc).

(** The tabs a reconciler looks at: those it does not skip. *)
Definition live (tabs : list tab) : list tab :=
  filter (λ t, skipped t = false) tabs.

(** The loop invariant of the tab loop, for a snapshot [kids0] and the live
    tabs [done] processed so far: identifiers are distinct and below the
    counter, every snapshot child is still there under its identifier and
    url, an unseen child is an untouched snapshot child, a seen child carries
    the url and title of a processed tab, distinct seen children carry
    distinct urls, and the pinned set collects the pinned processed tabs. *)
Record t2b_inv (kids0 : list bookmark) (done : list tab)
    (acc : t2b_locals) (cur : list bookmark) (next : nat) : Prop := T2bInv {
  inv_nodup : NoDup (ids cur);
  inv_fresh : ∀ b, b ∈ cur → bm_id b < next;
  inv_kept : ∀ b, b ∈ kids0 →
    ∃ b', b' ∈ cur ∧ bm_id b' = bm_id b ∧ bm_url b' = bm_url b;
  inv_unseen : ∀ b, b ∈ cur → bm_id b ∉ seenBookmarkIds acc → b ∈ kids0;
  inv_seen : ∀ b, b ∈ cur → bm_id b ∈ seenBookmarkIds acc →
    ∃ t, t ∈ done ∧ bm_url b = Some (tab_url t) ∧ bm_title b = tab_title t;
  inv_done : ∀ t, t ∈ done →
    ∃ b, b ∈ cur ∧ bm_id b ∈ seenBookmarkIds acc ∧ bm_url b = Some (tab_url t);
  inv_inj : ∀ b b', b ∈ cur → b' ∈ cur →
    bm_id b ∈ seenBookmarkIds acc → bm_id b' ∈ seenBookmarkIds acc →
    bm_url b = bm_url b' → b = b';
  inv_pinned : ∀ u, u ∈ pinnedUrls acc ↔
    ∃ t, t ∈ done ∧ tab_pinned t = true ∧ tab_url t = u
}.

(** Identifiers handed out so far are distinct and below the counter. *)
Definition identified {A} `{HasId A} (next : nat) (l : list A) : Prop :=
  NoDup (ids l) ∧ Forall (λ x, get_id x < next) l.

(** The guarantee of the tab to bookmark pass in the words of the
    specification: the children carry the urls of the live tabs in tab order
    with the tabs' titles, and the pinned set is the set of urls of the
    pinned live tabs. *)
Definition mirrors_tabs (kids : list bookmark) (pinned : list string)
    (tabs : list tab) : Prop :=
  bm_url <$> kids = (λ t, Some (tab_url t)) <$> live tabs ∧
  bm_title <$> kids = tab_title <$> live tabs ∧
  (∀ u, u ∈ pinned ↔ ∃ t, t ∈ live tabs ∧ tab_pinned t = true ∧ tab_url t = u).

Definition t2b_guarantee (w : nat) (m : mapping) (st : state) : Prop :=
  ∀ st', run_task (TabsToBookmarks w m) st = (Ok tt, st') →
    mirrors_tabs (default [] (br_bookmarks (env st') !! folderId m))
                 (default [] (pinnedTabsByFolder (ext st') !! folderId m))
                 (default [] (br_tabs (env st) !! w)).

(** What the script cannot change in the browser while it works on tabs. *)
Definition tab_frame (st : state)
  : (list tab → tab → nat → nat) * (string → string) * gmap nat (list bookmark) * storage :=
  (br_place (env st), br_title (env st), br_bookmarks (env st), br_storage (env st)).

(** The effect of one iteration of the bookmark loop of [syncBookmarksToTabs]
    on [seenTabIds], the tabs of the window and the identifier counter, when
    no call rejects. *)
Definition b2t_bookmark_effect (place : list tab → tab → nat → nat)
    (title : string → string) (pinned : list string)
    (byUrl : gmap string (indexed tab))
    (s : list nat * list tab * nat) (bookmark : indexed bookmark)
  : list nat * list tab * nat :=
  let '(seen, ts, next) := s in
  match has_url (item bookmark) with
  | None => s
  | Some url =>
      let shouldBePinned := set_has url pinned in
      match byUrl !! url with
      | Some existingTab =>
          let id := tab_id (item existingTab) in
          let t1 := if decide (tab_pinned (item existingTab) = shouldBePinned) then ts
                    else update_pinned place id shouldBePinned ts in
          let t2 := if decide (index existingTab = index bookmark) then t1
                    else place_id place id (index bookmark) t1 in
          (set_add id seen, t2, next)
      | None =>
          let t := Tab next url (title url) shouldBePinned in
          (set_add next seen, insert_at (place ts t (index bookmark)) t ts, S next)
      end
  end.

(** The effect of the closing loop on the tabs of the window. *)
Definition b2t_cleanup_effect (seen : list nat) (tabs : list tab) (ts : list tab)
  : list tab :=
  foldl (λ k t, if negb (set_has (tab_id t) seen) && negb (special (tab_url t))
                then remove_id (tab_id t) k else k)
        ts tabs.

(** The tabs of the window after a completed bookmark to tab pass. *)
Definition b2t_effect (place : list tab → tab → nat → nat) (title : string → string)
    (pinned : list string) (kids : list bookmark) (tabs : list tab) (next : nat)
  : list tab :=
  let '(seen, ts, _) :=
    foldl (b2t_bookmark_effect place title pinned (tabsByUrl (snapshot tabs)))
          ([], tabs, next) (snapshot kids) in
  b2t_cleanup_effect seen tabs ts.

(** A url a reconciler does not exclude by its scheme. *)
Definition ordinary (u : string) : Prop := special u = false.

(** The urls of the children that have one, in folder order. *)
Definition urls (kids : list bookmark) : list string := omap has_url kids.

(** The loop invariant of the bookmark loop, for the tabs [tabs0] of the
    snapshot and the urls [done] of the children processed so far. *)
Record b2t_inv (pinned : list string) (tabs0 : list tab) (done : list string)
    (seen : list nat) (cur : list tab) (next : nat) : Prop := B2tInv {
  tinv_nodup : NoDup (ids cur);
  tinv_fresh : ∀ t, t ∈ cur → tab_id t < next;
  tinv_kept : ∀ t, t ∈ tabs0 →
    ∃ t', t' ∈ cur ∧ tab_id t' = tab_id t ∧ tab_url t' = tab_url t;
  tinv_unseen : ∀ t, t ∈ cur → tab_id t ∉ seen → t ∈ tabs0;
  tinv_seen : ∀ t, t ∈ cur → tab_id t ∈ seen →
    tab_url t ∈ done ∧ tab_pinned t = set_has (tab_url t) pinned;
  tinv_done : ∀ u, u ∈ done → ∃ t, t ∈ cur ∧ tab_id t ∈ seen ∧ tab_url t = u;
  tinv_inj : NoDup done → ∀ t t', t ∈ cur → t' ∈ cur →
    tab_id t ∈ seen → tab_id t' ∈ seen → tab_url t = tab_url t' → t = t'
}.

(** The guarantee of the bookmark to tab pass in the words of the
    specification: the tab of each child with a url sits at the child's
    ordinal position and is pinned exactly when its url is in the folder's
    pinned set. *)
Definition mirrors_folder (tabs : list tab) (pinned : list string)
    (kids : list bookmark) : Prop :=
  ∀ i b u, kids !! i = Some b → has_url b = Some u →
    ∃ t, tabs !! i = Some t ∧ tab_url t = u ∧ tab_pinned t = set_has u pinned.

Definition b2t_guarantee (f w : nat) (st : state) : Prop :=
  ∀ st', run_task (BookmarksToTabs f w) st = (Ok tt, st') →
    mirrors_folder (default [] (br_tabs (env st') !! w))
                   (default [] (pinnedTabsByFolder (ext st) !! f))
                   (default [] (br_bookmarks (env st) !! f)).

(** The bookmarks, the tabs and the identifier counter of the browser, with
    the provider's placement and titles: everything but storage and log. *)
Definition data_view (st : state)
  : gmap nat (list bookmark) * gmap nat (list tab) * nat
    * (list tab → tab → nat → nat) * (string → string) :=
  (br_bookmarks (env st), br_tabs (env st), br_next (env st),
   br_place (env st), br_title (env st)).

(** The tab provider appends the tabs [openFolderAsNewWindow] creates for
    these children: a tab on one of their urls, pinned as the pinned set
    says, asked to go to the end of the window, is put there. *)
Definition appends_created (b : browser) (kids : list bookmark)
    (pinned : list string) : Prop :=
  ∀ ts t, tab_url t ∈ urls kids → tab_pinned t = set_has (tab_url t) pinned →
          br_place b ts t (length ts) = length ts.


(* ===================================================================== *)
(** ** More of the script: what a pass leaves alone *)
(* ===================================================================== *)

(** What a tab to bookmark pass for folder [f] cannot change: the tabs, the
    mappings, the last-used stamps in memory and in storage, the persisted
    mappings and the pinned sets of the other folders. *)
Definition t2b_frame (f : nat) (st : state)
  : gmap nat (list tab) * gmap nat mapping * gmap nat nat
    * option (gmap nat mapping) * option (gmap nat nat) * gmap nat (list string) :=
  (br_tabs (env st), windowMappings (ext st), folderLastUsed (ext st),
   stored_mappings (br_storage (env st)), stored_lastUsed (br_storage (env st)),
   delete f (pinnedTabsByFolder (ext st))).

(** What a bookmark to tab pass cannot change: the bookmarks, the storage,
    and the script's mappings, pinned sets and last-used stamps. *)
Definition b2t_frame (st : state)
  : gmap nat (list bookmark) * storage * gmap nat mapping
    * gmap nat (list string) * gmap nat nat :=
  (br_bookmarks (env st), br_storage (env st), windowMappings (ext st),
   pinnedTabsByFolder (ext st), folderLastUsed (ext st)).

(** The calls a pass may issue without changing the view it writes to. *)
Definition reads_or_saves_pinned (w f : nat) (c : api_call) : Prop :=
  c = TabsQuery w ∨ c = BookmarksGetSubTree f ∨ c = StorageSet PINNED_TABS_KEY.

Definition reads_only (w f : nat) (c : api_call) : Prop :=
  c = TabsQuery w ∨ c = BookmarksGetSubTree f.

(** A computation that, run from [st], leaves bookmarks and tabs as they
    are and issues only calls that [allowed] admits. *)
Definition quiet_at {A} (allowed : api_call → Prop) (c : M A) (st : state) : Prop :=
  ∀ r st', c st = (r, st') →
    br_bookmarks (env st') = br_bookmarks (env st) ∧
    br_tabs (env st') = br_tabs (env st) ∧
    ∃ calls, br_log (env st') = calls ++ br_log (env st) ∧
             Forall (λ e, allowed e.1) calls.

(* ===================================================================== *)
(** ** Creating the folder of a window *)
(* ===================================================================== *)





(** Windows and tabs carry identifiers the counter has already passed. *)
Definition fresh_tabs (b : browser) : Prop :=
  ∀ w ts, br_tabs b !! w = Some ts →
    w < br_next b ∧ Forall (λ t, tab_id t < br_next b) ts.

(** What [openFolderAsNewWindow] shows of a child: its url, pinned as the
    folder's pinned set says. *)
Definition shown_as (pinned : list string) (u : string) : string * bool :=
  (u, set_has u pinned).
Definition look (t : tab) : string * bool := (tab_url t, tab_pinned t).

(** The bookmark side of the state: every folder's children and the pinned
    sets, in memory and persisted. *)
Definition bookmark_side (st : state)
  : gmap nat (list bookmark) * gmap nat (list string) * option (gmap nat (list string)) :=
  (br_bookmarks (env st), pinnedTabsByFolder (ext st), stored_pinned (br_storage (env st))).

(** The calls a run of [c] from [st] adds to the log, the rejected one
    included, are all among [allowed]. *)
Definition calls_within {A} (allowed : api_call → Prop) (c : M A) (st : state) : Prop :=
  ∀ r st', c st = (r, st') →
    ∃ calls, br_log (env st') = calls ++ br_log (env st) ∧
             Forall (λ e, allowed e.1) calls.

(** The calls of [openFolderAsNewWindow] for folder [f] with children [kids]
    and pinned set [pinned], when the new window gets identifier [w]. *)
Definition opening (f w : nat) (kids : list bookmark) (pinned : list string)
    (c : api_call) : Prop :=
  c = BookmarksGetSubTree f ∨ c = WindowsCreate ∨ c = TabsQuery w ∨
  c = StorageSet STORAGE_KEY ∨ c = StorageSet FOLDER_LAST_USED_KEY ∨
  c = TabsRemove (S w) ∨
  ∃ b u, b ∈ kids ∧ has_url b = Some u ∧ special u = false ∧
         c = TabsCreate w u (set_has u pinned) None.

(* ===================================================================== *)
(** ** The listeners, with what they read of their arguments *)
(* ===================================================================== *)

(** The [changeInfo] of [tabs.onUpdated]: the properties that changed. *)
Record changeInfo := ChangeInfo {
  ci_url : option string;
  ci_title : option string;
  ci_pinned : option bool
}.

(** [changeInfo.url || changeInfo.title || changeInfo.pinned !== undefined] *)
Definition relevant (ci : changeInfo) : bool :=
  from_option truthy false (ci_url ci) || from_option truthy false (ci_title ci)
  || bool_decide (is_Some (ci_pinned ci)).

(** [if (!windowMappings[windowId]) return; await syncTabsToBookmarks(windowId)] *)
Definition on_tab (windowId : nat) (st : state) : state :=
  match windowMappings (ext st) !! windowId with
  | None => st
  | Some _ => syncTabsToBookmarks windowId st
  end.

(** [if (Object.keys(windowMappings).find(...)) await syncBookmarksToTabs(parentId)] *)
Definition on_bookmark (parentId : nat) (st : state) : state :=
  match find_window (windowMappings (ext st)) parentId with
  | None => st
  | Some _ => syncBookmarksToTabs parentId st
  end.

(** [bookmarks.onMoved] goes on after its first [await]: a pass admitted for
    the new parent has run to its end by then, nothing else interleaving,
    and a pass that threw ends the listener. *)
Definition bookmarks_onMoved (parentId oldParentId : nat) (st : state) : state :=
  match find_window (windowMappings (ext st)) parentId with
  | None => on_bookmark oldParentId st
  | Some windowId =>
      if isSyncing (ext st)
      then on_bookmark oldParentId (syncBookmarksToTabs parentId st)
      else
        match run_task (BookmarksToTabs parentId windowId)
                (with_ext (set_isSyncing true) st) with
        | (Ok _, st1) => on_bookmark oldParentId st1
        | (Throw, st1) => st1
        end
  end.

Inductive listener :=
  | TabsOnCreated (windowId : nat)
  | TabsOnRemoved (windowId : nat) (isWindowClosing : bool)
  | TabsOnUpdated (windowId : nat) (ci : changeInfo)
  | TabsOnMoved (windowId : nat)
  | TabsOnAttached (newWindowId : nat)
  | TabsOnDetached (oldWindowId : nat)
  | WindowsOnRemoved (windowId : nat)
  | BookmarksOnCreated (url : option string) (parentId : nat)
  | BookmarksOnRemoved (parentId : nat)
  | BookmarksOnMoved (parentId oldParentId : nat).

Definition listen (l : listener) (st : state) : state :=
  match l with
  | TabsOnCreated w => on_tab w st
  | TabsOnRemoved w isWindowClosing =>
      match windowMappings (ext st) !! w with
      | None => st
      | Some _ => if isWindowClosing then st else syncTabsToBookmarks w st
      end
  | TabsOnUpdated w ci =>
      match windowMappings (ext st) !! w with
      | None => st
      | Some _ => if relevant ci then syncTabsToBookmarks w st else st
      end
  | TabsOnMoved w => on_tab w st
  | TabsOnAttached w => on_tab w st
  | TabsOnDetached w => on_tab w st
  | WindowsOnRemoved w =>
      match windowMappings (ext st) !! w with
      | None => st
      | Some _ => snd (disassociateWindow w st)
      end
  | BookmarksOnCreated url parentId =>
      if from_option truthy false url then on_bookmark parentId st else st
  | BookmarksOnRemoved parentId => on_bookmark parentId st
  | BookmarksOnMoved parentId oldParentId => bookmarks_onMoved parentId oldParentId st
  end.

(** The requests of a listener that found the guard taken. *)
Definition all_deferred (ws : list nat) (st : state) : state := foldr deferred st ws.

(* ===================================================================== *)
(** ** Start-up *)
(* ===================================================================== *)

(** An awaited read the log has no name for: the failure oracle numbers it
    like every call, and it leaves the browser as it is. *)
Definition ticked (b : browser) : browser :=
  Browser (br_bookmarks b) (br_tabs b) (br_storage b) (br_next b)
          (S (br_clock b)) (br_log b) (br_fail b) (br_place b) (br_title b) (br_now b).

Definition await_read {A} (read : browser → A) : M A := λ st,
  let b := env st in
  if br_fail b (br_clock b) then (Throw, with_env ticked st)
  else (Ok (read b), with_env ticked st).

(** [browser.storage.local.get([STORAGE_KEY, PINNED_TABS_KEY, FOLDER_LAST_USED_KEY])] *)
Definition storage_get : M storage := await_read br_storage.

(** [browser.windows.getAll()], as the identifiers of the open windows. *)
Definition windows_getAll : M (list nat) :=
  await_read (λ b, (map_to_list (br_tabs b)).*1).

(** [new Set(array)] *)
Definition Set_of (array : list string) : list string :=
  foldl (λ s x, set_add x s) [] array.

(** The globals when the script is loaded. *)
Definition script_start : engine := Engine ∅ ∅ ∅ false [].

Definition initialize : M unit :=
  data ← storage_get;
  modify_ext (set_windowMappings (default ∅ (stored_mappings data)));;
  modify_ext (set_pinnedTabsByFolder (Set_of <$> default ∅ (stored_pinned data)));;
  modify_ext (set_folderLastUsed (default ∅ (stored_lastUsed data)));;
  windows ← windows_getAll;
  modify_ext (λ e, set_windowMappings
                     (filter (λ kv, kv.1 ∈ windows) (windowMappings e)) e);;
  saveWindowMappings.

(* ===================================================================== *)
(** ** popup.js: the list of folders *)
(* ===================================================================== *)

(** A node of [bookmarks.getTree()].  The popup compares identifiers with
    the browser's root identifiers, so here they are the strings they are. *)
#[local] Set Warnings "-register-all".
Inductive node := Node {
  node_id : string;
  node_title : string;
  node_type : option string;
  node_url : option string;
  node_children : option (list node)
}.

Record folder_entry := FolderEntry {
  f_id : string;
  f_title : string;
  f_depth : nat;
  f_lastUsed : nat
}.

Definition rootFolderIds : list string :=
  ["root________"; "menu________"; "toolbar_____"; "unfiled_____"; "mobile______"].

(** [node.type === 'folder' || (!node.url && node.children)] *)
Definition is_folder (n : node) : bool :=
  bool_decide (node_type n = Some "folder")
  || (negb (from_option truthy false (node_url n)) && bool_decide (is_Some (node_children n))).

(** [!rootFolderIds.has(node.id) && node.title] *)
Definition listable (n : node) : bool :=
  negb (set_has (node_id n) rootFolderIds) && truthy (node_title n).

(** [{id, title, depth, lastUsed: folderLastUsed[node.id] || 0}] *)
Definition entry_of (folderLastUsed : gmap string nat) (depth : nat) (n : node)
  : folder_entry :=
  FolderEntry (node_id n) (node_title n) depth (default 0 (folderLastUsed !! node_id n)).

(** The body of the loop of [traverseTree], with the recursive call. *)
Fixpoint traverse_node (folderLastUsed : gmap string nat) (depth : nat) (n : node)
  : list folder_entry :=
  if is_folder n then
    (if listable n then [entry_of folderLastUsed depth n] else []) ++
    match node_children n with
    | Some children =>
        (fix traverse (nodes : list node) : list folder_entry :=
           match nodes with
           | [] => []
           | c :: rest => traverse_node folderLastUsed (S depth) c ++ traverse rest
           end) children
    | None => []
    end
  else [].

(** [traverseTree(nodes, depth)]: what it pushes on [allFolders]. *)
Definition traverseTree (folderLastUsed : gmap string nat) (nodes : list node)
    (depth : nat) : list folder_entry :=
  n ← nodes; traverse_node folderLastUsed depth n.

(** [allFolders.sort((a, b) => b.lastUsed - a.lastUsed)].  The sort of an
    array is stable, which determines its result; here by insertion. *)
Fixpoint sort_insert (x : folder_entry) (l : list folder_entry) : list folder_entry :=
  match l with
  | [] => [x]
  | y :: rest =>
      if decide (f_lastUsed x < f_lastUsed y) then y :: sort_insert x rest
      else x :: y :: rest
  end.
Definition sort_by_lastUsed (l : list folder_entry) : list folder_entry :=
  foldr sort_insert [] l.

(** The folders [loadBookmarkFolders] puts in the two dropdowns, in order. *)
Definition loadBookmarkFolders (folderLastUsed : gmap string nat) (bookmarkTree : list node)
  : list folder_entry :=
  sort_by_lastUsed (traverseTree folderLastUsed bookmarkTree 0).

(** Most recently used first. *)
Definition recent_first (l : list folder_entry) : Prop :=
  StronglySorted (λ a b, f_lastUsed b ≤ f_lastUsed a) l.

(** Node [n] is met by the traversal of [nodes] started at [depth], at depth
    [d]: it is one of [nodes], or it is met in the children of a folder
    among them. *)
Inductive met (n : node) (d : nat) : list node → nat → Prop :=
  | met_here nodes : n ∈ nodes → met n d nodes d
  | met_below nodes depth p children :
      p ∈ nodes → is_folder p = true → node_children p = Some children →
      met n d children (S depth) → met n d nodes depth.

(** The part of the tab loop's invariant that holds whatever the tabs are,
    two tabs on one url included. *)
Record t2b_weak_inv (kids0 : list bookmark) (done : list tab)
    (acc : t2b_locals) (cur : list bookmark) (next : nat) : Prop := T2bWeakInv {
  winv_nodup : NoDup (ids cur);
  winv_fresh : ∀ b, b ∈ cur → bm_id b < next;
  winv_kept : ∀ b, b ∈ kids0 →
    ∃ b', b' ∈ cur ∧ bm_id b' = bm_id b ∧ bm_url b' = bm_url b;
  winv_unseen : ∀ b, b ∈ cur → bm_id b ∉ seenBookmarkIds acc → b ∈ kids0;
  winv_seen : ∀ b, b ∈ cur → bm_id b ∈ seenBookmarkIds acc →
    ∃ t, t ∈ done ∧ bm_url b = Some (tab_url t) ∧ bm_title b = tab_title t;
  winv_done : ∀ t, t ∈ done →
    ∃ b, b ∈ cur ∧ bm_id b ∈ seenBookmarkIds acc ∧ bm_url b = Some (tab_url t);
  winv_pinned : ∀ u, u ∈ pinnedUrls acc ↔
    ∃ t, t ∈ done ∧ tab_pinned t = true ∧ tab_url t = u
}.

(* ===================================================================== *)
(** ** Opening a folder while the listeners are served *)
(* ===================================================================== *)

(** [openFolderAsNewWindow] with what is handled while it waits in its loop.
    The window is mapped before the loop, so the browser's [tabs.onCreated]
    for each tab the loop creates reaches a listener of a tracked window,
    and the event loop may let a queued pass run before the function goes
    on.  [during i w] is the list of events handled after the [i]-th
    [tabs.create] in the new window [w], before the next statement of the
    function.  With no event anywhere this is [openFolderAsNewWindow]. *)
Definition openFolderAsNewWindow_during (during : nat → nat → list event)
    (folder : nat) (title : string) : M nat :=
  bookmarks ← bookmarks_getSubTree folder;
  let urlBookmarks := filter (λ b, openable (item b)) bookmarks in
  if decide (length urlBookmarks = 0) then
    newWindow ← windows_create;
    modify_ext (λ e, set_windowMappings
                       (<[newWindow := Mapping folder title]> (windowMappings e)) e);;
    saveWindowMappings;;
    updateFolderLastUsed folder;;
    mret newWindow
  else
    e ← get_ext;
    let pinned := default [] (pinnedTabsByFolder e !! folder) in
    newWindow ← windows_create;
    initialTabs ← tabs_query newWindow;
    let initialBlankTabId := (λ t, tab_id (item t)) <$> head initialTabs in
    modify_ext (λ e, set_windowMappings
                       (<[newWindow := Mapping folder title]> (windowMappings e)) e);;
    saveWindowMappings;;
    updateFolderLastUsed folder;;
    forM (imap (λ i bookmark, (i, bookmark)) urlBookmarks) (λ step,
      let url := default "" (bm_url (item step.2)) in
      _ ← tabs_create newWindow url (set_has url pinned) None;
      spawn (run_events (during step.1 newWindow)));;
    match initialBlankTabId with
    | Some (S n) => tabs_remove (S n)
    | _ => skip
    end;;
    mret newWindow.


(* ===================================================================== *)
(** ** Reasoning about the monad *)
(* ===================================================================== *)

Lemma bind_unfold {A B} (c : M A) (k : A → M B) (st : state) :
  (c ≫= k) st = match c st with
                | (Ok a, st1) => k a st1
                | (Throw, st1) => (Throw, st1)
                end.
Proof. reflexivity. Qed.

Lemma bind_Ok {A B} (c : M A) (k : A → M B) st b st' :
  (c ≫= k) st = (Ok b, st') →
  ∃ a st1, c st = (Ok a, st1) ∧ k a st1 = (Ok b, st').
Proof.
  rewrite bind_unfold. destruct (c st) as [[a|] st1]; [eauto | discriminate].
Qed.

Lemma ret_Ok {A} (a b : A) st st' :
  (mret a : M A) st = (Ok b, st') → b = a ∧ st' = st.
Proof. intros [= ]. done. Qed.

Lemma skip_Ok st r st' : skip st = (r, st') → r = Ok tt ∧ st' = st.
Proof. intros [= ]. done. Qed.

Lemma api_Ok {A} c (op : browser → option (A * browser)) st a st' :
  api c op st = (Ok a, st') →
  ∃ b', op (env st) = Some (a, b') ∧ st' = with_env (λ _, logged c true b') st.
Proof.
  unfold api. destruct (br_fail _ _); [discriminate |].
  destruct (op (env st)) as [[a0 b']|]; [| discriminate].
  intros [= <- <-]. eauto.
Qed.

Lemma foldM_cons {A B} (f : B → A → M B) acc x l :
  foldM f acc (x :: l) = (f acc x ≫= λ acc', foldM f acc' l).
Proof. reflexivity. Qed.

Section frames.
Context {X : Type} (proj : state → X).

Lemma keeps_ret {A} (a : A) : keeps proj (mret a).
Proof. intros st r st' [= ]. by subst. Qed.

Lemma keeps_bind {A B} (c : M A) (k : A → M B) :
  keeps proj c → (∀ a, keeps proj (k a)) → keeps proj (c ≫= k).
Proof.
  intros Hc Hk st r st'. rewrite bind_unfold.
  destruct (c st) as [[a|] st1] eqn:E.
  - intros Hka. rewrite (Hk _ _ _ _ Hka). eauto.
  - intros [= <- <-]. eauto.
Qed.

Lemma keeps_foldM {A B} (f : B → A → M B) l :
  (∀ acc x, keeps proj (f acc x)) → ∀ acc, keeps proj (foldM f acc l).
Proof.
  intros Hf. induction l as [|x l IH]; intros acc.
  - apply keeps_ret.
  - rewrite foldM_cons. apply keeps_bind; auto.
Qed.

Lemma keeps_if {A} (b : bool) (c1 c2 : M A) :
  keeps proj c1 → keeps proj c2 → keeps proj (if b then c1 else c2).
Proof. by destruct b. Qed.

Lemma keeps_decide {A} (P : Prop) `{Decision P} (c1 c2 : M A) :
  keeps proj c1 → keeps proj c2 → keeps proj (if decide P then c1 else c2).
Proof. by destruct (decide P). Qed.

Lemma keeps_try_finally {A} (body : M A) (fin : M unit) :
  keeps proj body → keeps proj fin → keeps proj (try_finally body fin).
Proof.
  intros Hb Hf st r st'. unfold try_finally.
  destruct (body st) as [r1 st1] eqn:E1.
  destruct (fin st1) as [[[]|] st2] eqn:E2; intros [= <- <-];
    rewrite (Hf _ _ _ E2); eauto.
Qed.

Lemma keeps_get_ext : keeps proj get_ext.
Proof. intros st r st' [= ]. by subst. Qed.

Lemma keeps_Date_now : keeps proj Date_now.
Proof. intros st r st' [= ]. by subst. Qed.

Lemma keeps_modify_ext f :
  (∀ st, proj (with_ext f st) = proj st) → keeps proj (modify_ext f).
Proof. intros Hf st r st' [= <- <-]. apply Hf. Qed.

Lemma keeps_api {A} c (op : browser → option (A * browser)) :
  (∀ g st, proj (with_env g st) = proj st) → keeps proj (api c op).
Proof.
  intros Hp st r st'. unfold api.
  destruct (if br_fail _ _ then None else op (env st)) as [[a b']|];
    intros [= <- <-]; apply Hp.
Qed.

End frames.

Create HintDb frames.
#[export] Hint Resolve keeps_ret keeps_get_ext keeps_Date_now : frames.
#[export] Hint Extern 2 (keeps _ (_ ≫= _)) => apply keeps_bind; [| intros ?] : frames.
#[export] Hint Extern 2 (keeps _ (foldM _ _ _)) => apply keeps_foldM; intros ? ? : frames.
#[export] Hint Extern 2 (keeps _ (forM _ _)) => apply keeps_foldM; intros ? ? : frames.
#[export] Hint Extern 2 (keeps _ (if decide _ then _ else _)) => apply keeps_decide : frames.
#[export] Hint Extern 3 (keeps _ (if _ then _ else _)) => apply keeps_if : frames.
#[export] Hint Extern 2 (keeps _ (match ?x with Some _ => _ | None => _ end)) =>
  destruct x : frames.
#[export] Hint Extern 2 (keeps _ skip) => apply keeps_ret : frames.
#[export] Hint Extern 2 (keeps _ (api _ _)) => apply keeps_api; reflexivity : frames.
#[export] Hint Extern 2 (keeps _ (modify_ext _)) => apply keeps_modify_ext; reflexivity : frames.

Ltac frame :=
  repeat first
    [ progress unfold bookmarks_getSubTree, bookmarks_create, bookmarks_update,
        bookmarks_move, bookmarks_remove, tabs_query, tabs_create, tabs_update,
        tabs_move, tabs_remove, windows_create, saveWindowMappings, savePinnedTabs,
        updateFolderLastUsed
    | solve [auto 20 with frames] ].

Lemma t2b_tab_keeps_guard m byUrl acc t : keeps guard_view (t2b_tab m byUrl acc t).
Proof. unfold t2b_tab. frame. Qed.

Lemma t2b_body_keeps_guard w m : keeps guard_view (t2b_body w m).
Proof.
  unfold t2b_body, t2b_cleanup.
  pose proof t2b_tab_keeps_guard. frame.
Qed.

Lemma b2t_bookmark_keeps_ext w p byUrl seen b :
  keeps script_view (b2t_bookmark w p byUrl seen b).
Proof. unfold b2t_bookmark. frame. Qed.

Lemma b2t_body_keeps_ext f w : keeps script_view (b2t_body f w).
Proof.
  unfold b2t_body, b2t_cleanup.
  pose proof b2t_bookmark_keeps_ext. frame.
Qed.

Lemma t2b_finally_spec st :
  t2b_finally st =
  (Ok tt, match pendingSyncs (ext st) with
          | [] => with_ext (set_isSyncing false) st
          | next :: rest =>
              syncTabsToBookmarks next
                (with_ext (set_pendingSyncs rest) (with_ext (set_isSyncing false) st))
          end).
Proof.
  unfold t2b_finally, modify_ext, get_ext, mbind, M_bind, spawn, skip, mret, M_ret.
  simpl. by destruct (pendingSyncs (ext st)).
Qed.

Lemma b2t_finally_spec st :
  b2t_finally st =
  (Ok tt, match pendingSyncs (ext st) with
          | [] => with_ext (set_isSyncing false) st
          | next :: rest =>
              syncTabsToBookmarks next
                (with_ext (set_pendingSyncs rest) (with_ext (set_isSyncing false) st))
          end).
Proof.
  unfold b2t_finally, modify_ext, get_ext, mbind, M_bind, spawn, skip, mret, M_ret.
  simpl. by destruct (pendingSyncs (ext st)).
Qed.

(** A pass is its [try] block followed by the exit code, whatever the block
    returned. *)
Lemma run_task_split t st r st' :
  run_task t st = (r, st') →
  ∃ mid, task_body t st = (r, mid) ∧
    st' = match pendingSyncs (ext mid) with
          | [] => with_ext (set_isSyncing false) mid
          | next :: rest =>
              syncTabsToBookmarks next
                (with_ext (set_pendingSyncs rest) (with_ext (set_isSyncing false) mid))
          end.
Proof.
  destruct t as [w m | f w]; simpl; unfold try_finally.
  - destruct (t2b_body w m st) as [r1 mid]. rewrite t2b_finally_spec.
    intros [= <- <-]. eauto.
  - destruct (b2t_body f w st) as [r1 mid]. rewrite b2t_finally_spec.
    intros [= <- <-]. eauto.
Qed.

Lemma task_body_keeps_guard t : keeps guard_view (task_body t).
Proof.
  destruct t as [w m | f w]; simpl.
  - apply t2b_body_keeps_guard.
  - intros st r st' E. apply b2t_body_keeps_ext in E.
    unfold script_view in E. injection E as E1 E2.
    unfold guard_view, lock_view. by rewrite E1, E2.
Qed.

(** *** The guard *)

Lemma sync_tabs_deferred w m st :
  windowMappings (ext st) !! w = Some m → isSyncing (ext st) = true →
  syncTabsToBookmarks w st = deferred w st.
Proof. intros Hm Hs. unfold syncTabsToBookmarks. by rewrite Hm, Hs. Qed.

Lemma sync_tabs_admitted w m st :
  windowMappings (ext st) !! w = Some m → isSyncing (ext st) = false →
  syncTabsToBookmarks w st = admitted (TabsToBookmarks w m) st.
Proof. intros Hm Hs. unfold syncTabsToBookmarks. by rewrite Hm, Hs. Qed.

Lemma sync_bookmarks_deferred f w st :
  find_window (windowMappings (ext st)) f = Some w → isSyncing (ext st) = true →
  syncBookmarksToTabs f st = deferred w st.
Proof. intros Hm Hs. unfold syncBookmarksToTabs. by rewrite Hm, Hs. Qed.

Lemma sync_bookmarks_admitted f w st :
  find_window (windowMappings (ext st)) f = Some w → isSyncing (ext st) = false →
  syncBookmarksToTabs f st = admitted (BookmarksToTabs f w) st.
Proof. intros Hm Hs. unfold syncBookmarksToTabs. by rewrite Hm, Hs. Qed.

Lemma set_add_idem `{EqDecision A} (x : A) (s : list A) :
  set_add x (set_add x s) = set_add x s.
Proof.
  unfold set_add. destruct (decide (x ∈ s)) as [Hin|Hn].
  - by rewrite decide_True.
  - rewrite decide_True; [done |]. apply elem_of_app. right. by apply list_elem_of_singleton.
Qed.

Lemma guard_ok_view st st' : lock_view st' = lock_view st → guard_ok st → guard_ok st'.
Proof.
  unfold lock_view, guard_ok. intros [= E1 E2 E3]. by rewrite E1, E3.
Qed.

Lemma guard_ok_sync_tabs w st : guard_ok st → guard_ok (syncTabsToBookmarks w st).
Proof.
  intros Hg. unfold syncTabsToBookmarks.
  destruct (windowMappings (ext st) !! w) as [m|]; [| done].
  destruct (isSyncing (ext st)) eqn:Hs.
  - destruct Hg as [[? _]|[_ Hq]]; [congruence |]. by right.
  - destruct Hg as [[_ Hq]|[? _]]; [| congruence].
    right. simpl. rewrite Hq. eauto.
Qed.

Lemma preserves_bind {A B} I (c : M A) (k : A → M B) :
  preserves I c → (∀ a, preserves I (k a)) → preserves I (c ≫= k).
Proof.
  intros Hc Hk st r st' HI. rewrite bind_unfold.
  destruct (c st) as [[a|] st1] eqn:E.
  - apply Hk. eauto.
  - intros [= <- <-]. eauto.
Qed.

Lemma preserves_guard_of_keeps {A} (c : M A) : keeps lock_view c → preserves guard_ok c.
Proof. intros Hk st r st' HI E. apply (guard_ok_view st); eauto. Qed.

Lemma preserves_guard_spawn_sync w : preserves guard_ok (spawn (syncTabsToBookmarks w)).
Proof. intros st r st' HI [= <- <-]. by apply guard_ok_sync_tabs. Qed.

Lemma guard_ok_sync_bookmarks f st : guard_ok st → guard_ok (syncBookmarksToTabs f st).
Proof.
  intros Hg. unfold syncBookmarksToTabs.
  destruct (find_window _ f) as [w|]; [| done].
  destruct (isSyncing (ext st)) eqn:Hs.
  - destruct Hg as [[? _]|[_ Hq]]; [congruence |]. by right.
  - destruct Hg as [[_ Hq]|[? _]]; [| congruence].
    right. simpl. rewrite Hq. eauto.
Qed.

Lemma disassociate_keeps_lock w : keeps lock_view (disassociateWindow w).
Proof. unfold disassociateWindow. frame. Qed.

Lemma openFolder_keeps_lock f title : keeps lock_view (openFolderAsNewWindow f title).
Proof.
  unfold openFolderAsNewWindow.
  apply keeps_bind; [frame | intros bookmarks].
  apply keeps_decide; [frame |].
  apply keeps_bind; [frame | intros e].
  apply keeps_bind; [frame | intros newWindow].
  apply keeps_bind; [frame | intros initialTabs].
  apply keeps_bind; [frame | intros _].
  apply keeps_bind; [frame | intros _].
  apply keeps_bind; [frame | intros _].
  apply keeps_bind; [frame | intros _].
  apply keeps_bind; [| intros _; frame].
  destruct (_ <$> head initialTabs) as [[|n]|]; frame.
Qed.

Lemma guard_ok_exit mid :
  isSyncing (ext mid) = true → suspended mid = [] →
  guard_ok (match pendingSyncs (ext mid) with
            | [] => with_ext (set_isSyncing false) mid
            | next :: rest =>
                syncTabsToBookmarks next
                  (with_ext (set_pendingSyncs rest) (with_ext (set_isSyncing false) mid))
            end).
Proof.
  intros Hs Hq. destruct (pendingSyncs (ext mid)) as [|next rest].
  - by left.
  - apply guard_ok_sync_tabs. by left.
Qed.

Lemma await_sync_tabs_preserves_guard w : preserves guard_ok (await_syncTabsToBookmarks w).
Proof.
  intros st r st' Hg. unfold await_syncTabsToBookmarks.
  destruct (windowMappings (ext st) !! w) as [m|]; [| by intros [= <- <-]].
  destruct (isSyncing (ext st)) eqn:Hs.
  - intros [= <- <-]. destruct Hg as [[? _]|[_ Hq]]; [congruence |]. by right.
  - destruct Hg as [[_ Hq]|[? _]]; [| congruence].
    intros E. apply run_task_split in E as (mid & Hbody & ->).
    apply task_body_keeps_guard in Hbody. injection Hbody as E1 E2 E3 E4.
    apply guard_ok_exit; simpl in *; congruence.
Qed.

Lemma associate_preserves_guard w f title :
  preserves guard_ok (associateWindowWithFolder w f title).
Proof.
  unfold associateWindowWithFolder.
  apply preserves_bind; [apply preserves_guard_of_keeps; frame | intros _].
  apply preserves_bind; [apply preserves_guard_of_keeps; frame | intros _].
  apply preserves_bind; [apply preserves_guard_of_keeps; frame | intros _].
  apply await_sync_tabs_preserves_guard.
Qed.

Lemma guard_ok_turn st : guard_ok st → guard_ok (turn st).2.
Proof.
  intros Hg. unfold turn. destruct (suspended st) as [|t rest] eqn:Hq; [done |].
  destruct Hg as [[_ Hq']|[Hs [t' Hq']]]; [congruence |].
  assert (rest = []) as -> by congruence.
  destruct (run_task t (set_suspended [] st)) as [r st'] eqn:E.
  apply run_task_split in E as (mid & Hbody & ->).
  apply task_body_keeps_guard in Hbody. injection Hbody as E1 E2 E3 E4.
  apply guard_ok_exit; simpl in *; congruence.
Qed.

Lemma guard_ok_handle ev st : guard_ok st → guard_ok (handle ev st).
Proof.
  intros Hg. destruct ev as [w|w|f|w f title|w|f title|]; simpl.
  - destruct (_ !! w); [by apply guard_ok_sync_tabs | done].
  - destruct (_ !! w); [| done].
    destruct (disassociateWindow w st) as [r st'] eqn:E.
    by apply (preserves_guard_of_keeps _ (disassociate_keeps_lock w)) in E.
  - destruct (find_window _ f); [by apply guard_ok_sync_bookmarks | done].
  - destruct (associateWindowWithFolder w f title st) as [r st'] eqn:E.
    by apply associate_preserves_guard in E.
  - destruct (disassociateWindow w st) as [r st'] eqn:E.
    by apply (preserves_guard_of_keeps _ (disassociate_keeps_lock w)) in E.
  - destruct (openFolderAsNewWindow f title st) as [r st'] eqn:E.
    by apply (preserves_guard_of_keeps _ (openFolder_keeps_lock f title)) in E.
  - by apply guard_ok_turn.
Qed.

Lemma guard_ok_run_events evs st : guard_ok st → guard_ok (run_events evs st).
Proof.
  revert st. induction evs as [|ev evs IH]; intros st Hg; [done |].
  apply IH. by apply guard_ok_handle.
Qed.

(** *** The log of a pass *)

Lemma only_ok_nil : only_ok [].
Proof. constructor. Qed.

Lemma only_ok_app l1 l2 : only_ok l1 → only_ok l2 → only_ok (l1 ++ l2).
Proof. unfold only_ok. intros. by apply Forall_app. Qed.

Lemma stops_silent {A} (c : M A) : silent c → stops_at_failure c.
Proof.
  intros Hc st r st' E. destruct (Hc st) as (a & st1 & E1 & Henv).
  rewrite E1 in E. injection E as <- <-.
  exists []. split; [apply only_ok_nil |]. by rewrite Henv.
Qed.

Lemma stops_ret {A} (a : A) : stops_at_failure (mret a).
Proof. apply stops_silent. intros st. by exists a, st. Qed.

Lemma stops_bind {A B} (c : M A) (k : A → M B) :
  stops_at_failure c → (∀ a, stops_at_failure (k a)) → stops_at_failure (c ≫= k).
Proof.
  intros Hc Hk st r st'. rewrite bind_unfold.
  destruct (c st) as [[a|] st1] eqn:E.
  - intros Hka. destruct (Hc _ _ _ E) as (l1 & Hl1 & E1).
    destruct (Hk _ _ _ _ Hka) as (l2 & Hl2 & E2).
    exists (l2 ++ l1). split; [by apply only_ok_app |].
    destruct r as [b|].
    + by rewrite E2, E1, app_assoc.
    + destruct E2 as [c0 E2]. exists c0. by rewrite E2, E1, app_assoc.
  - intros [= <- <-]. apply (Hc _ _ _ E).
Qed.

Lemma stops_foldM {A B} (f : B → A → M B) l :
  (∀ acc x, stops_at_failure (f acc x)) → ∀ acc, stops_at_failure (foldM f acc l).
Proof.
  intros Hf. induction l as [|x l IH]; intros acc.
  - apply stops_ret.
  - rewrite foldM_cons. apply stops_bind; auto.
Qed.

Lemma stops_api {A} c (op : browser → option (A * browser)) :
  (∀ b a b', op b = Some (a, b') → br_log b' = br_log b) → stops_at_failure (api c op).
Proof.
  intros Hop st r st'. unfold api.
  destruct (br_fail _ _).
  - intros [= <- <-]. exists []. split; [apply only_ok_nil |]. by exists c.
  - destruct (op (env st)) as [[a b']|] eqn:E; intros [= <- <-].
    + exists [(c, true)]. split; [by repeat constructor |].
      simpl. by rewrite (Hop _ _ _ E).
    + exists []. split; [apply only_ok_nil |]. by exists c.
Qed.

Lemma stops_if {A} (b : bool) (c1 c2 : M A) :
  stops_at_failure c1 → stops_at_failure c2 → stops_at_failure (if b then c1 else c2).
Proof. by destruct b. Qed.

Lemma stops_decide {A} (P : Prop) `{Decision P} (c1 c2 : M A) :
  stops_at_failure c1 → stops_at_failure c2 →
  stops_at_failure (if decide P then c1 else c2).
Proof. by destruct (decide P). Qed.

Lemma stops_get_ext : stops_at_failure get_ext.
Proof. apply stops_silent. intros st. by exists (ext st), st. Qed.

Lemma stops_modify_ext f : stops_at_failure (modify_ext f).
Proof. apply stops_silent. intros st. by exists tt, (with_ext f st). Qed.

Create HintDb logs.
#[export] Hint Resolve stops_ret stops_get_ext stops_modify_ext : logs.
#[export] Hint Extern 2 (stops_at_failure (_ ≫= _)) => apply stops_bind; [| intros ?] : logs.
#[export] Hint Extern 2 (stops_at_failure (foldM _ _ _)) => apply stops_foldM; intros ? ? : logs.
#[export] Hint Extern 2 (stops_at_failure (forM _ _)) => apply stops_foldM; intros ? ? : logs.
#[export] Hint Extern 2 (stops_at_failure (if decide _ then _ else _)) =>
  apply stops_decide : logs.
#[export] Hint Extern 3 (stops_at_failure (if _ then _ else _)) => apply stops_if : logs.
#[export] Hint Extern 2 (stops_at_failure (match ?x with Some _ => _ | None => _ end)) =>
  destruct x : logs.
#[export] Hint Extern 2 (stops_at_failure skip) => apply stops_ret : logs.
#[export] Hint Extern 2 (stops_at_failure (api _ _)) =>
  apply stops_api; intros ? ? ? ?; simplify_option_eq; reflexivity : logs.

Ltac logs :=
  repeat first
    [ progress unfold bookmarks_getSubTree, bookmarks_create, bookmarks_update,
        bookmarks_move, bookmarks_remove, tabs_query, tabs_create, tabs_update,
        tabs_move, tabs_remove, windows_create, saveWindowMappings, savePinnedTabs,
        updateFolderLastUsed
    | solve [auto 20 with logs] ].

Lemma t2b_tab_stops m byUrl acc t : stops_at_failure (t2b_tab m byUrl acc t).
Proof. unfold t2b_tab. logs. Qed.

Lemma b2t_bookmark_stops w p byUrl seen b : stops_at_failure (b2t_bookmark w p byUrl seen b).
Proof. unfold b2t_bookmark. logs. Qed.

Lemma task_body_stops t : stops_at_failure (task_body t).
Proof.
  pose proof t2b_tab_stops. pose proof b2t_bookmark_stops.
  destruct t as [w m | f w]; simpl.
  - unfold t2b_body, t2b_cleanup. logs.
  - unfold b2t_body, b2t_cleanup. logs.
Qed.

Lemma sync_tabs_env w st : env (syncTabsToBookmarks w st) = env st.
Proof.
  unfold syncTabsToBookmarks.
  destruct (_ !! w); [| done]. by destruct (isSyncing _).
Qed.

(* ===================================================================== *)
(** ** The guard and the association: C5, C6, C7, C8 *)
(* ===================================================================== *)

(** C5. The guard admits at most one pass at a time.  In every state the
    listeners and the event loop can reach, at most one admitted pass is in
    flight and the flag is set exactly then; a request made while the flag is
    set, from the tab side or from the bookmark side, only adds its window to
    the pending set (no browser call, nothing queued), and asking again for
    the same window changes nothing more. *)
Theorem guard_serializes_passes
    (st : state) (evs : list event) (w : nat) (m : mapping) (f : nat) :
  guard_ok st →
  let now := run_events evs st in
  guard_ok now ∧
  (isSyncing (ext now) = true →
     (windowMappings (ext now) !! w = Some m →
        syncTabsToBookmarks w now = deferred w now) ∧
     (find_window (windowMappings (ext now)) f = Some w →
        syncBookmarksToTabs f now = deferred w now) ∧
     env (deferred w now) = env now ∧
     suspended (deferred w now) = suspended now ∧
     w ∈ pendingSyncs (ext (deferred w now)) ∧
     deferred w (deferred w now) = deferred w now).
Proof.
  intros Hg now. split; [by apply guard_ok_run_events |].
  intros Hs. repeat split.
  - intros Hm. by apply (sync_tabs_deferred w m).
  - intros Hm. by apply sync_bookmarks_deferred.
  - simpl. unfold set_add. destruct (decide (w ∈ _)) as [Hin|Hn]; [done |].
    apply elem_of_app. right. by apply list_elem_of_singleton.
  - unfold deferred, with_ext. simpl. by rewrite set_add_idem.
Qed.

Lemma guard_serializes_passes_witness :
  let now := run_events [TabNotification 1; BookmarkNotification 10; TabNotification 1]
               (Demo.start [] [Demo.page 11 Demo.A]) in
  guard_ok now ∧ syncTabsToBookmarks 1 now = deferred 1 now ∧ suspended now
    = [TabsToBookmarks 1 (Mapping 10 "Group")].
Proof.
  assert (Hg : guard_ok (Demo.start [] [Demo.page 11 Demo.A]))
    by (left; split; reflexivity).
  destruct (guard_serializes_passes _
              [TabNotification 1; BookmarkNotification 10; TabNotification 1]
              1 (Mapping 10 "Group") 10 Hg) as [H1 H2].
  split; [exact H1 |]. split; [| reflexivity].
  apply H2; reflexivity.
Defined.

(** C6. A pass that throws still runs its exit code.  The flag is released:
    after the pass it is set only if the exit code handed the guard to one
    pending window, whose pass is then queued.  With nothing pending the flag
    is clear and the next request of either kind is admitted.  The rejected
    call is the last call of the pass: nothing is retried. *)
Theorem failed_pass_releases_guard (t : task) (st st' : state) :
  run_task t st = (Throw, st') →
  (isSyncing (ext st') = false ∨
   ∃ next m, next ∈ pendingSyncs (ext st) ∧
             suspended st' = suspended st ++ [TabsToBookmarks next m]) ∧
  (pendingSyncs (ext st) = [] →
     isSyncing (ext st') = false ∧
     (∀ w m, windowMappings (ext st') !! w = Some m →
        syncTabsToBookmarks w st' = admitted (TabsToBookmarks w m) st') ∧
     (∀ f w, find_window (windowMappings (ext st')) f = Some w →
        syncBookmarksToTabs f st' = admitted (BookmarksToTabs f w) st')) ∧
  (∃ c calls, br_log (env st') = (c, false) :: calls ++ br_log (env st) ∧ only_ok calls).
Proof.
  intros E. apply run_task_split in E as (mid & Hbody & ->).
  pose proof (task_body_keeps_guard _ _ _ _ Hbody) as Hv.
  injection Hv as E1 E2 E3 E4.
  destruct (task_body_stops _ _ _ _ Hbody) as (calls & Hok & c & Hlog).
  split; [| split].
  - rewrite E2. destruct (pendingSyncs (ext st)) as [|next rest]; [by left |].
    unfold syncTabsToBookmarks. simpl.
    destruct (windowMappings (ext mid) !! next) as [m|]; [| by left].
    right. exists next, m. split; [apply list_elem_of_here |]. simpl. by rewrite E3.
  - intros Hp. rewrite E2, Hp. split; [done |]. split.
    + intros w m Hm. by apply sync_tabs_admitted.
    + intros f w Hm. by apply sync_bookmarks_admitted.
  - exists c, calls. split; [| done].
    destruct (pendingSyncs (ext mid)); [done |]. by rewrite sync_tabs_env.
Qed.

Lemma failed_pass_releases_guard_witness :
  let st := Demo.failing 2 (Demo.start [] [Demo.page 11 Demo.A]) in
  ∃ st', run_task (TabsToBookmarks 1 (Mapping 10 "Group")) st = (Throw, st') ∧
         isSyncing (ext st') = false ∧
         ∃ c calls, br_log (env st') = (c, false) :: calls ++ br_log (env st) ∧ only_ok calls.
Proof.
  intros st.
  destruct (run_task (TabsToBookmarks 1 (Mapping 10 "Group")) st) as [r st'] eqn:E.
  assert (r = Throw) as -> by (vm_compute in E; congruence).
  exists st'. split; [reflexivity |].
  destruct (failed_pass_releases_guard _ _ _ E) as (_ & H2 & H3).
  split; [| exact H3]. apply H2. reflexivity.
Defined.

(** C7. The exit code of a pass of either direction, returned or thrown,
    takes exactly one window off a non-empty pending set and calls
    [syncTabsToBookmarks] for it: the pass that gets queued is a tab to
    bookmark pass whoever asked for it, and it is queued only if that window
    is still mapped. *)
Theorem exit_redispatches_one_pending_to_tab_sync
    (t : task) (st st' : state) (r : outcome unit) (next : nat) (rest : list nat) :
  run_task t st = (r, st') →
  pendingSyncs (ext st) = next :: rest →
  (∃ mid, task_body t st = (r, mid) ∧
     st' = syncTabsToBookmarks next
             (with_ext (set_pendingSyncs rest) (with_ext (set_isSyncing false) mid))) ∧
  pendingSyncs (ext st') = rest ∧
  suspended st' = suspended st ++
    match windowMappings (ext st) !! next with
    | Some m => [TabsToBookmarks next m]
    | None => []
    end.
Proof.
  intros E Hp. apply run_task_split in E as (mid & Hbody & ->).
  pose proof (task_body_keeps_guard _ _ _ _ Hbody) as Hv.
  injection Hv as E1 E2 E3 E4.
  rewrite E2, Hp. split; [eauto |].
  unfold syncTabsToBookmarks. simpl. rewrite E4.
  destruct (windowMappings (ext st) !! next) as [m|]; simpl.
  - by rewrite E3.
  - by rewrite E3, app_nil_r.
Qed.

Lemma exit_redispatches_one_pending_to_tab_sync_witness :
  let st := with_ext (set_pendingSyncs [1; 7]) (Demo.start [] [Demo.page 11 Demo.A]) in
  ∃ st', (run_task (BookmarksToTabs 10 1) st).2 = st' ∧
         pendingSyncs (ext st') = [7] ∧
         suspended st' = [TabsToBookmarks 1 (Mapping 10 "Group")].
Proof.
  intros st.
  destruct (run_task (BookmarksToTabs 10 1) st) as [r st'] eqn:E.
  exists st'. split; [reflexivity |].
  destruct (exit_redispatches_one_pending_to_tab_sync _ _ _ _ 1 [7] E eq_refl)
    as (_ & H2 & H3).
  split; [exact H2 | exact H3].
Defined.

(** C8. [disassociateWindow] deletes the mapping of that window and nothing
    else of the script's view: the other mappings, every folder's children
    (count, content, order), the tabs, and the pinned sets in memory and in
    storage are as before. *)
Theorem disassociate_removes_only_the_mapping (w : nat) (st : state) :
  let st' := (disassociateWindow w st).2 in
  windowMappings (ext st') = delete w (windowMappings (ext st)) ∧
  (∀ w', w' ≠ w → windowMappings (ext st') !! w' = windowMappings (ext st) !! w') ∧
  br_bookmarks (env st') = br_bookmarks (env st) ∧
  br_tabs (env st') = br_tabs (env st) ∧
  pinned_view st' = pinned_view st ∧
  lock_view st' = lock_view st.
Proof.
  unfold disassociateWindow, saveWindowMappings, modify_ext, get_ext, api,
    mbind, M_bind. simpl.
  destruct (br_fail (env st) (br_clock (env st))); simpl;
    (repeat split; [intros w' Hne; by apply lookup_delete_ne]).
Qed.

(* ===================================================================== *)
(** ** Browser calls that returned *)
(* ===================================================================== *)

Ltac api_inv H :=
  apply api_Ok in H as (? & H & ->); simpl in H; simplify_option_eq.

Lemma snapshot_items {A} (l : list A) : item <$> snapshot l = l.
Proof.
  unfold snapshot. rewrite fmap_imap.
  rewrite imap_ext with (g := const id); [| done].
  by rewrite imap_const, list_fmap_id.
Qed.

Lemma bookmarks_getSubTree_Ok f st r st' :
  bookmarks_getSubTree f st = (Ok r, st') →
  ∃ kids, br_bookmarks (env st) !! f = Some kids ∧ r = snapshot kids ∧
    st' = with_env (logged (BookmarksGetSubTree f) true) st.
Proof.
  unfold bookmarks_getSubTree. intros H. api_inv H.
  eexists. split; [done |]. split; [done |]. by destruct st.
Qed.

Lemma tabs_query_Ok w st r st' :
  tabs_query w st = (Ok r, st') →
  r = snapshot (default [] (br_tabs (env st) !! w)) ∧
  st' = with_env (logged (TabsQuery w) true) st.
Proof. unfold tabs_query. intros H. api_inv H. split; [done |]. by destruct st. Qed.

Lemma bookmarks_create_Ok f title url idx st nb st' :
  bookmarks_create f title url idx st = (Ok nb, st') →
  ∃ kids, br_bookmarks (env st) !! f = Some kids ∧
    nb = Bookmark (br_next (env st)) (Some url) title ∧
    br_bookmarks (env st') = <[f := insert_at idx nb kids]> (br_bookmarks (env st)) ∧
    br_next (env st') = S (br_next (env st)) ∧
    br_tabs (env st') = br_tabs (env st) ∧ script_view st' = script_view st.
Proof. unfold bookmarks_create. intros H. api_inv H. eauto 10. Qed.

Lemma bookmarks_update_Ok id title st r st' :
  bookmarks_update id title st = (Ok r, st') →
  br_bookmarks (env st') = alter_id (retitle title) id <$> br_bookmarks (env st) ∧
  br_next (env st') = br_next (env st) ∧
  br_tabs (env st') = br_tabs (env st) ∧ script_view st' = script_view st.
Proof. unfold bookmarks_update. intros H. api_inv H. eauto 10. Qed.

Lemma bookmarks_move_Ok id idx st r st' :
  bookmarks_move id idx st = (Ok r, st') →
  br_bookmarks (env st') = move_id id idx <$> br_bookmarks (env st) ∧
  br_next (env st') = br_next (env st) ∧
  br_tabs (env st') = br_tabs (env st) ∧ script_view st' = script_view st.
Proof. unfold bookmarks_move. intros H. api_inv H. eauto 10. Qed.

Lemma bookmarks_remove_Ok id st r st' :
  bookmarks_remove id st = (Ok r, st') →
  br_bookmarks (env st') = remove_id id <$> br_bookmarks (env st) ∧
  br_next (env st') = br_next (env st) ∧
  br_tabs (env st') = br_tabs (env st) ∧ script_view st' = script_view st.
Proof. unfold bookmarks_remove. intros H. api_inv H. eauto 10. Qed.

(* ===================================================================== *)
(** ** The tab to bookmark pass, seen from the synced folder *)
(* ===================================================================== *)

Lemma t2b_tab_Ok m byUrl acc t st acc' st' kids :
  t2b_tab m byUrl acc t st = (Ok acc', st') →
  br_bookmarks (env st) !! folderId m = Some kids →
  ∃ kids',
    t2b_tab_effect byUrl (acc, kids, br_next (env st)) (item t)
      = (acc', kids', br_next (env st')) ∧
    br_bookmarks (env st') !! folderId m = Some kids' ∧
    br_tabs (env st') = br_tabs (env st).
Proof.
  unfold t2b_tab, t2b_tab_effect. intros H Hk.
  destruct (skipped (item t)).
  { apply ret_Ok in H as [-> ->]. eauto. }
  destruct (byUrl !! tab_url (item t)) as [e|].
  - apply bind_Ok in H as ([] & st1 & H1 & H).
    apply bind_Ok in H as ([] & st2 & H2 & H).
    apply ret_Ok in H as [-> ->].
    assert (br_bookmarks (env st1) !! folderId m =
              Some (if decide (bm_title (item e) = tab_title (item t)) then kids
                    else alter_id (retitle (tab_title (item t))) (bm_id (item e)) kids)
            ∧ br_next (env st1) = br_next (env st)
            ∧ br_tabs (env st1) = br_tabs (env st)) as (Hk1 & Hn1 & Ht1).
    { destruct (decide _).
      - apply skip_Ok in H1 as [_ ->]. done.
      - apply bookmarks_update_Ok in H1 as (-> & -> & -> & _).
        by rewrite lookup_fmap, Hk. }
    destruct (decide (index e = bookmarkIndex acc)).
    + apply skip_Ok in H2 as [_ ->]. rewrite Hn1, Ht1. eauto.
    + apply bookmarks_move_Ok in H2 as (-> & -> & -> & _).
      rewrite lookup_fmap, Hk1, Hn1, Ht1. eauto.
  - apply bind_Ok in H as (nb & st1 & H1 & H).
    apply ret_Ok in H as [-> ->].
    apply bookmarks_create_Ok in H1 as (kids0 & Hk0 & -> & -> & -> & -> & _).
    rewrite Hk in Hk0. injection Hk0 as <-.
    rewrite lookup_insert_eq. eauto.
Qed.

Lemma t2b_tab_keeps_script m byUrl acc t : keeps script_view (t2b_tab m byUrl acc t).
Proof. unfold t2b_tab. frame. Qed.

Lemma t2b_loop_Ok m byUrl tabs : ∀ acc st acc' st' kids,
  foldM (t2b_tab m byUrl) acc tabs st = (Ok acc', st') →
  br_bookmarks (env st) !! folderId m = Some kids →
  ∃ kids',
    foldl (t2b_tab_effect byUrl) (acc, kids, br_next (env st)) (item <$> tabs)
      = (acc', kids', br_next (env st')) ∧
    br_bookmarks (env st') !! folderId m = Some kids' ∧
    br_tabs (env st') = br_tabs (env st).
Proof.
  induction tabs as [|t tabs IH]; intros acc st acc' st' kids H Hk.
  - apply ret_Ok in H as [-> ->]. eauto.
  - rewrite foldM_cons in H. apply bind_Ok in H as (acc1 & st1 & H1 & H).
    destruct (t2b_tab_Ok _ _ _ _ _ _ _ _ H1 Hk) as (kids1 & E1 & Hk1 & Ht1).
    destruct (IH _ _ _ _ _ H Hk1) as (kids' & E & Hk' & Ht').
    exists kids'. rewrite fmap_cons. cbn [foldl]. rewrite E1, Ht', Ht1. done.
Qed.

Lemma t2b_cleanup_Ok f seen existing : ∀ st r st' kids,
  t2b_cleanup seen existing st = (Ok r, st') →
  br_bookmarks (env st) !! f = Some kids →
  br_bookmarks (env st') !! f = Some (t2b_cleanup_effect seen (item <$> existing) kids) ∧
  br_tabs (env st') = br_tabs (env st) ∧ script_view st' = script_view st.
Proof.
  unfold t2b_cleanup, forM, t2b_cleanup_effect.
  induction existing as [|b existing IH]; intros st r st' kids H Hk.
  - apply ret_Ok in H as [-> ->]. done.
  - rewrite foldM_cons in H. apply bind_Ok in H as ([] & st1 & H1 & H). simpl.
    destruct (set_has (bm_id (item b)) seen).
    + apply skip_Ok in H1 as [_ ->]. eauto.
    + apply bookmarks_remove_Ok in H1 as (Hb & _ & Ht & Hs).
      destruct (IH st1 r st' (remove_id (bm_id (item b)) kids) H) as (-> & -> & ->).
      { by rewrite Hb, lookup_fmap, Hk. }
      done.
Qed.

Lemma savePinnedTabs_Ok st r st' :
  savePinnedTabs st = (Ok r, st') →
  stored_pinned (br_storage (env st')) = Some (pinnedTabsByFolder (ext st)) ∧
  br_bookmarks (env st') = br_bookmarks (env st) ∧
  br_tabs (env st') = br_tabs (env st) ∧ script_view st' = script_view st.
Proof.
  unfold savePinnedTabs. intros H. apply bind_Ok in H as (e & st1 & [= <- <-] & H).
  api_inv H. done.
Qed.

(** A completed tab to bookmark pass computes [t2b_effect]. *)
Lemma t2b_body_Ok w m st r st' :
  t2b_body w m st = (Ok r, st') →
  ∃ kids,
    br_bookmarks (env st) !! folderId m = Some kids ∧
    let tabs := default [] (br_tabs (env st) !! w) in
    let '(kids', pinned) := t2b_effect kids (br_next (env st)) tabs in
    br_bookmarks (env st') !! folderId m = Some kids' ∧
    pinnedTabsByFolder (ext st') = <[folderId m := pinned]> (pinnedTabsByFolder (ext st)) ∧
    stored_pinned (br_storage (env st')) = Some (pinnedTabsByFolder (ext st')) ∧
    br_tabs (env st') = br_tabs (env st).
Proof.
  unfold t2b_body. intros H.
  apply bind_Ok in H as (tabs & st1 & H1 & H).
  apply tabs_query_Ok in H1 as [-> ->].
  apply bind_Ok in H as (existing & st2 & H2 & H).
  apply bookmarks_getSubTree_Ok in H2 as (kids & Hk & -> & ->).
  apply bind_Ok in H as (acc & st3 & H3 & H).
  pose proof (keeps_foldM script_view _ _ (t2b_tab_keeps_script _ _) _ _ _ _ H3) as Hs3.
  apply (t2b_loop_Ok _ _ _ _ _ _ _ kids) in H3 as (kids3 & E3 & Hk3 & Ht3); [| done].
  apply bind_Ok in H as ([] & st4 & H4 & H).
  apply (t2b_cleanup_Ok (folderId m) _ _ _ _ _ kids3) in H4 as (Hk4 & Ht4 & Hs4); [| done].
  apply bind_Ok in H as ([] & st5 & [= <-] & H).
  apply savePinnedTabs_Ok in H as (Hp & Hb & Ht & Hs).
  exists kids. split; [done |]. simpl.
  unfold t2b_effect. rewrite snapshot_items in E3. simpl in E3. rewrite E3.
  rewrite snapshot_items in Hk4.
  injection Hs as Hs1 _. injection Hs4 as Hs4 _. injection Hs3 as Hs3 _.
  simpl in *. rewrite Hb, Hp, Hs1, Ht. simpl. rewrite Hs4, Hs3, Hk4, Ht4, Ht3. done.
Qed.

(* ===================================================================== *)
(** ** Ordered collections addressed by identifier: lemmas *)
(* ===================================================================== *)

Section by_id_lemmas.
Context {A : Type} `{HasId A}.
Implicit Types (l : list A) (x y : A) (id i : nat).

Lemma elem_of_remove_id x id l : x ∈ remove_id id l ↔ x ∈ l ∧ get_id x ≠ id.
Proof. unfold remove_id. rewrite list_elem_of_filter. tauto. Qed.

Lemma remove_id_cons id y l :
  remove_id id (y :: l) =
  if decide (get_id y = id) then remove_id id l else y :: remove_id id l.
Proof.
  unfold remove_id. rewrite filter_cons.
  destruct (decide (get_id y = id)), (decide (get_id y ≠ id)); done.
Qed.

Lemma remove_id_notin id l : id ∉ ids l → remove_id id l = l.
Proof.
  induction l as [|y l IH]; [done |]. unfold ids. rewrite fmap_cons, not_elem_of_cons.
  intros [Hne Hn]. rewrite remove_id_cons.
  destruct (decide (get_id y = id)); [congruence |]. f_equal. by apply IH.
Qed.

Lemma remove_id_sublist id l : remove_id id l `sublist_of` l.
Proof. apply sublist_filter. Qed.

Lemma find_id_cons id y l :
  find_id id (y :: l) = if decide (get_id y = id) then Some y else find_id id l.
Proof.
  unfold find_id. simpl. destruct (decide (get_id y = id)); [done |].
  destruct (list_find _ l) as [[j z]|]; done.
Qed.

Lemma find_id_Some id l x : find_id id l = Some x → x ∈ l ∧ get_id x = id.
Proof.
  induction l as [|y l IH]; [done |]. rewrite find_id_cons.
  destruct (decide (get_id y = id)).
  - intros [= <-]. split; [apply list_elem_of_here | done].
  - intros Hf. destruct (IH Hf). split; [by apply list_elem_of_further | done].
Qed.

Lemma find_id_None id l : find_id id l = None → id ∉ ids l.
Proof.
  induction l as [|y l IH]; [intros _; apply not_elem_of_nil |]. rewrite find_id_cons.
  destruct (decide (get_id y = id)); [done |].
  intros Hf. unfold ids. rewrite fmap_cons, not_elem_of_cons. split; [done |].
  by apply IH.
Qed.

Lemma insert_at_perm i x l : insert_at i x l ≡ₚ x :: l.
Proof.
  unfold insert_at. rewrite <- Permutation_middle. by rewrite take_drop.
Qed.

Lemma ids_insert_at i x l : ids (insert_at i x l) ≡ₚ get_id x :: ids l.
Proof. unfold ids. by rewrite insert_at_perm. Qed.

Lemma move_id_perm id i l : NoDup (ids l) → move_id id i l ≡ₚ l.
Proof.
  unfold move_id. induction l as [|y l IH]; [done |].
  unfold ids. rewrite fmap_cons, NoDup_cons. intros [Hy Hnd].
  rewrite find_id_cons, remove_id_cons. destruct (decide (get_id y = id)) as [<-|Hne].
  - rewrite remove_id_notin by done. apply insert_at_perm.
  - specialize (IH Hnd). destruct (find_id id l) as [x|]; [| done].
    rewrite insert_at_perm. rewrite insert_at_perm in IH.
    transitivity (y :: x :: remove_id id l); [apply perm_swap | by apply perm_skip].
Qed.

Lemma ids_alter_id (f : A → A) id l :
  (∀ x, get_id (f x) = get_id x) → ids (alter_id f id l) = ids l.
Proof.
  intros Hf. unfold ids, alter_id. rewrite <- list_fmap_compose.
  apply list_fmap_ext. intros j x _. simpl. by destruct (decide _).
Qed.

Lemma elem_of_alter_id (f : A → A) id l y :
  y ∈ alter_id f id l ↔
  ∃ x, x ∈ l ∧ y = if decide (get_id x = id) then f x else x.
Proof. unfold alter_id. rewrite list_elem_of_fmap. naive_solver. Qed.

(** Two items of a collection with distinct identifiers are the same item
    when their identifiers agree. *)
Lemma same_id_same_item l x y :
  NoDup (ids l) → x ∈ l → y ∈ l → get_id x = get_id y → x = y.
Proof.
  induction l as [|z l IH]; [by intros _ ?%not_elem_of_nil |].
  unfold ids. rewrite fmap_cons, NoDup_cons. intros [Hz Hnd].
  rewrite !elem_of_cons. intros [->|Hx] [->|Hy] E; auto.
  - exfalso. apply Hz. rewrite E. by apply list_elem_of_fmap_2.
  - exfalso. apply Hz. rewrite <- E. by apply list_elem_of_fmap_2.
Qed.

Lemma NoDup_ids_NoDup l : NoDup (ids l) → NoDup l.
Proof. apply NoDup_fmap_1. Qed.
End by_id_lemmas.

(** *** The url lookup of the tab to bookmark pass *)

Lemma has_url_Some b u : has_url b = Some u → bm_url b = Some u ∧ truthy u = true.
Proof.
  unfold has_url. destruct (bm_url b) as [v|]; [| done].
  destruct (truthy v) eqn:E; [| done]. by intros [= <-].
Qed.

Lemma bookmarksByUrl_fold (Q : string → indexed bookmark → Prop) l :
  ∀ m0 : gmap string (indexed bookmark),
  (∀ u e, m0 !! u = Some e → Q u e) →
  (∀ x u, x ∈ l → has_url (item x) = Some u → Q u x) →
  ∀ u e,
    foldl (λ m bookmark,
             match has_url (item bookmark) with
             | Some u => <[u := bookmark]> m
             | None => m
             end) m0 l !! u = Some e → Q u e.
Proof.
  induction l as [|x l IH]; intros m0 H0 Hl u e; simpl; [by apply H0 |].
  apply IH.
  - intros u' e'. destruct (has_url (item x)) as [v|] eqn:Hv; [| by apply H0].
    destruct (decide (v = u')) as [->|Hne].
    + rewrite lookup_insert_eq. intros [= <-]. apply Hl; [apply list_elem_of_here | done].
    + rewrite lookup_insert_ne by done. apply H0.
  - intros x' u' Hx'. apply Hl. by apply list_elem_of_further.
Qed.

Lemma bookmarksByUrl_fold_None l : ∀ (m0 : gmap string (indexed bookmark)) u,
  foldl (λ m bookmark,
           match has_url (item bookmark) with
           | Some u => <[u := bookmark]> m
           | None => m
           end) m0 l !! u = None →
  m0 !! u = None ∧ ∀ x, x ∈ l → has_url (item x) ≠ Some u.
Proof.
  induction l as [|x l IH]; intros m0 u; simpl.
  - intros Hn. split; [done |]. by intros x ?%not_elem_of_nil.
  - intros Hn. apply IH in Hn as [Hn Hl].
    destruct (has_url (item x)) as [v|] eqn:Hv.
    + destruct (decide (v = u)) as [->|Hne]; [by rewrite lookup_insert_eq in Hn |].
      rewrite lookup_insert_ne in Hn by done. split; [done |].
      intros x' [->|Hx']%elem_of_cons; [congruence | by apply Hl].
    + split; [done |]. intros x' [->|Hx']%elem_of_cons; [congruence | by apply Hl].
Qed.

Lemma elem_of_snapshot {A} (l : list A) (e : indexed A) :
  e ∈ snapshot l ↔ l !! index e = Some (item e).
Proof.
  unfold snapshot. rewrite elem_of_lookup_imap. split.
  - intros (i & y & -> & Hy). done.
  - intros Hl. exists (index e), (item e). by destruct e.
Qed.

Lemma bookmarksByUrl_Some kids u e :
  bookmarksByUrl (snapshot kids) !! u = Some e →
  kids !! index e = Some (item e) ∧ has_url (item e) = Some u.
Proof.
  unfold bookmarksByUrl.
  apply (bookmarksByUrl_fold
           (λ u e, kids !! index e = Some (item e) ∧ has_url (item e) = Some u)).
  - intros u' e'. by rewrite lookup_empty.
  - intros x u' Hx Hu. by apply elem_of_snapshot in Hx.
Qed.

Lemma bookmarksByUrl_None kids u b :
  bookmarksByUrl (snapshot kids) !! u = None → b ∈ kids → has_url b ≠ Some u.
Proof.
  unfold bookmarksByUrl. intros Hn Hb. apply bookmarksByUrl_fold_None in Hn as [_ Hl].
  apply list_elem_of_lookup in Hb as [i Hi].
  apply (Hl (Indexed i b)). by apply elem_of_snapshot.
Qed.

(* ===================================================================== *)
(** ** The invariant of the tab loop *)
(* ===================================================================== *)

Lemma elem_of_set_add `{EqDecision A} (x y : A) (s : list A) :
  y ∈ set_add x s ↔ y = x ∨ y ∈ s.
Proof.
  unfold set_add. destruct (decide (x ∈ s)) as [Hin|Hn].
  - naive_solver.
  - rewrite elem_of_app, list_elem_of_singleton. tauto.
Qed.

Lemma t2b_inv_perm kids0 done acc cur cur' next :
  cur ≡ₚ cur' → t2b_inv kids0 done acc cur next → t2b_inv kids0 done acc cur' next.
Proof.
  intros Hp [I1 I2 I3 I4 I5 I6 I7 I8]. split.
  - unfold ids. by rewrite <- Hp.
  - intros b. rewrite <- Hp. apply I2.
  - intros b Hb. destruct (I3 b Hb) as (b' & ? & ?). exists b'. by rewrite <- Hp.
  - intros b. rewrite <- Hp. apply I4.
  - intros b. rewrite <- Hp. apply I5.
  - intros t Ht. destruct (I6 t Ht) as (b & ? & ?). exists b. by rewrite <- Hp.
  - intros b b'. rewrite <- !Hp. apply I7.
  - done.
Qed.

Lemma t2b_inv_pinned_step done (t : tab) (pinned : list string) :
  (∀ u, u ∈ pinned ↔ ∃ t, t ∈ done ∧ tab_pinned t = true ∧ tab_url t = u) →
  ∀ u, u ∈ (if tab_pinned t then set_add (tab_url t) pinned else pinned) ↔
       ∃ t', t' ∈ done ++ [t] ∧ tab_pinned t' = true ∧ tab_url t' = u.
Proof.
  intros Hp u. setoid_rewrite elem_of_app. setoid_rewrite list_elem_of_singleton.
  destruct (tab_pinned t) eqn:E.
  - rewrite elem_of_set_add, Hp. split.
    + intros [->|(t' & ? & ? & ?)]; [exists t; auto | exists t'; auto].
    + intros (t' & [?| ->] & ? & ?); [right; exists t'; auto | by left].
  - rewrite Hp. split.
    + intros (t' & ? & ? & ?). exists t'; auto.
    + intros (t' & [?| ->] & ? & ?); [exists t'; auto | congruence].
Qed.

Lemma alter_id_fixed {A} `{HasId A} (f : A → A) (x0 : A) (l : list A) :
  NoDup (ids l) → x0 ∈ l → f x0 = x0 → alter_id f (get_id x0) l = l.
Proof.
  intros Hnd Hin Hf. unfold alter_id. rewrite <- (list_fmap_id l) at 2.
  apply list_fmap_ext. intros i x Hx. simpl.
  destruct (decide (get_id x = get_id x0)) as [E|]; [| done].
  assert (x = x0) as ->; [| done].
  apply (same_id_same_item l); auto. by apply list_elem_of_lookup_2 in Hx.
Qed.

Lemma t2b_inv_retitle kids0 done acc cur next (t : tab) (b0 : bookmark) :
  NoDup (ids kids0) →
  t2b_inv kids0 done acc cur next →
  tab_url t ∉ (tab_url <$> done) →
  b0 ∈ kids0 → bm_url b0 = Some (tab_url t) →
  b0 ∈ cur ∧ (bm_id b0 ∉ seenBookmarkIds acc) ∧
  t2b_inv kids0 (done ++ [t])
    (T2bLocals (set_add (bm_id b0) (seenBookmarkIds acc))
       (if tab_pinned t then set_add (tab_url t) (pinnedUrls acc) else pinnedUrls acc)
       (S (bookmarkIndex acc)))
    (alter_id (retitle (tab_title t)) (bm_id b0) cur) next.
Proof.
  intros Hnd0 [I1 I2 I3 I4 I5 I6 I7 I8] Hnew He0 Hurl.
  destruct (I3 b0 He0) as (b' & Hb' & Hid' & Hurl').
  assert (Hunseen : bm_id b0 ∉ seenBookmarkIds acc).
  { intros Hs. rewrite <- Hid' in Hs. destruct (I5 b' Hb' Hs) as (t' & Ht' & Hu' & _).
    apply Hnew. rewrite Hurl', Hurl in Hu'. injection Hu' as ->.
    by apply list_elem_of_fmap_2. }
  assert (b' = b0) as ->.
  { apply (same_id_same_item kids0); auto. apply I4; [done | by rewrite Hid']. }
  split; [done |]. split; [done |].
  assert (Hsame : ∀ x, x ∈ cur → bm_id x = bm_id b0 → x = b0).
  { intros x Hx E. by apply (same_id_same_item cur). }
  split; simpl.
  - by rewrite ids_alter_id.
  - intros y (x & Hx & ->)%elem_of_alter_id.
    destruct (decide _); [apply (I2 x Hx) | by apply I2].
  - intros b Hb. destruct (I3 b Hb) as (x & Hx & Hxi & Hxu).
    exists (if decide (get_id x = bm_id b0) then retitle (tab_title t) x else x).
    split; [apply elem_of_alter_id; eauto |]. by destruct (decide _).
  - intros y (x & Hx & ->)%elem_of_alter_id Hns.
    rewrite elem_of_set_add in Hns.
    destruct (decide (get_id x = bm_id b0)) as [E|Hne].
    + exfalso. apply Hns. by left.
    + apply I4; [done |]. intros ?. apply Hns. by right.
  - intros y (x & Hx & ->)%elem_of_alter_id Hs.
    rewrite elem_of_set_add in Hs.
    destruct (decide (get_id x = bm_id b0)) as [E|Hne].
    + exists t. rewrite (Hsame x Hx E). split; [| done].
      apply elem_of_app. right. apply list_elem_of_here.
    + destruct Hs as [?|Hs]; [done |].
      destruct (I5 x Hx Hs) as (t' & Ht' & ?). exists t'. split; [| done].
      apply elem_of_app. by left.
  - intros t' [Ht'|Ht']%elem_of_app.
    + destruct (I6 t' Ht') as (b & Hb & Hbs & Hbu). exists b.
      split; [| split; [apply elem_of_set_add; by right | done]].
      apply elem_of_alter_id. exists b. split; [done |].
      destruct (decide (get_id b = bm_id b0)) as [E|]; [| done].
      exfalso. apply Hunseen. by rewrite <- E.
    + apply list_elem_of_singleton in Ht' as ->. exists (retitle (tab_title t) b0).
      split; [| split; [apply elem_of_set_add; by left | done]].
      apply elem_of_alter_id. exists b0. split; [done |]. by rewrite decide_True.
  - intros y y' (x & Hx & ->)%elem_of_alter_id (x' & Hx' & ->)%elem_of_alter_id.
    rewrite !elem_of_set_add.
    assert (Hclash : ∀ z, z ∈ cur → bm_id z ∈ seenBookmarkIds acc →
                          bm_url z ≠ Some (tab_url t)).
    { intros z Hz Hzs Hzu. destruct (I5 z Hz Hzs) as (t' & Ht' & Hu' & _).
      apply Hnew. rewrite Hzu in Hu'. injection Hu' as ->. by apply list_elem_of_fmap_2. }
    destruct (decide (get_id x = bm_id b0)) as [E|Hne],
             (decide (get_id x' = bm_id b0)) as [E'|Hne'].
    + intros _ _ _. by rewrite (Hsame x Hx E), (Hsame x' Hx' E').
    + intros _ [?|Hs'] Hu; [done |]. exfalso.
      rewrite (Hsame x Hx E) in Hu. simpl in Hu. rewrite Hurl in Hu.
      by apply (Hclash x' Hx' Hs').
    + intros [?|Hs] _ Hu; [done |]. exfalso.
      rewrite (Hsame x' Hx' E') in Hu. simpl in Hu. rewrite Hurl in Hu.
      by apply (Hclash x Hx Hs).
    + intros [?|Hs] [?|Hs'] Hu; [done.. |]. by apply I7.
  - by apply t2b_inv_pinned_step.
Qed.

Lemma t2b_inv_create kids0 done acc cur next (t : tab) :
  t2b_inv kids0 done acc cur next →
  tab_url t ∉ (tab_url <$> done) →
  let nb := Bookmark next (Some (tab_url t)) (tab_title t) in
  t2b_inv kids0 (done ++ [t])
    (T2bLocals (set_add next (seenBookmarkIds acc))
       (if tab_pinned t then set_add (tab_url t) (pinnedUrls acc) else pinnedUrls acc)
       (S (bookmarkIndex acc)))
    (nb :: cur) (S next).
Proof.
  intros [I1 I2 I3 I4 I5 I6 I7 I8] Hnew nb.
  assert (Hold : ∀ z, z ∈ cur → bm_id z ≠ next).
  { intros z Hz E. specialize (I2 z Hz). lia. }
  assert (Hclash : ∀ z, z ∈ cur → bm_id z ∈ seenBookmarkIds acc →
                        bm_url z ≠ Some (tab_url t)).
  { intros z Hz Hzs Hzu. destruct (I5 z Hz Hzs) as (t' & Ht' & Hu' & _).
    apply Hnew. rewrite Hzu in Hu'. injection Hu' as ->. by apply list_elem_of_fmap_2. }
  split; simpl.
  - change (NoDup (next :: ids cur)). apply NoDup_cons. split; [| done].
    intros (z & Hz & Hzin)%list_elem_of_fmap. by apply (Hold z).
  - intros b [->|Hb]%elem_of_cons; [simpl; lia |]. specialize (I2 b Hb). lia.
  - intros b Hb. destruct (I3 b Hb) as (b' & ? & ?). exists b'.
    split; [by apply list_elem_of_further | done].
  - intros b [->|Hb]%elem_of_cons Hns; rewrite elem_of_set_add in Hns.
    + exfalso. apply Hns. by left.
    + apply I4; [done |]. intros ?. apply Hns. by right.
  - intros b [->|Hb]%elem_of_cons Hs; rewrite elem_of_set_add in Hs.
    + exists t. split; [| done]. apply elem_of_app. right. apply list_elem_of_here.
    + destruct Hs as [E|Hs]; [by apply Hold in Hb |].
      destruct (I5 b Hb Hs) as (t' & Ht' & ?). exists t'. split; [| done].
      apply elem_of_app. by left.
  - intros t' [Ht'|Ht']%elem_of_app.
    + destruct (I6 t' Ht') as (b & Hb & Hbs & Hbu). exists b.
      split; [by apply list_elem_of_further |].
      split; [apply elem_of_set_add; by right | done].
    + apply list_elem_of_singleton in Ht' as ->. exists nb.
      split; [apply list_elem_of_here |].
      split; [apply elem_of_set_add; by left | done].
  - intros y y' [->|Hy]%elem_of_cons [->|Hy']%elem_of_cons; rewrite !elem_of_set_add.
    + done.
    + intros _ [E|Hs'] Hu; [by apply Hold in Hy' |]. exfalso.
      by apply (Hclash y' Hy' Hs').
    + intros [E|Hs] _ Hu; [by apply Hold in Hy |]. exfalso.
      by apply (Hclash y Hy Hs).
    + intros [E|Hs] [E'|Hs'] Hu;
        [by apply Hold in Hy | by apply Hold in Hy | by apply Hold in Hy' |].
      by apply I7.
  - by apply t2b_inv_pinned_step.
Qed.

Lemma retitle_same b : retitle (bm_title b) b = b.
Proof. by destruct b. Qed.

Lemma live_cons t tabs :
  live (t :: tabs) = if skipped t then live tabs else t :: live tabs.
Proof.
  unfold live. rewrite filter_cons.
  destruct (skipped t); [by rewrite decide_False | by rewrite decide_True].
Qed.

Lemma t2b_tab_effect_skipped byUrl s t :
  skipped t = true → t2b_tab_effect byUrl s t = s.
Proof. intros Hs. destruct s as [[acc cur] next]. unfold t2b_tab_effect. by rewrite Hs. Qed.

Lemma t2b_inv_step kids0 done acc cur next t acc' cur' next' :
  NoDup (ids kids0) →
  t2b_inv kids0 done acc cur next →
  skipped t = false → tab_url t ∉ (tab_url <$> done) →
  t2b_tab_effect (bookmarksByUrl (snapshot kids0)) (acc, cur, next) t = (acc', cur', next') →
  t2b_inv kids0 (done ++ [t]) acc' cur' next'.
Proof.
  intros Hnd0 Hinv Hsk Hnew. unfold t2b_tab_effect. rewrite Hsk.
  destruct (bookmarksByUrl _ !! tab_url t) as [e|] eqn:He.
  - apply bookmarksByUrl_Some in He as [Hidx Hurl].
    apply has_url_Some in Hurl as [Hurl _].
    assert (He0 : item e ∈ kids0) by (eapply list_elem_of_lookup_2; eauto).
    destruct (t2b_inv_retitle _ _ _ _ _ t (item e) Hnd0 Hinv Hnew He0 Hurl)
      as (Hcur & Hunseen & Hinv').
    intros [= <- <- <-].
    assert (Hk1 : (if decide (bm_title (item e) = tab_title t) then cur
                   else alter_id (retitle (tab_title t)) (bm_id (item e)) cur)
                  = alter_id (retitle (tab_title t)) (bm_id (item e)) cur).
    { destruct (decide _) as [E|]; [| done]. symmetry.
      apply (alter_id_fixed _ (item e)); [apply Hinv | done |].
      rewrite <- E. apply retitle_same. }
    rewrite Hk1. destruct (decide (index e = bookmarkIndex acc)); [done |].
    eapply t2b_inv_perm; [| exact Hinv']. symmetry. apply move_id_perm. apply Hinv'.
  - intros [= <- <- <-].
    eapply t2b_inv_perm; [| by apply t2b_inv_create].
    symmetry. apply insert_at_perm.
Qed.

Lemma t2b_inv_loop kids0 tabs : ∀ done acc cur next acc' cur' next',
  NoDup (ids kids0) →
  t2b_inv kids0 done acc cur next →
  NoDup (tab_url <$> (done ++ live tabs)) →
  foldl (t2b_tab_effect (bookmarksByUrl (snapshot kids0))) (acc, cur, next) tabs
    = (acc', cur', next') →
  t2b_inv kids0 (done ++ live tabs) acc' cur' next'.
Proof.
  induction tabs as [|t tabs IH]; intros done acc cur next acc' cur' next' Hnd0 Hinv Hnd.
  - intros [= <- <- <-]. unfold live. by rewrite filter_nil, app_nil_r.
  - cbn [foldl]. rewrite live_cons in *. destruct (skipped t) eqn:Hsk.
    + rewrite t2b_tab_effect_skipped by done. by apply IH.
    + destruct (t2b_tab_effect _ (acc, cur, next) t) as [[acc1 cur1] next1] eqn:E.
      rewrite cons_middle, app_assoc in *. apply IH; [done | | done].
      eapply t2b_inv_step; eauto.
      rewrite !fmap_app in Hnd. apply NoDup_app in Hnd as [Hnd _].
      apply NoDup_app in Hnd as (_ & Hd & _). intros Hin. apply (Hd _ Hin).
      apply list_elem_of_here.
Qed.

Lemma t2b_inv_init kids0 next :
  NoDup (ids kids0) → (∀ b, b ∈ kids0 → bm_id b < next) →
  t2b_inv kids0 [] (T2bLocals [] [] 0) kids0 next.
Proof.
  intros Hnd Hf. split; simpl; try done.
  - intros b Hb. by exists b.
  - by intros b _ ?%not_elem_of_nil.
  - by intros t ?%not_elem_of_nil.
  - by intros b b' _ _ ?%not_elem_of_nil.
  - intros u. split; [by intros ?%not_elem_of_nil |].
    by intros (t & ?%not_elem_of_nil & _).
Qed.

(** The removal loop is a filter. *)
Lemma t2b_cleanup_effect_filter seen l : ∀ cur,
  t2b_cleanup_effect seen l cur =
  filter (λ x, ¬ (bm_id x ∈ ids l ∧ bm_id x ∉ seen)) cur.
Proof.
  unfold t2b_cleanup_effect.
  induction l as [|b l IH]; intros cur; simpl.
  - symmetry. induction cur as [|x cur IHc]; [done |].
    rewrite filter_cons_True; [by f_equal |].
    intros [?%not_elem_of_nil _]. done.
  - unfold set_has. destruct (bool_decide_reflect (bm_id b ∈ seen)) as [Hs|Hs].
    + rewrite IH. apply list_filter_iff. intros x.
      change (ids (b :: l)) with (bm_id b :: ids l). rewrite elem_of_cons. split.
      * intros Hx [[E|Hin] Hn]; [by rewrite E in Hn | by apply Hx].
      * intros Hx [Hin Hn]. apply Hx. auto.
    + rewrite IH. unfold remove_id. rewrite list_filter_filter.
      apply list_filter_iff. intros x.
      change (ids (b :: l)) with (bm_id b :: ids l). rewrite elem_of_cons. split.
      * intros [Hx Hne] [[E|Hin] Hn]; [done | by apply Hx].
      * intros Hx. split.
        -- intros [Hin Hn]. apply Hx. auto.
        -- intros E. change (bm_id x = bm_id b) in E.
           apply Hx. split; [by left | by rewrite E].
Qed.

Lemma t2b_effect_mirrors kids next tabs kids' pinned :
  NoDup (ids kids) → (∀ b, b ∈ kids → bm_id b < next) →
  NoDup (tab_url <$> live tabs) →
  t2b_effect kids next tabs = (kids', pinned) →
  bm_url <$> kids' ≡ₚ (λ t, Some (tab_url t)) <$> live tabs ∧
  (∀ b, b ∈ kids' →
     ∃ t, t ∈ live tabs ∧ bm_url b = Some (tab_url t) ∧ bm_title b = tab_title t) ∧
  (∀ u, u ∈ pinned ↔ ∃ t, t ∈ live tabs ∧ tab_pinned t = true ∧ tab_url t = u).
Proof.
  intros Hnd Hf Hnt. unfold t2b_effect.
  destruct (foldl _ _ tabs) as [[acc cur] next'] eqn:E.
  intros [= <- <-].
  pose proof (t2b_inv_loop kids tabs [] _ _ _ _ _ _ Hnd (t2b_inv_init _ _ Hnd Hf) Hnt E)
    as [I1 I2 I3 I4 I5 I6 I7 I8].
  simpl in *. rewrite t2b_cleanup_effect_filter.
  set (keep := λ x : bookmark, ¬ (bm_id x ∈ ids kids ∧ bm_id x ∉ seenBookmarkIds acc)).
  assert (Hkeep : ∀ x, x ∈ filter keep cur ↔ x ∈ cur ∧ bm_id x ∈ seenBookmarkIds acc).
  { intros x. rewrite list_elem_of_filter. unfold keep. split.
    - intros [Hk Hx]. split; [done |].
      destruct (decide (bm_id x ∈ seenBookmarkIds acc)) as [|Hn]; [done |].
      exfalso. apply Hk. split; [| done].
      apply (list_elem_of_fmap_2 bm_id). by apply I4.
    - intros [Hx Hs]. split; [| done]. by intros [_ ?]. }
  split; [| split; [| done]].
  - apply NoDup_Permutation.
    + apply NoDup_fmap_2_strong.
      * intros x y [Hx Hxs]%Hkeep [Hy Hys]%Hkeep Hu. by apply I7.
      * apply NoDup_filter. by apply NoDup_ids_NoDup.
    + rewrite (list_fmap_compose tab_url Some). apply NoDup_fmap; [| done].
      by intros ?? [= ].
    + intros u. rewrite !list_elem_of_fmap. split.
      * intros (b & -> & [Hb Hbs]%Hkeep).
        destruct (I5 b Hb Hbs) as (t & Ht & Hu & _). by exists t.
      * intros (t & -> & Ht). destruct (I6 t Ht) as (b & Hb & Hbs & Hu).
        exists b. split; [done |]. by apply Hkeep.
  - intros b [Hb Hbs]%Hkeep. by apply I5.
Qed.

Lemma insert_at_end {A} (x : A) (l1 l2 : list A) i :
  i = length l1 → insert_at i x (l1 ++ l2) = (l1 ++ [x]) ++ l2.
Proof.
  intros ->. unfold insert_at. rewrite take_app_length, drop_app_length.
  by rewrite <- app_assoc.
Qed.

Lemma filter_all {A} (P : A → Prop) `{∀ x, Decision (P x)} (l : list A) :
  (∀ x, x ∈ l → P x) → filter P l = l.
Proof.
  induction l as [|x l IH]; intros Hl; [done |].
  rewrite filter_cons_True by (apply Hl, list_elem_of_here).
  f_equal. apply IH. intros y Hy. by apply Hl, list_elem_of_further.
Qed.

Lemma filter_none {A} (P : A → Prop) `{∀ x, Decision (P x)} (l : list A) :
  (∀ x, x ∈ l → ¬ P x) → filter P l = [].
Proof.
  induction l as [|x l IH]; intros Hl; [done |].
  rewrite filter_cons_False by (apply Hl, list_elem_of_here).
  apply IH. intros y Hy. by apply Hl, list_elem_of_further.
Qed.

Lemma elem_of_live t tabs : t ∈ live tabs ↔ t ∈ tabs ∧ skipped t = false.
Proof. unfold live. rewrite list_elem_of_filter. tauto. Qed.

(** When no child carries the url of a live tab, every live tab gets a new
    child, in tab order, in front of the old children. *)
Lemma t2b_loop_fresh kids0 next0 tabs : ∀ done acc next created acc' cur' next',
  (∀ b t, b ∈ kids0 → t ∈ live tabs → has_url b ≠ Some (tab_url t)) →
  length created = bookmarkIndex acc →
  bm_url <$> created = (λ t, Some (tab_url t)) <$> done →
  (∀ b, b ∈ created → bm_id b ∈ seenBookmarkIds acc) →
  (∀ id, id ∈ seenBookmarkIds acc → next0 ≤ id) →
  next0 ≤ next →
  foldl (t2b_tab_effect (bookmarksByUrl (snapshot kids0))) (acc, created ++ kids0, next) tabs
    = (acc', cur', next') →
  ∃ created',
    cur' = created' ++ kids0 ∧
    bm_url <$> created' = (λ t, Some (tab_url t)) <$> (done ++ live tabs) ∧
    (∀ b, b ∈ created' → bm_id b ∈ seenBookmarkIds acc') ∧
    (∀ id, id ∈ seenBookmarkIds acc' → next0 ≤ id).
Proof.
  induction tabs as [|t tabs IH];
    intros done acc next created acc' cur' next' Hno Hlen Hurl Hcs Hseen Hnext.
  - intros [= <- <- <-]. exists created. unfold live. by rewrite filter_nil, app_nil_r.
  - cbn [foldl]. rewrite live_cons in *. destruct (skipped t) eqn:Hsk.
    + rewrite t2b_tab_effect_skipped by done. by apply IH.
    + unfold t2b_tab_effect at 2. rewrite Hsk.
      destruct (bookmarksByUrl _ !! tab_url t) as [e|] eqn:He.
      { exfalso. apply bookmarksByUrl_Some in He as [Hidx Hu].
        apply (Hno (item e) t); [by eapply list_elem_of_lookup_2 | | done].
        apply list_elem_of_here. }
      rewrite insert_at_end by done. intros E.
      rewrite cons_middle, app_assoc.
      eapply (IH (done ++ [t])) in E; [exact E | ..]; simpl.
      * intros b t' Hb Ht'. apply Hno; [done | by apply list_elem_of_further].
      * rewrite length_app. simpl. lia.
      * by rewrite !fmap_app, Hurl.
      * intros b [Hb| ->%list_elem_of_singleton]%elem_of_app; apply elem_of_set_add;
          [right; by apply Hcs | by left].
      * intros id [->|Hid]%elem_of_set_add; [done | by apply Hseen].
      * lia.
Qed.

Lemma t2b_effect_fresh kids next tabs kids' pinned :
  (∀ b, b ∈ kids → bm_id b < next) →
  (∀ b t, b ∈ kids → t ∈ live tabs → has_url b ≠ Some (tab_url t)) →
  t2b_effect kids next tabs = (kids', pinned) →
  bm_url <$> kids' = (λ t, Some (tab_url t)) <$> live tabs.
Proof.
  intros Hf Hno. unfold t2b_effect.
  destruct (foldl _ _ tabs) as [[acc cur] next'] eqn:E.
  intros [= <- <-].
  apply (t2b_loop_fresh kids next tabs [] _ _ []) in E
    as (created & -> & Hurl & Hcs & Hseen); simpl; try done.
  - rewrite t2b_cleanup_effect_filter, filter_app.
    rewrite filter_all, filter_none, app_nil_r; [done | |].
    + intros b Hb Hk. apply Hk. split; [by apply (list_elem_of_fmap_2 bm_id) |].
      intros Hs. apply Hseen in Hs. apply Hf in Hb. lia.
    + intros b Hb [_ Hn]. by apply Hn, Hcs.
  - by intros b ?%not_elem_of_nil.
  - by intros id ?%not_elem_of_nil.
Qed.

(** Where the identifiers in [seenBookmarkIds] come from: a new child, or
    the snapshot child found under the url of a live tab. *)
Lemma t2b_seen_origin kids0 next0 (all : list tab) tabs : ∀ acc cur next acc' cur' next',
  (∀ t, t ∈ tabs → t ∈ all) →
  next0 ≤ next →
  (∀ id, id ∈ seenBookmarkIds acc →
     next0 ≤ id ∨
     ∃ b t, b ∈ kids0 ∧ bm_id b = id ∧ t ∈ live all ∧ has_url b = Some (tab_url t)) →
  foldl (t2b_tab_effect (bookmarksByUrl (snapshot kids0))) (acc, cur, next) tabs
    = (acc', cur', next') →
  ∀ id, id ∈ seenBookmarkIds acc' →
     next0 ≤ id ∨
     ∃ b t, b ∈ kids0 ∧ bm_id b = id ∧ t ∈ live all ∧ has_url b = Some (tab_url t).
Proof.
  induction tabs as [|t tabs IH]; intros acc cur next acc' cur' next' Hall Hnext Hseen.
  - by intros [= <- <- <-].
  - cbn [foldl]. destruct (skipped t) eqn:Hsk.
    + rewrite t2b_tab_effect_skipped by done. apply IH; auto.
      intros t' Ht'. by apply Hall, list_elem_of_further.
    + unfold t2b_tab_effect at 2. rewrite Hsk.
      assert (Ht : t ∈ live all).
      { apply elem_of_live. split; [apply Hall, list_elem_of_here | done]. }
      destruct (bookmarksByUrl _ !! tab_url t) as [e|] eqn:He.
      * apply bookmarksByUrl_Some in He as [Hidx Hu].
        apply IH; [intros t' Ht'; by apply Hall, list_elem_of_further | done |].
        simpl. intros id [->|Hid]%elem_of_set_add; [| by apply Hseen].
        right. exists (item e), t. split; [by eapply list_elem_of_lookup_2 | done].
      * apply IH; [intros t' Ht'; by apply Hall, list_elem_of_further | lia |].
        simpl. intros id [->|Hid]%elem_of_set_add; [by left | by apply Hseen].
Qed.

Lemma t2b_effect_removes_unmatched kids next tabs kids' pinned b :
  NoDup (ids kids) → (∀ b, b ∈ kids → bm_id b < next) →
  t2b_effect kids next tabs = (kids', pinned) →
  b ∈ kids → (∀ t, t ∈ live tabs → has_url b ≠ Some (tab_url t)) →
  bm_id b ∉ ids kids'.
Proof.
  intros Hnd Hf. unfold t2b_effect.
  destruct (foldl _ _ tabs) as [[acc cur] next'] eqn:E.
  intros [= <- <-] Hb Hun.
  pose proof (t2b_seen_origin kids next tabs tabs _ _ _ _ _ _
                (λ _ H, H) (le_n _) (λ id (H : id ∈ []), or_introl
                   (False_ind _ (not_elem_of_nil _ H))) E) as Hseen.
  rewrite t2b_cleanup_effect_filter.
  intros (x & Hid & [Hk Hx]%list_elem_of_filter)%list_elem_of_fmap.
  change (bm_id b = bm_id x) in Hid. apply Hk. split; [rewrite <- Hid; by apply (list_elem_of_fmap_2 bm_id) |].
  intros Hs. rewrite <- Hid in Hs. destruct (Hseen _ Hs) as [Hge|(b' & t & Hb' & E' & Ht & Hu)].
  - apply Hf in Hb. lia.
  - assert (b' = b) as -> by (by apply (same_id_same_item kids)).
    by apply (Hun t).
Qed.

(* ===================================================================== *)
(** ** A pass over tabs that already match the folder *)
(* ===================================================================== *)

Lemma urls_cons b kids :
  urls (b :: kids) = match has_url b with Some u => u :: urls kids | None => urls kids end.
Proof. unfold urls. simpl. by destruct (has_url b). Qed.

Lemma openable_url b : openable b → ∃ u, has_url b = Some u ∧ bm_url b = Some u ∧ ordinary u.
Proof.
  unfold openable. destruct (has_url b) as [u|] eqn:Hu; [| done].
  intros Hs. exists u. apply has_url_Some in Hu as [Hu _]. split; [done |].
  split; [done |]. unfold ordinary. by destruct (special u).
Qed.

Lemma urls_lookup kids : ∀ i b u,
  Forall (λ b, openable b) kids →
  kids !! i = Some b → has_url b = Some u → urls kids !! i = Some u.
Proof.
  induction kids as [|b0 kids IH]; intros i b u Hall Hi Hu; [done |].
  apply Forall_cons in Hall as [H0 Hall]. rewrite urls_cons.
  destruct (openable_url _ H0) as (u0 & Hu0 & _). rewrite Hu0.
  destruct i as [|i]; simpl in *.
  - injection Hi as <-. congruence.
  - by eapply IH.
Qed.

Lemma urls_length kids : Forall (λ b, openable b) kids → length (urls kids) = length kids.
Proof.
  induction kids as [|b0 kids IH]; intros Hall; [done |].
  apply Forall_cons in Hall as [H0 Hall]. rewrite urls_cons.
  destruct (openable_url _ H0) as (u0 & Hu0 & _). rewrite Hu0. simpl. by rewrite IH.
Qed.

Lemma urls_lookup_inv kids : ∀ i u,
  Forall (λ b, openable b) kids →
  urls kids !! i = Some u → ∃ b, kids !! i = Some b ∧ has_url b = Some u.
Proof.
  intros i u Hall Hu.
  assert (Hlt : i < length kids).
  { rewrite <- urls_length by done. by eapply lookup_lt_Some. }
  apply lookup_lt_is_Some in Hlt as [b Hb]. exists b. split; [done |].
  assert (Hob : openable b).
  { rewrite Forall_forall in Hall. apply Hall. by eapply list_elem_of_lookup_2. }
  destruct (openable_url _ Hob) as (u' & Hu' & _).
  pose proof (urls_lookup kids i b u' Hall Hb Hu'). congruence.
Qed.

Lemma bookmarksByUrl_unique kids k b u :
  NoDup (urls kids) → Forall (λ b, openable b) kids →
  kids !! k = Some b → has_url b = Some u →
  bookmarksByUrl (snapshot kids) !! u = Some (Indexed k b).
Proof.
  intros Hnd Hall Hk Hu.
  destruct (bookmarksByUrl (snapshot kids) !! u) as [e|] eqn:He.
  - apply bookmarksByUrl_Some in He as [Hidx Hue].
    pose proof (urls_lookup kids _ _ _ Hall Hidx Hue) as H1.
    pose proof (urls_lookup kids _ _ _ Hall Hk Hu) as H2.
    pose proof (NoDup_lookup _ _ _ _ Hnd H1 H2) as Hi.
    destruct e as [i x]. simpl in *. subst i. congruence.
  - exfalso. eapply bookmarksByUrl_None; eauto. by eapply list_elem_of_lookup_2.
Qed.

Lemma bm_url_alter_retitle title id (l : list bookmark) :
  bm_url <$> alter_id (retitle title) id l = bm_url <$> l.
Proof.
  unfold alter_id. rewrite <- list_fmap_compose. apply list_fmap_ext.
  intros i x _. simpl. by destruct (decide _).
Qed.

(** When the live tabs carry the children's urls in the children's order,
    nothing moves, nothing is created and nothing is removed. *)
Lemma t2b_loop_same kids tabs : ∀ k acc cur next acc' cur' next',
  NoDup (urls kids) → Forall (λ b, openable b) kids →
  bookmarkIndex acc = k →
  ids cur = ids kids → bm_url <$> cur = bm_url <$> kids →
  (∀ i b, i < k → kids !! i = Some b → bm_id b ∈ seenBookmarkIds acc) →
  tab_url <$> live tabs = drop k (urls kids) →
  foldl (t2b_tab_effect (bookmarksByUrl (snapshot kids))) (acc, cur, next) tabs
    = (acc', cur', next') →
  ids cur' = ids kids ∧ bm_url <$> cur' = bm_url <$> kids ∧
  (∀ b, b ∈ kids → bm_id b ∈ seenBookmarkIds acc').
Proof.
  induction tabs as [|t tabs IH];
    intros k acc cur next acc' cur' next' Hnd Hall Hk Hids Hurls Hseen Hlive.
  - intros [= <- <- <-]. split; [done |]. split; [done |].
    intros b [i Hi]%list_elem_of_lookup. apply (Hseen i); [| done].
    unfold live in Hlive. rewrite filter_nil in Hlive. simpl in Hlive.
    symmetry in Hlive. apply drop_nil_inv in Hlive.
    rewrite urls_length in Hlive by done. apply lookup_lt_Some in Hi. lia.
  - cbn [foldl]. rewrite live_cons in Hlive. destruct (skipped t) eqn:Hsk.
    + rewrite t2b_tab_effect_skipped by done. by apply (IH k).
    + rewrite fmap_cons in Hlive.
      assert (Hu : urls kids !! k = Some (tab_url t)).
      { rewrite <- (Nat.add_0_r k), <- lookup_drop, <- Hlive. done. }
      destruct (urls_lookup_inv _ _ _ Hall Hu) as (b & Hb & Hbu).
      unfold t2b_tab_effect at 2. rewrite Hsk.
      rewrite (bookmarksByUrl_unique kids k b _ Hnd Hall Hb Hbu). simpl.
      rewrite (decide_True (P := k = bookmarkIndex acc)) by done.
      apply (IH (S k)); try done.
      * simpl. by rewrite Hk.
      * destruct (decide _); [done |]. by rewrite ids_alter_id.
      * destruct (decide _); [done |]. by rewrite bm_url_alter_retitle.
      * simpl. intros i b' Hi Hb'. apply elem_of_set_add.
        destruct (decide (i = k)) as [->|Hne].
        -- left. congruence.
        -- right. apply (Hseen i); [lia | done].
      * rewrite (drop_S _ (tab_url t)) in Hlive by done. by injection Hlive.
Qed.

Lemma t2b_effect_same kids next tabs :
  NoDup (urls kids) → Forall (λ b, openable b) kids →
  tab_url <$> live tabs = urls kids →
  let kids' := (t2b_effect kids next tabs).1 in
  bm_url <$> kids' = bm_url <$> kids ∧ ids kids' = ids kids.
Proof.
  intros Hnd Hall Hlive. unfold t2b_effect.
  destruct (foldl _ _ tabs) as [[acc cur] next'] eqn:E. simpl.
  apply (t2b_loop_same kids tabs 0) in E as (Hids & Hurls & Hseen); try done.
  2:{ intros i b Hi. lia. }
  rewrite t2b_cleanup_effect_filter, filter_all; [done |].
  intros x Hx [Hin Hn]. apply Hn.
  apply list_elem_of_fmap in Hin as (b & Hb & Hbin).
  change (bm_id x = bm_id b) in Hb. rewrite Hb. by apply Hseen.
Qed.

(* ===================================================================== *)
(** ** Tab to bookmark: C1, C2, C10 *)
(* ===================================================================== *)

Lemma sync_tabs_pinned w st :
  pinnedTabsByFolder (ext (syncTabsToBookmarks w st)) = pinnedTabsByFolder (ext st).
Proof.
  unfold syncTabsToBookmarks.
  destruct (_ !! w); [| done]. by destruct (isSyncing _).
Qed.

(** A completed pass, exit code included, seen from the folder. *)
Lemma t2b_pass_Ok w m st st' :
  run_task (TabsToBookmarks w m) st = (Ok tt, st') →
  ∃ kids,
    br_bookmarks (env st) !! folderId m = Some kids ∧
    let tabs := default [] (br_tabs (env st) !! w) in
    br_bookmarks (env st') !! folderId m
      = Some (t2b_effect kids (br_next (env st)) tabs).1 ∧
    pinnedTabsByFolder (ext st')
      = <[folderId m := (t2b_effect kids (br_next (env st)) tabs).2]>
          (pinnedTabsByFolder (ext st)) ∧
    stored_pinned (br_storage (env st')) = Some (pinnedTabsByFolder (ext st')) ∧
    br_tabs (env st') = br_tabs (env st).
Proof.
  intros E. apply run_task_split in E as (mid & Hbody & ->). simpl in Hbody.
  apply t2b_body_Ok in Hbody as (kids & Hk & Hbody). exists kids. split; [done |].
  simpl in *. destruct (t2b_effect _ _ _) as [kids' pinned].
  destruct Hbody as (H1 & H2 & H3 & H4). simpl.
  destruct (pendingSyncs (ext mid)); simpl;
    rewrite ?sync_tabs_env, ?sync_tabs_pinned; simpl; done.
Qed.

(** X24.  After a completed tab to bookmark pass over tabs whose live urls
    are pairwise distinct, the children of the folder carry exactly the urls
    of the live tabs, each once; they are in tab order when no child carried
    the url of a live tab before the pass, and stay as they are when they
    already carried the live tabs' urls in tab order.  Each child has the
    title of the tab with its url, and the folder's pinned set, in memory
    and in storage, is replaced by the set of urls of the pinned live
    tabs. *)
Theorem tabs_to_bookmarks_mirrors_live_tabs
    (w : nat) (m : mapping) (st st' : state) (kids : list bookmark) (tabs : list tab) :
  br_bookmarks (env st) !! folderId m = Some kids →
  br_tabs (env st) !! w = Some tabs →
  identified (br_next (env st)) kids →
  NoDup (tab_url <$> live tabs) →
  run_task (TabsToBookmarks w m) st = (Ok tt, st') →
  ∃ kids' pinned,
    br_bookmarks (env st') !! folderId m = Some kids' ∧
    bm_url <$> kids' ≡ₚ (λ t, Some (tab_url t)) <$> live tabs ∧
    (∀ b, b ∈ kids' →
       ∃ t, t ∈ live tabs ∧ bm_url b = Some (tab_url t) ∧ bm_title b = tab_title t) ∧
    ((∀ b t, b ∈ kids → t ∈ live tabs → has_url b ≠ Some (tab_url t)) →
       bm_url <$> kids' = (λ t, Some (tab_url t)) <$> live tabs) ∧
    (Forall (λ b, openable b) kids → tab_url <$> live tabs = urls kids →
       bm_url <$> kids' = bm_url <$> kids ∧ ids kids' = ids kids) ∧
    pinnedTabsByFolder (ext st')
      = <[folderId m := pinned]> (pinnedTabsByFolder (ext st)) ∧
    stored_pinned (br_storage (env st')) = Some (pinnedTabsByFolder (ext st')) ∧
    (∀ u, u ∈ pinned ↔ ∃ t, t ∈ live tabs ∧ tab_pinned t = true ∧ tab_url t = u).
Proof.
  intros Hk Ht [Hnd Hf] Hnt E. rewrite Forall_forall in Hf.
  apply t2b_pass_Ok in E as (kids0 & Hk0 & H1 & H2 & H3 & H4).
  rewrite Hk in Hk0. injection Hk0 as <-. rewrite Ht in *. simpl in *.
  destruct (t2b_effect kids (br_next (env st)) tabs) as [kids' pinned] eqn:E.
  destruct (t2b_effect_mirrors _ _ _ _ _ Hnd Hf Hnt E) as (P1 & P2 & P3).
  exists kids', pinned. split; [done |]. split; [done |]. split; [done |].
  split; [| split; [| done]].
  - intros Hno. by apply (t2b_effect_fresh _ _ _ _ _ Hf Hno E).
  - intros Hop Hsame.
    pose proof (t2b_effect_same kids (br_next (env st)) tabs) as Hs.
    rewrite E in Hs. apply Hs; [by rewrite <- Hsame | done | done].
Qed.

Lemma tabs_to_bookmarks_mirrors_live_tabs_witness :
  let kids := [Demo.entry 1 Demo.A; Demo.entry 2 Demo.B; Demo.entry 3 Demo.C] in
  let tabs := [Tab 11 Demo.C "c" true; Tab 12 "about:config" "cfg" true;
               Tab 13 Demo.A "a" false; Tab 14 Demo.N "n" false] in
  let st := Demo.start kids tabs in
  let st' := (run_task (TabsToBookmarks 1 (Mapping 10 "Group")) st).2 in
  ∃ kids' pinned,
    br_bookmarks (env st') !! 10 = Some kids' ∧
    bm_url <$> kids' ≡ₚ [Some Demo.C; Some Demo.A; Some Demo.N] ∧
    pinnedTabsByFolder (ext st') !! 10 = Some pinned ∧
    (Demo.C ∈ pinned).
Proof.
  intros kids tabs st st'.
  destruct (tabs_to_bookmarks_mirrors_live_tabs 1 (Mapping 10 "Group") st st' kids tabs)
    as (kids' & pinned & H1 & H2 & _ & _ & _ & H5 & _ & H7).
  - vm_compute; reflexivity.
  - vm_compute; reflexivity.
  - split; apply (bool_decide_unpack _); by vm_compute.
  - apply (bool_decide_unpack _); by vm_compute.
  - by vm_compute.
  - exists kids', pinned. split; [exact H1 |]. split; [exact H2 |].
    split; [rewrite H5; apply lookup_insert_eq |].
    apply H7. exists (Tab 11 Demo.C "c" true).
    split; [| done]. apply (bool_decide_unpack _); by vm_compute.
Defined.

(** C1.  The order part of the claim fails on the code.  The tab loop of
    [syncTabsToBookmarks] compares the index a child had in the snapshot
    ([existingBookmark.index]) with the target index and moves the child
    only when the two differ, although an earlier move of the same pass may
    have shifted the child.  The reordering of the specification's example,
    tabs [A, B, C] to [C, A, B], comes out right.  The reordering of
    [A, B, C, N] to [C, B, N, A] does not: C is moved to the front, B is left
    alone because its snapshot index 1 is its target index, though it sits
    at position 2 by then, N is moved to 2 and A to 3, and the folder ends
    as [C, N, B, A].  No tab is excluded, no url occurs twice, no title
    differs and no call rejects. *)
Theorem reordered_tabs_leave_folder_out_of_order :
  let m := Mapping 10 "Group" in
  let pass kids tabs := run_task (TabsToBookmarks 1 m) (Demo.start kids tabs) in
  let kids3 := [Demo.entry 1 Demo.A; Demo.entry 2 Demo.B; Demo.entry 3 Demo.C] in
  let tabs3 := [Demo.page 11 Demo.C; Demo.page 12 Demo.A; Demo.page 13 Demo.B] in
  let kids4 := [Demo.entry 1 Demo.A; Demo.entry 2 Demo.B; Demo.entry 3 Demo.C;
                Demo.entry 4 Demo.N] in
  let tabs4 := [Demo.page 11 Demo.C; Demo.page 12 Demo.B; Demo.page 13 Demo.N;
                Demo.page 14 Demo.A] in
  ((pass kids3 tabs3).1 = Ok tt ∧
   bm_url <$> Demo.kids_of (pass kids3 tabs3).2 = [Some Demo.C; Some Demo.A; Some Demo.B]) ∧
  ((pass kids4 tabs4).1 = Ok tt ∧
   tab_url <$> live tabs4 = [Demo.C; Demo.B; Demo.N; Demo.A] ∧
   bm_url <$> Demo.kids_of (pass kids4 tabs4).2
     = [Some Demo.C; Some Demo.N; Some Demo.B; Some Demo.A] ∧
   rev (br_log (env (pass kids4 tabs4).2)) =
     [(TabsQuery 1, true); (BookmarksGetSubTree 10, true);
      (BookmarksMove 3 0, true); (BookmarksMove 4 2, true); (BookmarksMove 1 3, true);
      (StorageSet PINNED_TABS_KEY, true)] ∧
   ¬ t2b_guarantee 1 m (Demo.start kids4 tabs4)).
Proof.
  intros m pass kids3 tabs3 kids4 tabs4.
  split; [by vm_compute |].
  split; [by vm_compute |]. split; [by vm_compute |].
  split; [by vm_compute |]. split; [by vm_compute |].
  intros H.
  assert (E : run_task (TabsToBookmarks 1 m) (Demo.start kids4 tabs4)
              = (Ok tt, (pass kids4 tabs4).2)) by (vm_compute; reflexivity).
  apply H in E as [Hurl _]. vm_compute in Hurl. discriminate.
Qed.

(** C10.  A child of the synced folder that carries no url (a subfolder)
    never enters the url lookup, and a completed tab to bookmark pass leaves
    no child of the snapshot whose url is not the url of a live tab: its
    identifier is never marked seen and the removal loop takes it out. *)
Theorem unmatched_children_are_removed
    (w : nat) (m : mapping) (st st' : state) (kids : list bookmark) (tabs : list tab) :
  br_bookmarks (env st) !! folderId m = Some kids →
  br_tabs (env st) !! w = Some tabs →
  identified (br_next (env st)) kids →
  run_task (TabsToBookmarks w m) st = (Ok tt, st') →
  (∀ u e, bookmarksByUrl (snapshot kids) !! u = Some e → bm_url (item e) = Some u) ∧
  ∃ kids',
    br_bookmarks (env st') !! folderId m = Some kids' ∧
    (∀ b, b ∈ kids → (∀ t, t ∈ live tabs → has_url b ≠ Some (tab_url t)) →
          bm_id b ∉ ids kids') ∧
    (∀ b, b ∈ kids → bm_url b = None → bm_id b ∉ ids kids').
Proof.
  intros Hk Ht [Hnd Hf] E. rewrite Forall_forall in Hf.
  split.
  { intros u e He. apply bookmarksByUrl_Some in He as [_ Hu].
    by apply has_url_Some in Hu as [Hu _]. }
  apply t2b_pass_Ok in E as (kids0 & Hk0 & H1 & _).
  rewrite Hk in Hk0. injection Hk0 as <-. rewrite Ht in *. simpl in *.
  destruct (t2b_effect kids (br_next (env st)) tabs) as [kids' pinned] eqn:E.
  exists kids'. split; [done |].
  assert (Hrm : ∀ b, b ∈ kids → (∀ t, t ∈ live tabs → has_url b ≠ Some (tab_url t)) →
                     bm_id b ∉ ids kids').
  { intros b Hb Hun.
    by apply (t2b_effect_removes_unmatched kids (br_next (env st)) tabs kids' pinned). }
  split; [done |].
  intros b Hb Hnone. apply Hrm; [done |]. intros t _. unfold has_url. by rewrite Hnone.
Qed.

Lemma unmatched_children_are_removed_witness :
  let kids := [Bookmark 1 None "subfolder"; Demo.entry 2 Demo.A; Demo.entry 3 Demo.B] in
  let tabs := [Demo.page 11 Demo.B] in
  let st := Demo.start kids tabs in
  let st' := (run_task (TabsToBookmarks 1 (Mapping 10 "Group")) st).2 in
  ∃ kids', br_bookmarks (env st') !! 10 = Some kids' ∧ 1 ∉ ids kids'.
Proof.
  intros kids tabs st st'.
  destruct (unmatched_children_are_removed 1 (Mapping 10 "Group") st st' kids tabs)
    as (_ & kids' & H1 & _ & H3).
  - vm_compute; reflexivity.
  - vm_compute; reflexivity.
  - split; apply (bool_decide_unpack _); by vm_compute.
  - by vm_compute.
  - exists kids'. split; [exact H1 |].
    apply (H3 (Bookmark 1 None "subfolder")); [| done].
    apply (bool_decide_unpack _); by vm_compute.
Defined.

(** C2 fails on the code.  Two tabs on the same url over a folder that has
    no child for it: the lookup is built once from the snapshot, so the
    second tab finds nothing either and the pass creates two children for
    the url.  A second pass keeps the later one and removes the other. *)
Lemma duplicate_tabs_create_two_children :
  let st := Demo.start [] [Demo.page 11 Demo.U; Demo.page 12 Demo.U] in
  let st1 := (run_task (TabsToBookmarks 1 (Mapping 10 "Group")) st).2 in
  let st2 := (run_task (TabsToBookmarks 1 (Mapping 10 "Group")) st1).2 in
  Demo.kids_of st1 = [Demo.entry 100 Demo.U; Demo.entry 101 Demo.U] ∧
  Demo.kids_of st2 = [Demo.entry 101 Demo.U].
Proof. vm_compute. split; reflexivity. Qed.
(* ===================================================================== *)
(** ** The bookmark to tab pass, seen from the window *)
(* ===================================================================== *)

Lemma tabs_create_Ok w url pinned idx st t st' :
  tabs_create w url pinned idx st = (Ok t, st') →
  ∃ ts, br_tabs (env st) !! w = Some ts ∧
    t = Tab (br_next (env st)) url (br_title (env st) url) pinned ∧
    br_tabs (env st') =
      <[w := insert_at (br_place (env st) ts t (default (length ts) idx)) t ts]>
        (br_tabs (env st)) ∧
    br_next (env st') = S (br_next (env st)) ∧
    tab_frame st' = tab_frame st ∧ script_view st' = script_view st.
Proof. unfold tabs_create. intros H. api_inv H. eauto 10. Qed.

Lemma tabs_update_Ok id pinned st r st' :
  tabs_update id pinned st = (Ok r, st') →
  br_tabs (env st') = update_pinned (br_place (env st)) id pinned <$> br_tabs (env st) ∧
  br_next (env st') = br_next (env st) ∧
  tab_frame st' = tab_frame st ∧ script_view st' = script_view st.
Proof. unfold tabs_update. intros H. api_inv H. eauto 10. Qed.

Lemma tabs_move_Ok id w idx st r st' :
  tabs_move id w idx st = (Ok r, st') →
  ∃ ts, br_tabs (env st) !! w = Some ts ∧
    br_tabs (env st') = <[w := place_id (br_place (env st)) id idx ts]> (br_tabs (env st)) ∧
    br_next (env st') = br_next (env st) ∧
    tab_frame st' = tab_frame st ∧ script_view st' = script_view st.
Proof. unfold tabs_move. intros H. api_inv H. eauto 10. Qed.

Lemma tabs_remove_Ok id st r st' :
  tabs_remove id st = (Ok r, st') →
  br_tabs (env st') = remove_id id <$> br_tabs (env st) ∧
  br_next (env st') = br_next (env st) ∧
  tab_frame st' = tab_frame st ∧ script_view st' = script_view st.
Proof. unfold tabs_remove. intros H. api_inv H. eauto 10. Qed.

Lemma b2t_bookmark_Ok w pinned byUrl seen b st seen' st' ts :
  b2t_bookmark w pinned byUrl seen b st = (Ok seen', st') →
  br_tabs (env st) !! w = Some ts →
  ∃ ts',
    b2t_bookmark_effect (br_place (env st)) (br_title (env st)) pinned byUrl
      (seen, ts, br_next (env st)) b = (seen', ts', br_next (env st')) ∧
    br_tabs (env st') !! w = Some ts' ∧
    tab_frame st' = tab_frame st.
Proof.
  unfold b2t_bookmark, b2t_bookmark_effect. intros H Ht.
  destruct (has_url (item b)) as [url|].
  2:{ apply ret_Ok in H as [-> ->]. eauto. }
  destruct (byUrl !! url) as [e|].
  - apply bind_Ok in H as ([] & st1 & H1 & H).
    apply bind_Ok in H as ([] & st2 & H2 & H).
    apply ret_Ok in H as [-> ->].
    assert (br_tabs (env st1) !! w =
              Some (if decide (tab_pinned (item e) = set_has url pinned) then ts
                    else update_pinned (br_place (env st)) (tab_id (item e))
                           (set_has url pinned) ts)
            ∧ br_next (env st1) = br_next (env st)
            ∧ tab_frame st1 = tab_frame st) as (Ht1 & Hn1 & Hf1).
    { destruct (decide _).
      - apply skip_Ok in H1 as [_ ->]. done.
      - apply tabs_update_Ok in H1 as (-> & -> & -> & _).
        by rewrite lookup_fmap, Ht. }
    destruct (decide (index e = index b)).
    + apply skip_Ok in H2 as [_ ->]. rewrite Hn1, Hf1. eauto.
    + apply tabs_move_Ok in H2 as (ts1 & Hts1 & -> & -> & -> & _).
      rewrite Ht1 in Hts1. injection Hts1 as <-.
      rewrite lookup_insert_eq, Hn1, Hf1.
      injection Hf1 as -> _ _ _. eauto.
  - apply bind_Ok in H as (nt & st1 & H1 & H).
    apply ret_Ok in H as [-> ->].
    apply tabs_create_Ok in H1 as (ts0 & Hts0 & -> & -> & -> & -> & _).
    rewrite Ht in Hts0. injection Hts0 as <-.
    rewrite lookup_insert_eq. simpl. eauto.
Qed.

Lemma b2t_loop_Ok w pinned byUrl bookmarks : ∀ seen st seen' st' ts,
  foldM (b2t_bookmark w pinned byUrl) seen bookmarks st = (Ok seen', st') →
  br_tabs (env st) !! w = Some ts →
  ∃ ts',
    foldl (b2t_bookmark_effect (br_place (env st)) (br_title (env st)) pinned byUrl)
      (seen, ts, br_next (env st)) bookmarks = (seen', ts', br_next (env st')) ∧
    br_tabs (env st') !! w = Some ts' ∧
    tab_frame st' = tab_frame st.
Proof.
  induction bookmarks as [|b bookmarks IH]; intros seen st seen' st' ts H Ht.
  - apply ret_Ok in H as [-> ->]. eauto.
  - rewrite foldM_cons in H. apply bind_Ok in H as (seen1 & st1 & H1 & H).
    destruct (b2t_bookmark_Ok _ _ _ _ _ _ _ _ _ H1 Ht) as (ts1 & E1 & Ht1 & Hf1).
    destruct (IH _ _ _ _ _ H Ht1) as (ts' & E & Ht' & Hf').
    exists ts'. cbn [foldl]. rewrite E1, Hf', Hf1.
    injection Hf1 as Hp1 Hp2 _ _. rewrite Hp1, Hp2 in E.
    split; [exact E |]. split; [exact Ht' | reflexivity].
Qed.

Lemma b2t_cleanup_Ok w seen tabs : ∀ st r st' ts,
  b2t_cleanup seen tabs st = (Ok r, st') →
  br_tabs (env st) !! w = Some ts →
  br_tabs (env st') !! w = Some (b2t_cleanup_effect seen (item <$> tabs) ts) ∧
  tab_frame st' = tab_frame st.
Proof.
  unfold b2t_cleanup, forM, b2t_cleanup_effect.
  induction tabs as [|t tabs IH]; intros st r st' ts H Ht.
  - apply ret_Ok in H as [-> ->]. done.
  - rewrite foldM_cons in H. apply bind_Ok in H as ([] & st1 & H1 & H). simpl.
    destruct (negb (set_has (tab_id (item t)) seen) && negb (special (tab_url (item t)))).
    + apply tabs_remove_Ok in H1 as (Hb & _ & Hf & _).
      destruct (IH st1 r st' (remove_id (tab_id (item t)) ts) H) as (-> & ->).
      { by rewrite Hb, lookup_fmap, Ht. }
      done.
    + apply skip_Ok in H1 as [_ ->]. eauto.
Qed.

(** A completed bookmark to tab pass computes [b2t_effect] and changes
    nothing of the script's globals but the guard. *)
Lemma b2t_body_Ok f w st r st' ts :
  b2t_body f w st = (Ok r, st') →
  br_tabs (env st) !! w = Some ts →
  ∃ kids,
    br_bookmarks (env st) !! f = Some kids ∧
    br_tabs (env st') !! w =
      Some (b2t_effect (br_place (env st)) (br_title (env st))
              (default [] (pinnedTabsByFolder (ext st) !! f)) kids ts (br_next (env st))) ∧
    tab_frame st' = tab_frame st ∧ script_view st' = script_view st.
Proof.
  intros H Ht. pose proof (b2t_body_keeps_ext _ _ _ _ _ H) as Hs.
  unfold b2t_body in H.
  apply bind_Ok in H as (bookmarks & st1 & H1 & H).
  apply bookmarks_getSubTree_Ok in H1 as (kids & Hk & -> & ->).
  apply bind_Ok in H as (tabs & st2 & H2 & H).
  apply tabs_query_Ok in H2 as [-> ->]. simpl in H.
  apply bind_Ok in H as (e & st3 & [= <- <-] & H).
  apply bind_Ok in H as (seen & st4 & H4 & H).
  simpl in H4. rewrite Ht in H4. simpl in H4.
  apply (b2t_loop_Ok _ _ _ _ _ _ _ _ ts) in H4 as (ts4 & E4 & Ht4 & Hf4); [| done].
  apply (b2t_cleanup_Ok w _ _ _ _ _ ts4) in H as (Ht' & Hf'); [| done].
  exists kids. split; [done |]. split; [| split; [| done]].
  - rewrite Ht'. unfold b2t_effect. simpl in E4. rewrite E4.
    by rewrite Ht, snapshot_items.
  - by rewrite Hf', Hf4.
Qed.

Section more_by_id.
Context {A : Type} `{HasId A}.
Implicit Types (l : list A) (x y : A) (id i : nat).

Lemma extract_perm id l x :
  NoDup (ids l) → find_id id l = Some x → x :: remove_id id l ≡ₚ l.
Proof.
  intros Hnd Hf. pose proof (move_id_perm id 0 l Hnd) as Hp.
  unfold move_id in Hp. by rewrite Hf in Hp.
Qed.

Lemma alter_id_notin (f : A → A) id l : id ∉ ids l → alter_id f id l = l.
Proof.
  intros Hn. unfold alter_id. rewrite <- (list_fmap_id l) at 2.
  apply list_fmap_ext. intros j x Hx. simpl.
  destruct (decide (get_id x = id)) as [E|]; [| done].
  exfalso. apply Hn. rewrite <- E. apply list_elem_of_fmap_2.
  by apply list_elem_of_lookup_2 in Hx.
Qed.

Lemma remove_id_ids id l : id ∉ ids (remove_id id l).
Proof.
  intros (x & E & [_ Hne]%elem_of_remove_id)%list_elem_of_fmap. done.
Qed.

Lemma alter_id_extract (f : A → A) id l x :
  NoDup (ids l) → find_id id l = Some x →
  alter_id f id l ≡ₚ f x :: remove_id id l.
Proof.
  intros Hnd Hf. pose proof (extract_perm id l x Hnd Hf) as Hp.
  apply find_id_Some in Hf as [_ Hid].
  transitivity (alter_id f id (x :: remove_id id l)).
  - unfold alter_id. by rewrite Hp.
  - unfold alter_id. rewrite fmap_cons, decide_True by done.
    apply perm_skip. fold (alter_id f id (remove_id id l)).
    rewrite alter_id_notin; [done | apply remove_id_ids].
Qed.

Lemma list_find_id id l :
  find_id id l = snd <$> list_find (λ x, get_id x = id) l.
Proof. done. Qed.
End more_by_id.

Lemma place_id_perm place id i (l : list tab) :
  NoDup (ids l) → place_id place id i l ≡ₚ l.
Proof.
  intros Hnd. unfold place_id. destruct (find_id id l) as [t|] eqn:Hf; [| done].
  rewrite insert_at_perm. by apply extract_perm.
Qed.

Lemma update_pinned_perm place id p (l : list tab) :
  NoDup (ids l) → update_pinned place id p l ≡ₚ alter_id (repin p) id l.
Proof.
  intros Hnd. unfold update_pinned.
  destruct (list_find _ l) as [[i t]|] eqn:Hf.
  - rewrite insert_at_perm. symmetry. apply alter_id_extract; [done |].
    by rewrite list_find_id, Hf.
  - rewrite alter_id_notin; [done |]. apply find_id_None.
    by rewrite list_find_id, Hf.
Qed.

Lemma tabsByUrl_Some tabs u e :
  tabsByUrl (snapshot tabs) !! u = Some e →
  tabs !! index e = Some (item e) ∧ tab_url (item e) = u ∧ skipped (item e) = false.
Proof.
  unfold tabsByUrl.
  assert (G : ∀ (l : list (indexed tab)) (m0 : gmap string (indexed tab)),
    (∀ u e, m0 !! u = Some e →
       tabs !! index e = Some (item e) ∧ tab_url (item e) = u ∧ skipped (item e) = false) →
    (∀ x, x ∈ l → tabs !! index x = Some (item x)) →
    ∀ u e, foldl (λ m t, if skipped (item t) then m else <[tab_url (item t) := t]> m)
             m0 l !! u = Some e →
       tabs !! index e = Some (item e) ∧ tab_url (item e) = u ∧ skipped (item e) = false).
  { induction l as [|x l IH]; intros m0 H0 Hl u' e'; simpl; [by apply H0 |].
    apply IH.
    - intros u2 e2. destruct (skipped (item x)) eqn:Hsk; [by apply H0 |].
      destruct (decide (tab_url (item x) = u2)) as [<-|Hne].
      + rewrite lookup_insert_eq. intros [= <-]. split; [| done].
        apply Hl, list_elem_of_here.
      + rewrite lookup_insert_ne by done. apply H0.
    - intros x' Hx'. by apply Hl, list_elem_of_further. }
  apply G.
  - intros u' e'. by rewrite lookup_empty.
  - intros x Hx. by apply elem_of_snapshot.
Qed.

Lemma repin_same t : repin (tab_pinned t) t = t.
Proof. by destruct t. Qed.

Lemma b2t_inv_perm pinned tabs0 done seen cur cur' next :
  cur ≡ₚ cur' → b2t_inv pinned tabs0 done seen cur next →
  b2t_inv pinned tabs0 done seen cur' next.
Proof.
  intros Hp [I1 I2 I3 I4 I5 I6 I7]. split.
  - unfold ids. by rewrite <- Hp.
  - intros b. rewrite <- Hp. apply I2.
  - intros b Hb. destruct (I3 b Hb) as (b' & ? & ?). exists b'. by rewrite <- Hp.
  - intros b. rewrite <- Hp. apply I4.
  - intros b. rewrite <- Hp. apply I5.
  - intros t Ht. destruct (I6 t Ht) as (b & ? & ?). exists b. by rewrite <- Hp.
  - intros Hnd b b'. rewrite <- !Hp. by apply I7.
Qed.

(* ===================================================================== *)
(** ** The invariant of the bookmark loop *)
(* ===================================================================== *)

Lemma b2t_inv_repin pinned tabs0 done seen cur next (u : string) (t0 : tab) :
  NoDup (ids tabs0) →
  b2t_inv pinned tabs0 done seen cur next →
  t0 ∈ tabs0 → tab_url t0 = u →
  b2t_inv pinned tabs0 (done ++ [u]) (set_add (tab_id t0) seen)
    (alter_id (repin (set_has u pinned)) (tab_id t0) cur) next ∧
  ∃ x, x ∈ cur ∧ tab_id x = tab_id t0 ∧
       (tab_pinned t0 = set_has u pinned → tab_pinned x = set_has u pinned).
Proof.
  intros Hnd0 [I1 I2 I3 I4 I5 I6 I7] He0 Hurl.
  destruct (I3 t0 He0) as (x & Hx & Hid & Hxu).
  assert (Hsame : ∀ y, y ∈ cur → tab_id y = tab_id t0 → y = x).
  { intros y Hy E. apply (same_id_same_item cur); auto.
    change (tab_id y = tab_id x). by rewrite Hid. }
  split.
  2:{ exists x. split; [done |]. split; [done |]. intros Hp.
      destruct (decide (tab_id x ∈ seen)) as [Hs|Hs].
      - destruct (I5 x Hx Hs) as [_ ->]. by rewrite Hxu, Hurl.
      - assert (x = t0) as ->; [| done].
        apply (same_id_same_item tabs0); auto. }
  split.
  - by rewrite ids_alter_id.
  - intros y (z & Hz & ->)%elem_of_alter_id.
    destruct (decide _); [apply (I2 z Hz) | by apply I2].
  - intros t Ht. destruct (I3 t Ht) as (z & Hz & Hzi & Hzu).
    exists (if decide (get_id z = tab_id t0) then repin (set_has u pinned) z else z).
    split; [apply elem_of_alter_id; eauto |]. by destruct (decide _).
  - intros y (z & Hz & ->)%elem_of_alter_id Hns.
    rewrite elem_of_set_add in Hns.
    destruct (decide (get_id z = tab_id t0)) as [E|Hne].
    + exfalso. apply Hns. by left.
    + apply I4; [done |]. intros ?. apply Hns. by right.
  - intros y (z & Hz & ->)%elem_of_alter_id Hs.
    rewrite elem_of_set_add in Hs. rewrite elem_of_app, list_elem_of_singleton.
    destruct (decide (get_id z = tab_id t0)) as [E|Hne].
    + rewrite (Hsame z Hz E). simpl. rewrite Hxu, Hurl. auto.
    + destruct Hs as [?|Hs]; [done |].
      destruct (I5 z Hz Hs) as [? ?]. auto.
  - intros u' [Hu'| ->%list_elem_of_singleton]%elem_of_app.
    + destruct (I6 u' Hu') as (z & Hz & Hzs & Hzu).
      exists (if decide (get_id z = tab_id t0) then repin (set_has u pinned) z else z).
      split; [apply elem_of_alter_id; eauto |].
      split; [| by destruct (decide _)].
      apply elem_of_set_add. right. by destruct (decide _).
    + exists (repin (set_has u pinned) x).
      split; [| split; [apply elem_of_set_add; by left | by rewrite <- Hurl]].
      apply elem_of_alter_id. exists x. split; [done |]. by rewrite decide_True.
  - intros Hnd y y' (z & Hz & ->)%elem_of_alter_id (z' & Hz' & ->)%elem_of_alter_id.
    rewrite !elem_of_set_add.
    apply NoDup_app in Hnd as (Hnd & Hnew & _).
    assert (Hclash : ∀ v, v ∈ cur → tab_id v ∈ seen → tab_url v ≠ u).
    { intros v Hv Hvs Hvu. destruct (I5 v Hv Hvs) as [Hin _].
      apply (Hnew _ Hin). rewrite Hvu. apply list_elem_of_here. }
    destruct (decide (get_id z = tab_id t0)) as [E|Hne],
             (decide (get_id z' = tab_id t0)) as [E'|Hne'].
    + intros _ _ _. by rewrite (Hsame z Hz E), (Hsame z' Hz' E').
    + intros _ [?|Hs'] Hu; [done |]. exfalso.
      rewrite (Hsame z Hz E) in Hu. simpl in Hu. rewrite Hxu, Hurl in Hu.
      by apply (Hclash z' Hz' Hs').
    + intros [?|Hs] _ Hu; [done |]. exfalso.
      rewrite (Hsame z' Hz' E') in Hu. simpl in Hu. rewrite Hxu, Hurl in Hu.
      by apply (Hclash z Hz Hs).
    + intros [?|Hs] [?|Hs'] Hu; [done.. |]. by apply I7.
Qed.

Lemma b2t_inv_create pinned tabs0 done seen cur next (u title : string) :
  b2t_inv pinned tabs0 done seen cur next →
  let nt := Tab next u title (set_has u pinned) in
  b2t_inv pinned tabs0 (done ++ [u]) (set_add next seen) (nt :: cur) (S next).
Proof.
  intros [I1 I2 I3 I4 I5 I6 I7] nt.
  assert (Hold : ∀ z, z ∈ cur → tab_id z ≠ next).
  { intros z Hz E. specialize (I2 z Hz). lia. }
  split.
  - change (NoDup (next :: ids cur)). apply NoDup_cons. split; [| done].
    intros (z & Hz & Hzin)%list_elem_of_fmap. by apply (Hold z).
  - intros b [->|Hb]%elem_of_cons; [simpl; lia |]. specialize (I2 b Hb). lia.
  - intros b Hb. destruct (I3 b Hb) as (b' & ? & ?). exists b'.
    split; [by apply list_elem_of_further | done].
  - intros b [->|Hb]%elem_of_cons Hns; rewrite elem_of_set_add in Hns.
    + exfalso. apply Hns. by left.
    + apply I4; [done |]. intros ?. apply Hns. by right.
  - intros b [->|Hb]%elem_of_cons Hs; rewrite elem_of_set_add in Hs;
      rewrite elem_of_app, list_elem_of_singleton.
    + simpl. auto.
    + destruct Hs as [E|Hs]; [by apply Hold in Hb |].
      destruct (I5 b Hb Hs) as [? ?]. auto.
  - intros u' [Hu'| ->%list_elem_of_singleton]%elem_of_app.
    + destruct (I6 u' Hu') as (b & Hb & Hbs & Hbu). exists b.
      split; [by apply list_elem_of_further |].
      split; [apply elem_of_set_add; by right | done].
    + exists nt. split; [apply list_elem_of_here |].
      split; [apply elem_of_set_add; by left | done].
  - intros Hnd. apply NoDup_app in Hnd as (Hnd & Hnew & _).
    assert (Hclash : ∀ v, v ∈ cur → tab_id v ∈ seen → tab_url v ≠ u).
    { intros v Hv Hvs Hvu. destruct (I5 v Hv Hvs) as [Hin _].
      apply (Hnew _ Hin). rewrite Hvu. apply list_elem_of_here. }
    intros y y' [->|Hy]%elem_of_cons [->|Hy']%elem_of_cons; rewrite !elem_of_set_add.
    + done.
    + intros _ [E|Hs'] Hu; [by apply Hold in Hy' |]. exfalso.
      by apply (Hclash y' Hy' Hs').
    + intros [E|Hs] _ Hu; [by apply Hold in Hy |]. exfalso.
      by apply (Hclash y Hy Hs).
    + intros [E|Hs] [E'|Hs'] Hu;
        [by apply Hold in Hy | by apply Hold in Hy | by apply Hold in Hy' |].
      by apply I7.
Qed.

Lemma b2t_inv_step place title pinned tabs0 done seen cur next b seen' cur' next' u :
  NoDup (ids tabs0) →
  b2t_inv pinned tabs0 done seen cur next →
  has_url (item b) = Some u →
  b2t_bookmark_effect place title pinned (tabsByUrl (snapshot tabs0)) (seen, cur, next) b
    = (seen', cur', next') →
  b2t_inv pinned tabs0 (done ++ [u]) seen' cur' next'.
Proof.
  intros Hnd0 Hinv Hu. unfold b2t_bookmark_effect. rewrite Hu.
  destruct (tabsByUrl _ !! u) as [e|] eqn:He.
  - apply tabsByUrl_Some in He as (Hidx & Hurl & _).
    assert (He0 : item e ∈ tabs0) by (eapply list_elem_of_lookup_2; eauto).
    destruct (b2t_inv_repin _ _ _ _ _ _ u (item e) Hnd0 Hinv He0 Hurl)
      as (Hinv' & x & Hx & Hxid & Hxp).
    intros [= <- <- <-].
    assert (Hk1 : (if decide (tab_pinned (item e) = set_has u pinned) then cur
                   else update_pinned place (tab_id (item e)) (set_has u pinned) cur)
                  ≡ₚ alter_id (repin (set_has u pinned)) (tab_id (item e)) cur).
    { destruct (decide _) as [E|]; [| apply update_pinned_perm, Hinv].
      rewrite <- Hxid. change (tab_id x) with (get_id x).
      rewrite (alter_id_fixed _ x); [done | apply Hinv | done |].
      rewrite <- (Hxp E). apply repin_same. }
    assert (Hnd1 : NoDup (ids (if decide (tab_pinned (item e) = set_has u pinned) then cur
                   else update_pinned place (tab_id (item e)) (set_has u pinned) cur))).
    { unfold ids. rewrite Hk1. apply Hinv'. }
    eapply b2t_inv_perm; [| exact Hinv']. rewrite <- Hk1.
    destruct (decide (index e = index b)); [done |].
    symmetry. by apply place_id_perm.
  - intros [= <- <- <-].
    eapply b2t_inv_perm; [| by apply b2t_inv_create].
    symmetry. apply insert_at_perm.
Qed.

Lemma b2t_bookmark_effect_no_url place title pinned byUrl s b :
  has_url (item b) = None → b2t_bookmark_effect place title pinned byUrl s b = s.
Proof. intros Hn. destruct s as [[seen cur] next]. unfold b2t_bookmark_effect. by rewrite Hn. Qed.

Lemma b2t_inv_loop place title pinned tabs0 bookmarks :
  ∀ done seen cur next seen' cur' next',
  NoDup (ids tabs0) →
  b2t_inv pinned tabs0 done seen cur next →
  foldl (b2t_bookmark_effect place title pinned (tabsByUrl (snapshot tabs0)))
    (seen, cur, next) bookmarks = (seen', cur', next') →
  b2t_inv pinned tabs0 (done ++ urls (item <$> bookmarks)) seen' cur' next'.
Proof.
  induction bookmarks as [|b bookmarks IH];
    intros done seen cur next seen' cur' next' Hnd0 Hinv.
  - intros [= <- <- <-]. by rewrite app_nil_r.
  - cbn [foldl]. rewrite fmap_cons, urls_cons.
    destruct (has_url (item b)) as [u|] eqn:Hu.
    + destruct (b2t_bookmark_effect _ _ _ _ (seen, cur, next) b)
        as [[seen1 cur1] next1] eqn:E.
      rewrite cons_middle, app_assoc. apply IH; [done |].
      eapply b2t_inv_step; eauto.
    + rewrite b2t_bookmark_effect_no_url by done. by apply IH.
Qed.

Lemma b2t_inv_init pinned tabs0 next :
  NoDup (ids tabs0) → (∀ t, t ∈ tabs0 → tab_id t < next) →
  b2t_inv pinned tabs0 [] [] tabs0 next.
Proof.
  intros Hnd Hf. split; try done.
  - intros b Hb. by exists b.
  - by intros b _ ?%not_elem_of_nil.
  - by intros t ?%not_elem_of_nil.
  - by intros _ b b' _ _ ?%not_elem_of_nil.
Qed.

Lemma elem_of_b2t_cleanup_effect seen tabs : ∀ cur x,
  x ∈ b2t_cleanup_effect seen tabs cur ↔
  x ∈ cur ∧ ∀ t0, t0 ∈ tabs → tab_id t0 = tab_id x →
                  tab_id x ∈ seen ∨ special (tab_url t0) = true.
Proof.
  unfold b2t_cleanup_effect.
  induction tabs as [|t tabs IH]; intros cur x; simpl.
  - split; [| tauto]. intros Hx. split; [done |]. by intros t0 ?%not_elem_of_nil.
  - rewrite IH. unfold set_has.
    destruct (bool_decide_reflect (tab_id t ∈ seen)) as [Hs|Hs]; simpl.
    + split; intros [Hx Hc]; (split; [done |]).
      * intros t0 [->|Ht0]%elem_of_cons E; [left; by rewrite <- E | by apply Hc].
      * intros t0 Ht0. by apply Hc, list_elem_of_further.
    + destruct (special (tab_url t)) eqn:Hsp; simpl.
      * split; intros [Hx Hc]; (split; [done |]).
        -- intros t0 [->|Ht0]%elem_of_cons E; [by right | by apply Hc].
        -- intros t0 Ht0. by apply Hc, list_elem_of_further.
      * rewrite elem_of_remove_id. change (get_id x) with (tab_id x). split.
        -- intros [[Hx Hne] Hc]. split; [done |].
           intros t0 [->|Ht0]%elem_of_cons E; [congruence | by apply Hc].
        -- intros [Hx Hc]. split; [split; [done |] |].
           ++ intros E. destruct (Hc t (list_elem_of_here _ _) (eq_sym E)) as [?|?];
                [by rewrite E in * | congruence].
           ++ intros t0 Ht0. by apply Hc, list_elem_of_further.
Qed.

Lemma b2t_cleanup_effect_sublist seen tabs : ∀ cur,
  b2t_cleanup_effect seen tabs cur `sublist_of` cur.
Proof.
  unfold b2t_cleanup_effect.
  induction tabs as [|t tabs IH]; intros cur; simpl; [done |].
  destruct (_ && _); [| done].
  etrans; [apply IH | apply remove_id_sublist].
Qed.

Lemma b2t_effect_spec place title pinned kids tabs next :
  NoDup (ids tabs) → (∀ t, t ∈ tabs → tab_id t < next) →
  let tabs' := b2t_effect place title pinned kids tabs next in
  NoDup (ids tabs') ∧
  (∀ u, u ∈ urls kids →
     ∃ t, t ∈ tabs' ∧ tab_url t = u ∧ tab_pinned t = set_has u pinned) ∧
  (∀ t, t ∈ tabs' → special (tab_url t) = false →
     tab_url t ∈ urls kids ∧ tab_pinned t = set_has (tab_url t) pinned) ∧
  (NoDup (urls kids) →
     tab_url <$> filter (λ t, ordinary (tab_url t)) tabs' ≡ₚ filter ordinary (urls kids)).
Proof.
  intros Hnd Hf tabs'. unfold b2t_effect in tabs'.
  destruct (foldl _ _ (snapshot kids)) as [[seen cur] next'] eqn:E.
  pose proof (b2t_inv_loop _ _ _ _ _ [] _ _ _ _ _ _ Hnd (b2t_inv_init pinned _ _ Hnd Hf) E)
    as [I1 I2 I3 I4 I5 I6 I7].
  rewrite snapshot_items in *. simpl in *. subst tabs'.
  assert (Hkeep : ∀ x, x ∈ b2t_cleanup_effect seen tabs cur → special (tab_url x) = false →
                       x ∈ cur ∧ tab_id x ∈ seen).
  { intros x [Hx Hc]%elem_of_b2t_cleanup_effect Hsp. split; [done |].
    destruct (decide (tab_id x ∈ seen)) as [|Hn]; [done |]. exfalso.
    destruct (Hc x (I4 x Hx Hn) eq_refl) as [?|?]; [done | congruence]. }
  assert (Hin : ∀ x, x ∈ cur → tab_id x ∈ seen → x ∈ b2t_cleanup_effect seen tabs cur).
  { intros x Hx Hs. apply elem_of_b2t_cleanup_effect. split; [done |]. by left. }
  assert (Hnd' : NoDup (ids (b2t_cleanup_effect seen tabs cur))).
  { eapply sublist_NoDup; [exact I1 |]. apply fmap_sublist, b2t_cleanup_effect_sublist. }
  split; [done |]. split; [| split].
  - intros u Hu. destruct (I6 u Hu) as (t & Ht & Hts & Htu). exists t.
    split; [by apply Hin |]. split; [done |].
    destruct (I5 t Ht Hts) as [_ ->]. by rewrite Htu.
  - intros t Ht Hsp. destruct (Hkeep t Ht Hsp) as [Hc Hs]. by apply I5.
  - intros Hndu. apply NoDup_Permutation.
    + apply NoDup_fmap_2_strong.
      * intros x y [Hxo Hx]%list_elem_of_filter [Hyo Hy]%list_elem_of_filter Hu.
        destruct (Hkeep x Hx Hxo), (Hkeep y Hy Hyo). by apply I7.
      * apply NoDup_filter. by apply NoDup_ids_NoDup.
    + by apply NoDup_filter.
    + intros u. rewrite list_elem_of_fmap, list_elem_of_filter. split.
      * intros (t & -> & [Hto Ht]%list_elem_of_filter). split; [done |].
        destruct (Hkeep t Ht Hto) as [Hc Hs]. by apply I5.
      * intros [Huo Hu]. destruct (I6 u Hu) as (t & Ht & Hts & <-).
        exists t. split; [done |]. apply list_elem_of_filter. split; [done |]. by apply Hin.
Qed.

(* ===================================================================== *)
(** ** Bookmark to tab: C3, C4 *)
(* ===================================================================== *)

(** A completed bookmark to tab pass, exit code included, seen from the
    window. *)
Lemma b2t_pass_Ok f w st st' ts :
  run_task (BookmarksToTabs f w) st = (Ok tt, st') →
  br_tabs (env st) !! w = Some ts →
  ∃ kids,
    br_bookmarks (env st) !! f = Some kids ∧
    br_tabs (env st') !! w =
      Some (b2t_effect (br_place (env st)) (br_title (env st))
              (default [] (pinnedTabsByFolder (ext st) !! f)) kids ts (br_next (env st))) ∧
    tab_frame st' = tab_frame st ∧
    pinnedTabsByFolder (ext st') = pinnedTabsByFolder (ext st).
Proof.
  intros E Ht. apply run_task_split in E as (mid & Hbody & ->). simpl in Hbody.
  apply (b2t_body_Ok _ _ _ _ _ ts) in Hbody as (kids & Hk & H1 & H2 & H3); [| done].
  exists kids. split; [done |]. injection H3 as H3 _.
  unfold tab_frame in *.
  destruct (pendingSyncs (ext mid)); simpl;
    rewrite ?sync_tabs_env, ?sync_tabs_pinned; simpl; by rewrite H1, H2, H3.
Qed.

(** X25.  After a completed bookmark to tab pass every child with a url has
    a tab with that url in the window, pinned exactly when the url is in the
    folder's pinned set; every tab left in the window whose url is not of a
    special scheme carries the url of a child and is pinned exactly when
    that url is in the pinned set (the others were closed); when the
    children's urls are pairwise distinct, the ordinary tabs carry exactly
    the ordinary urls of the children, each once.  The pass writes neither
    the pinned sets, in memory or in storage, nor the bookmarks. *)
Theorem bookmarks_to_tabs_mirrors_folder
    (f w : nat) (st st' : state) (kids : list bookmark) (tabs : list tab) :
  br_bookmarks (env st) !! f = Some kids →
  br_tabs (env st) !! w = Some tabs →
  identified (br_next (env st)) tabs →
  run_task (BookmarksToTabs f w) st = (Ok tt, st') →
  let pinned := default [] (pinnedTabsByFolder (ext st) !! f) in
  ∃ tabs',
    br_tabs (env st') !! w = Some tabs' ∧
    (∀ u, u ∈ urls kids →
       ∃ t, t ∈ tabs' ∧ tab_url t = u ∧ tab_pinned t = set_has u pinned) ∧
    (∀ t, t ∈ tabs' → ordinary (tab_url t) →
       tab_url t ∈ urls kids ∧ tab_pinned t = set_has (tab_url t) pinned) ∧
    (NoDup (urls kids) →
       tab_url <$> filter (λ t, ordinary (tab_url t)) tabs' ≡ₚ filter ordinary (urls kids)) ∧
    pinned_view st' = pinned_view st ∧
    br_bookmarks (env st') = br_bookmarks (env st).
Proof.
  intros Hk Ht [Hnd Hf] E pinned. rewrite Forall_forall in Hf.
  apply (b2t_pass_Ok _ _ _ _ tabs) in E as (kids0 & Hk0 & H1 & H2 & H3); [| done].
  rewrite Hk in Hk0. injection Hk0 as <-.
  destruct (b2t_effect_spec (br_place (env st)) (br_title (env st)) pinned kids tabs
              (br_next (env st)) Hnd Hf) as (_ & P1 & P2 & P3).
  eexists. split; [exact H1 |]. injection H2 as _ _ Hb Hs.
  split; [exact P1 |]. split; [exact P2 |]. split; [exact P3 |].
  split; [| done]. unfold pinned_view. by rewrite H3, Hs.
Qed.

Lemma bookmarks_to_tabs_mirrors_folder_witness :
  let kids := [Demo.entry 1 Demo.A; Bookmark 2 None "subfolder"; Demo.entry 3 Demo.B] in
  let tabs := [Demo.page 11 Demo.B; Demo.page 12 Demo.N] in
  let st := with_ext (set_pinnedTabsByFolder {[ 10 := [Demo.B] ]}) (Demo.start kids tabs) in
  let st' := (run_task (BookmarksToTabs 10 1) st).2 in
  ∃ tabs', br_tabs (env st') !! 1 = Some tabs' ∧
    tab_url <$> filter (λ t, ordinary (tab_url t)) tabs' ≡ₚ [Demo.A; Demo.B] ∧
    pinned_view st' = pinned_view st.
Proof.
  intros kids tabs st st'.
  destruct (bookmarks_to_tabs_mirrors_folder 10 1 st st' kids tabs)
    as (tabs' & H1 & _ & _ & H4 & H5 & _).
  - vm_compute; reflexivity.
  - vm_compute; reflexivity.
  - split; apply (bool_decide_unpack _); by vm_compute.
  - by vm_compute.
  - exists tabs'. split; [exact H1 |]. split; [| exact H5].
    apply H4. apply (bool_decide_unpack _); by vm_compute.
Defined.

(** C4.  The position part of the claim fails on the code, with a tab
    provider that puts every tab exactly where it is asked to.  The bookmark
    loop of [syncBookmarksToTabs] compares the index a tab had in the
    snapshot ([existingTab.index]) with the loop counter and moves the tab
    only when the two differ, although an earlier move of the same pass may
    have shifted the tab.  Children [C, A, B] over tabs [A, B, C] come out
    right.  Children [C, B, N, A] over tabs [A, B, C, N] do not: C is moved
    to the front, B is left alone because its snapshot index 1 is the loop
    counter, though it sits at position 2 by then, N is moved to 2 and A to
    3, and the window ends as [C, N, B, A]: the tab at the position of child
    B is on N.  No url is special or occurs twice, nothing is pinned and no
    call rejects. *)
Theorem reordered_children_leave_window_out_of_order :
  let pass kids tabs := run_task (BookmarksToTabs 10 1) (Demo.start kids tabs) in
  let kids3 := [Demo.entry 1 Demo.C; Demo.entry 2 Demo.A; Demo.entry 3 Demo.B] in
  let tabs3 := [Demo.page 11 Demo.A; Demo.page 12 Demo.B; Demo.page 13 Demo.C] in
  let kids4 := [Demo.entry 1 Demo.C; Demo.entry 2 Demo.B; Demo.entry 3 Demo.N;
                Demo.entry 4 Demo.A] in
  let tabs4 := [Demo.page 11 Demo.A; Demo.page 12 Demo.B; Demo.page 13 Demo.C;
                Demo.page 14 Demo.N] in
  (∀ ts t req, br_place (env (Demo.start kids4 tabs4)) ts t req = req) ∧
  ((pass kids3 tabs3).1 = Ok tt ∧
   tab_url <$> Demo.tabs_of (pass kids3 tabs3).2 = [Demo.C; Demo.A; Demo.B]) ∧
  ((pass kids4 tabs4).1 = Ok tt ∧
   urls kids4 = [Demo.C; Demo.B; Demo.N; Demo.A] ∧
   tab_url <$> Demo.tabs_of (pass kids4 tabs4).2 = [Demo.C; Demo.N; Demo.B; Demo.A] ∧
   rev (br_log (env (pass kids4 tabs4).2)) =
     [(BookmarksGetSubTree 10, true); (TabsQuery 1, true);
      (TabsMove 13 1 0, true); (TabsMove 14 1 2, true); (TabsMove 11 1 3, true)] ∧
   ¬ b2t_guarantee 10 1 (Demo.start kids4 tabs4)).
Proof.
  intros pass kids3 tabs3 kids4 tabs4.
  split; [done |]. split; [by vm_compute |].
  split; [by vm_compute |]. split; [by vm_compute |].
  split; [by vm_compute |]. split; [by vm_compute |].
  intros H.
  assert (E : run_task (BookmarksToTabs 10 1) (Demo.start kids4 tabs4)
              = (Ok tt, (pass kids4 tabs4).2)) by (vm_compute; reflexivity).
  apply H in E. destruct (E 1 (Demo.entry 2 Demo.B) Demo.B) as (t & Ht & Hu & _);
    [vm_compute; reflexivity | vm_compute; reflexivity |].
  vm_compute in Ht. injection Ht as <-. vm_compute in Hu. discriminate.
Qed.

(** C3 fails on the code.  The bookmark loop of [syncBookmarksToTabs] skips
    only children without a url: a child on [about:blank] is not found among
    the tabs, so a tab is created for it, at the child's position, and the
    next child is compared with position 1. *)
Lemma special_bookmark_is_opened_as_tab :
  let st := Demo.start [Demo.entry 1 "about:blank"; Demo.entry 2 Demo.A]
                       [Demo.page 11 Demo.A] in
  let st' := (run_task (BookmarksToTabs 10 1) st).2 in
  tab_url <$> Demo.tabs_of st' = ["about:blank"; Demo.A] ∧
  rev (br_log (env st')) =
    [(BookmarksGetSubTree 10, true); (TabsQuery 1, true);
     (TabsCreate 1 "about:blank" false (Some 0), true); (TabsMove 11 1 1, true)].
Proof. vm_compute. split; reflexivity. Qed.
(* ===================================================================== *)
(** ** Opening a folder as a window: C9 *)
(* ===================================================================== *)

Lemma keeps_data_storage_api {A} c (op : browser → option (A * browser)) :
  (∀ b a b', op b = Some (a, b') →
     (br_bookmarks b', br_tabs b', br_next b', br_place b', br_title b')
     = (br_bookmarks b, br_tabs b, br_next b, br_place b, br_title b)) →
  keeps data_view (api c op).
Proof.
  intros Hop st r st'. unfold api.
  destruct (br_fail _ _); [by intros [= <- <-] |].
  destruct (op (env st)) as [[a b']|] eqn:E; intros [= <- <-]; [| done].
  unfold data_view. simpl. apply (Hop _ _ _ E).
Qed.

Lemma saveWindowMappings_keeps_data : keeps data_view saveWindowMappings.
Proof.
  unfold saveWindowMappings. apply keeps_bind; [frame | intros e].
  apply keeps_data_storage_api. by intros b a b' [= <- <-].
Qed.

Lemma updateFolderLastUsed_keeps_data f : keeps data_view (updateFolderLastUsed f).
Proof.
  unfold updateFolderLastUsed.
  apply keeps_bind; [frame | intros now].
  apply keeps_bind; [frame | intros _].
  apply keeps_bind; [frame | intros e].
  apply keeps_data_storage_api. by intros b a b' [= <- <-].
Qed.

Lemma windows_create_Ok st w st' :
  windows_create st = (Ok w, st') →
  w = br_next (env st) ∧
  br_tabs (env st') =
    <[w := [Tab (S w) blank_page (br_title (env st) blank_page) false]]> (br_tabs (env st)) ∧
  br_next (env st') = S (S w) ∧
  tab_frame st' = tab_frame st ∧ script_view st' = script_view st.
Proof. unfold windows_create. intros H. api_inv H. eauto 10. Qed.

Lemma insert_at_length {A} (x : A) (l : list A) : insert_at (length l) x l = l ++ [x].
Proof. unfold insert_at. by rewrite firstn_all, drop_all. Qed.


(** The loop of [openFolderAsNewWindow] appends one tab per child. *)
Lemma open_loop_Ok w pinned (kids0 : list bookmark) bookmarks : ∀ st r st' ts,
  forM bookmarks (λ bookmark,
      let url := default "" (bm_url (item bookmark)) in
      _ ← tabs_create w url (set_has url pinned) None;
      skip) st = (Ok r, st') →
  br_tabs (env st) !! w = Some ts →
  appends_created (env st) kids0 pinned →
  Forall (λ b, openable (item b) ∧ item b ∈ kids0) bookmarks →
  ∃ created,
    br_tabs (env st') !! w = Some (ts ++ created) ∧
    tab_url <$> created = urls (item <$> bookmarks) ∧
    Forall (λ t, br_next (env st) ≤ tab_id t) created ∧
    br_next (env st) ≤ br_next (env st') ∧
    tab_frame st' = tab_frame st ∧ script_view st' = script_view st.
Proof.
  unfold forM.
  induction bookmarks as [|b bookmarks IH]; intros st r st' ts H Ht Happ Hall.
  - apply ret_Ok in H as [-> ->]. exists []. rewrite app_nil_r. done.
  - rewrite foldM_cons in H. apply bind_Ok in H as ([] & st1 & H1 & H).
    apply bind_Ok in H1 as (t & st0 & H1 & [= <-]).
    apply Forall_cons in Hall as [[Hop Hin] Hall].
    destruct (openable_url _ Hop) as (u & Hu & Hbu & _).
    rewrite Hbu in H1. simpl in H1.
    apply tabs_create_Ok in H1 as (ts0 & Hts0 & -> & Htabs & Hnext & Hf & Hs).
    rewrite Ht in Hts0. injection Hts0 as <-. simpl in Htabs.
    rewrite Happ, insert_at_length in Htabs; [| | done].
    2:{ simpl. unfold urls. apply list_elem_of_omap. eauto. }
    injection Hf as Hp Hti Hbm Hst.
    destruct (IH st0 r st' (ts ++ [Tab (br_next (env st)) u (br_title (env st) u)
                                     (set_has u pinned)]) H) as
      (created & Ht' & Hurls & Hids & Hn' & Hf' & Hs').
    + by rewrite Htabs, lookup_insert_eq.
    + unfold appends_created. by rewrite Hp.
    + done.
    + eexists (_ :: created). rewrite <- app_assoc in Ht'. split; [exact Ht' |].
      rewrite !fmap_cons, urls_cons, Hu, Hurls. split; [done |].
      split; [| split; [lia |]].
      * apply Forall_cons. split; [simpl; lia |].
        eapply Forall_impl; [exact Hids |]. intros x Hx. simpl in Hx. lia.
      * unfold tab_frame in *. rewrite Hs', Hs. by rewrite Hf', Hp, Hti, Hbm, Hst.
Qed.

Lemma keeps_mappings_tail f :
  keeps (λ st, windowMappings (ext st)) (saveWindowMappings ;; updateFolderLastUsed f).
Proof. frame. Qed.

Lemma keeps_data_tail f :
  keeps data_view (saveWindowMappings ;; updateFolderLastUsed f).
Proof.
  apply keeps_bind; [apply saveWindowMappings_keeps_data | intros _].
  apply updateFolderLastUsed_keeps_data.
Qed.

Lemma keeps_pinned_tail f :
  keeps (λ st, pinnedTabsByFolder (ext st)) (saveWindowMappings ;; updateFolderLastUsed f).
Proof. frame. Qed.

Lemma tail_run f s sd se :
  saveWindowMappings s = (Ok tt, sd) → updateFolderLastUsed f sd = (Ok tt, se) →
  (saveWindowMappings ;; updateFolderLastUsed f) s = (Ok tt, se).
Proof. intros H1 H2. unfold mbind, M_bind. by rewrite H1. Qed.

Lemma live_all tabs :
  Forall (λ t, truthy (tab_url t) = true ∧ ordinary (tab_url t)) tabs → live tabs = tabs.
Proof.
  intros Hall. apply filter_all. intros t Ht.
  rewrite Forall_forall in Hall. destruct (Hall t Ht) as [H1 H2].
  unfold skipped. unfold ordinary in H2. by rewrite H1, H2.
Qed.

Lemma urls_openable kids :
  Forall (λ b, openable b) kids →
  Forall (λ u, truthy u = true ∧ ordinary u) (urls kids).
Proof.
  intros Hall. apply Forall_forall. intros u (b & Hb & Hu)%list_elem_of_omap.
  rewrite Forall_forall in Hall. specialize (Hall b Hb).
  destruct (openable_url _ Hall) as (u' & Hu' & _ & Ho).
  rewrite Hu in Hu'. injection Hu' as <-.
  apply has_url_Some in Hu as [_ Ht]. done.
Qed.

(** What [openFolderAsNewWindow] leaves behind when it returns: a window
    mapped to the folder whose live tabs carry the children's urls in
    order. *)
Lemma openFolder_Ok f title st w st1 kids :
  openFolderAsNewWindow f title st = (Ok w, st1) →
  br_bookmarks (env st) !! f = Some kids →
  Forall (λ b, openable b) kids →
  appends_created (env st) kids (default [] (pinnedTabsByFolder (ext st) !! f)) →
  ∃ tabs1,
    br_tabs (env st1) !! w = Some tabs1 ∧
    tab_url <$> live tabs1 = urls kids ∧
    br_bookmarks (env st1) = br_bookmarks (env st) ∧
    br_next (env st) ≤ br_next (env st1) ∧
    windowMappings (ext st1) !! w = Some (Mapping f title) ∧
    pinnedTabsByFolder (ext st1) = pinnedTabsByFolder (ext st) ∧
    lock_view st1 = lock_view st.
Proof.
  intros H Hk Hop Happ.
  pose proof (openFolder_keeps_lock _ _ _ _ _ H) as Hlock.
  unfold openFolderAsNewWindow in H.
  apply bind_Ok in H as (bookmarks & sa & Ha & H).
  apply bookmarks_getSubTree_Ok in Ha as (kids0 & Hk0 & -> & ->).
  rewrite Hk in Hk0. injection Hk0 as <-.
  assert (Hfilter : filter (λ b, openable (item b)) (snapshot kids) = snapshot kids).
  { apply filter_all. intros x Hx. apply elem_of_snapshot in Hx.
    rewrite Forall_forall in Hop. apply Hop. by eapply list_elem_of_lookup_2. }
  rewrite Hfilter in H.
  destruct (decide (length (snapshot kids) = 0)) as [Hlen|Hlen].
  - assert (kids = []) as ->.
    { unfold snapshot in Hlen. rewrite length_imap in Hlen. by destruct kids. }
    apply bind_Ok in H as (w' & sb & Hb & H).
    apply windows_create_Ok in Hb as (-> & Htabs & Hnext & Hf & Hs).
    apply bind_Ok in H as ([] & sc & [= <-] & H).
    apply bind_Ok in H as ([] & sd & Hd & H).
    apply bind_Ok in H as ([] & se & He & H).
    apply ret_Ok in H as [-> ->].
    pose proof (tail_run f _ _ _ Hd He) as Htail.
    pose proof (keeps_data_tail f _ _ _ Htail) as Hd2.
    pose proof (keeps_mappings_tail f _ _ _ Htail) as Hm2.
    pose proof (keeps_pinned_tail f _ _ _ Htail) as Hp2.
    injection Hd2 as Hbm Htb Hnx _ _. simpl in *.
    injection Hf as _ _ Hbm0 _. injection Hs as Hs _.
    eexists. rewrite Htb, Htabs, lookup_insert_eq. split; [done |].
    split; [by vm_compute |].
    rewrite Hbm, Hbm0, Hnx, Hnext, Hm2, lookup_insert_eq, Hp2, Hs.
    repeat split; [lia | done].
  - apply bind_Ok in H as (e & s0 & [= <- <-] & H).
    apply bind_Ok in H as (w' & sb & Hb & H).
    apply windows_create_Ok in Hb as (-> & Htabs & Hnext & Hf & Hs).
    apply bind_Ok in H as (initialTabs & sc & Hc & H).
    apply tabs_query_Ok in Hc as [-> ->].
    simpl in H. rewrite Htabs, lookup_insert_eq in H. simpl in H.
    apply bind_Ok in H as ([] & sd & [= <-] & H).
    apply bind_Ok in H as ([] & se & He & H).
    apply bind_Ok in H as ([] & sf & Hf' & H).
    apply bind_Ok in H as ([] & sg & Hg & H).
    apply bind_Ok in H as ([] & sh & Hh & H).
    apply ret_Ok in H as [-> ->].
    set (s1 := with_ext (λ e, set_windowMappings
              (<[br_next (env st) := Mapping f title]> (windowMappings e)) e)
              (with_env (logged (TabsQuery (br_next (env st))) true) sb)) in *.
    pose proof (tail_run f _ _ _ He Hf') as Htail.
    pose proof (keeps_data_tail f _ _ _ Htail) as Hd2.
    pose proof (keeps_mappings_tail f _ _ _ Htail) as Hm2.
    pose proof (keeps_pinned_tail f _ _ _ Htail) as Hp2.
    injection Hd2 as Hbm Htb Hnx Hpl Hti. simpl in *.
    injection Hf as Hpl0 Hti0 Hbm0 _. injection Hs as Hs _.
    apply (open_loop_Ok _ _ kids _ _ _ _
             [Tab (S (br_next (env st))) blank_page (br_title (env st) blank_page) false])
      in Hg as (created & Htg & Hurls & Hids & Hng & Hfg & Hsg).
    2:{ by rewrite Htb, Htabs, lookup_insert_eq. }
    2:{ unfold appends_created. rewrite Hpl, Hpl0. apply Happ. }
    2:{ apply Forall_forall. intros x Hx. apply elem_of_snapshot in Hx.
        apply list_elem_of_lookup_2 in Hx. rewrite Forall_forall in Hop. auto. }
    apply tabs_remove_Ok in Hh as (Htr & Hnr & Hfr & Hsr).
    rewrite snapshot_items in Hurls.
    injection Hfg as _ _ Hbmg _. injection Hfr as _ _ Hbmr _.
    injection Hsg as Hsg _. injection Hsr as Hsr _.
    exists created. split; [| split].
    + rewrite Htr, lookup_fmap, Htg. simpl. f_equal.
      change (remove_id (S (br_next (env st))) (?x :: created))
        with (filter (λ t : tab, get_id t ≠ S (br_next (env st))) (x :: created)).
      rewrite filter_cons_False by (simpl; auto).
      apply filter_all. intros t Ht. rewrite Forall_forall in Hids.
      specialize (Hids t Ht). change (tab_id t ≠ S (br_next (env st))). lia.
    + rewrite live_all; [done |].
      pose proof (urls_openable kids Hop) as Hu. rewrite <- Hurls in Hu.
      by apply Forall_fmap in Hu.
    + rewrite Hbmr, Hbmg, Hbm, Hbm0, Hnr, Hsr, Hsg, Hm2, Hp2. simpl.
      rewrite lookup_insert_eq, Hs. repeat split; [lia | done].
Qed.

(** *** Opening a folder while the listeners are served *)





(** With nothing handled meanwhile, this is [openFolderAsNewWindow]. *)
Lemma open_loop_nothing w pinned (bookmarks : list (indexed bookmark)) : ∀ (g : nat → nat) st,
  forM (imap (λ i bookmark, (g i, bookmark)) bookmarks) (λ step : nat * indexed bookmark,
      let url := default "" (bm_url (item step.2)) in
      _ ← tabs_create w url (set_has url pinned) None;
      spawn (run_events [])) st
  = forM bookmarks (λ bookmark,
      let url := default "" (bm_url (item bookmark)) in
      _ ← tabs_create w url (set_has url pinned) None;
      skip) st.
Proof.
  unfold forM. induction bookmarks as [|b bookmarks IH]; intros g st; [done |].
  rewrite imap_cons, !foldM_cons. unfold mbind, M_bind. simpl.
  destruct (tabs_create _ _ _ _ st) as [[t|] s]; simpl; [exact (IH (g ∘ S) s) | done].
Qed.

Lemma bind_ext_r {A B} (c : M A) (k1 k2 : A → M B) st :
  (∀ a s, k1 a s = k2 a s) → (c ≫= k1) st = (c ≫= k2) st.
Proof. intros H. unfold mbind, M_bind. destruct (c st) as [[a|] s]; [apply H | done]. Qed.

Lemma bind_ext_l {A B} (c1 c2 : M A) (k : A → M B) st :
  c1 st = c2 st → (c1 ≫= k) st = (c2 ≫= k) st.
Proof. intros H. unfold mbind, M_bind. by rewrite H. Qed.

Lemma openFolder_during_nothing f title st :
  openFolderAsNewWindow_during (λ _ _, []) f title st = openFolderAsNewWindow f title st.
Proof.
  unfold openFolderAsNewWindow_during, openFolderAsNewWindow.
  apply bind_ext_r. intros bookmarks s.
  destruct (decide _); [done |].
  do 6 (apply bind_ext_r; intros ? ?).
  apply bind_ext_l, (open_loop_nothing _ _ _ (λ i, i)).
Qed.





Lemma keeps_api_op {X A} (proj : state → X) c (op : browser → option (A * browser)) :
  (∀ st a b', op (env st) = Some (a, b') →
     proj (with_env (λ _, logged c true b') st) = proj st) →
  (∀ st, proj (with_env (logged c false) st) = proj st) →
  keeps proj (api c op).
Proof.
  intros Hok Hfail st r st'. unfold api.
  destruct (br_fail _ _); [intros [= <- <-]; apply Hfail |].
  destruct (op (env st)) as [[a b']|] eqn:E; intros [= <- <-]; [by eapply Hok | apply Hfail].
Qed.

Ltac frame_op :=
  apply keeps_api_op;
  [ let st := fresh "st" in let Hop := fresh "Hop" in
    intros st ? ? Hop; destruct st as [? []]; simpl in Hop; simplify_option_eq; reflexivity
  | intros [? []]; reflexivity ].

#[export] Hint Extern 1 (keeps (t2b_frame _) (api _ _)) => frame_op : frames.
#[export] Hint Extern 1 (keeps b2t_frame (api _ _)) => frame_op : frames.

Lemma t2b_tab_keeps_frame f m byUrl acc t : keeps (t2b_frame f) (t2b_tab m byUrl acc t).
Proof. unfold t2b_tab. frame. Qed.

Lemma t2b_body_keeps_frame w m : keeps (t2b_frame (folderId m)) (t2b_body w m).
Proof.
  unfold t2b_body, t2b_cleanup. pose proof (t2b_tab_keeps_frame (folderId m)).
  apply keeps_bind; [frame | intros tabs].
  apply keeps_bind; [frame | intros existing].
  apply keeps_bind; [frame | intros acc].
  apply keeps_bind; [frame | intros _].
  apply keeps_bind; [| intros _; frame].
  apply keeps_modify_ext. intros st. unfold t2b_frame. simpl.
  by rewrite delete_insert_eq.
Qed.

Lemma b2t_bookmark_keeps_frame w p byUrl seen b :
  keeps b2t_frame (b2t_bookmark w p byUrl seen b).
Proof. unfold b2t_bookmark. frame. Qed.

Lemma b2t_body_keeps_frame f w : keeps b2t_frame (b2t_body f w).
Proof.
  unfold b2t_body, b2t_cleanup. pose proof b2t_bookmark_keeps_frame. frame.
Qed.

Lemma exit_keeps {X} (proj : state → X) mid :
  (∀ st b, proj (with_ext (set_isSyncing b) st) = proj st) →
  (∀ st v, proj (with_ext (set_pendingSyncs v) st) = proj st) →
  (∀ st v, proj (set_suspended v st) = proj st) →
  (∀ st v, proj (deferred v st) = proj st) →
  proj (match pendingSyncs (ext mid) with
        | [] => with_ext (set_isSyncing false) mid
        | next :: rest =>
            syncTabsToBookmarks next
              (with_ext (set_pendingSyncs rest) (with_ext (set_isSyncing false) mid))
        end) = proj mid.
Proof.
  intros H1 H2 H3 H4. destruct (pendingSyncs (ext mid)) as [|next rest]; [apply H1 |].
  unfold syncTabsToBookmarks.
  destruct (windowMappings _ !! next) as [m|]; [| by rewrite H2, H1].
  destruct (isSyncing _).
  - etrans; [exact (H4 _ next) |]. by rewrite H2, H1.
  - by rewrite H3, H1, H2, H1.
Qed.

(** X1.  A tab to bookmark pass, completed or thrown, writes to the bookmark
    side only: the tabs of every window, the mappings, the last-used stamps,
    their persisted copies and the pinned sets of the other folders are as
    before. *)
Theorem tab_sync_leaves_tabs_alone
    (w : nat) (m : mapping) (st st' : state) (r : outcome unit) :
  run_task (TabsToBookmarks w m) st = (r, st') →
  br_tabs (env st') = br_tabs (env st) ∧
  windowMappings (ext st') = windowMappings (ext st) ∧
  folderLastUsed (ext st') = folderLastUsed (ext st) ∧
  stored_mappings (br_storage (env st')) = stored_mappings (br_storage (env st)) ∧
  stored_lastUsed (br_storage (env st')) = stored_lastUsed (br_storage (env st)) ∧
  (∀ f, f ≠ folderId m →
     pinnedTabsByFolder (ext st') !! f = pinnedTabsByFolder (ext st) !! f).
Proof.
  intros E. apply run_task_split in E as (mid & Hbody & ->). simpl in Hbody.
  apply t2b_body_keeps_frame in Hbody.
  rewrite <- (exit_keeps (t2b_frame (folderId m)) mid) in Hbody by done.
  injection Hbody as H1 H2 H3 H4 H5 H6.
  repeat split; try done.
  intros f Hne. rewrite <- (lookup_delete_ne _ (folderId m) f) by done.
  rewrite H6. by rewrite lookup_delete_ne.
Qed.

(** X2.  A bookmark to tab pass, completed or thrown, writes to the tab side
    only: the children of every folder, the storage, the mappings, the
    pinned sets and the last-used stamps are as before. *)
Theorem bookmark_sync_leaves_bookmarks_alone
    (f w : nat) (st st' : state) (r : outcome unit) :
  run_task (BookmarksToTabs f w) st = (r, st') →
  br_bookmarks (env st') = br_bookmarks (env st) ∧
  br_storage (env st') = br_storage (env st) ∧
  windowMappings (ext st') = windowMappings (ext st) ∧
  pinnedTabsByFolder (ext st') = pinnedTabsByFolder (ext st) ∧
  folderLastUsed (ext st') = folderLastUsed (ext st).
Proof.
  intros E. apply run_task_split in E as (mid & Hbody & ->). simpl in Hbody.
  apply b2t_body_keeps_frame in Hbody.
  rewrite <- (exit_keeps b2t_frame mid) in Hbody by done.
  by injection Hbody as H1 H2 H3 H4 H5.
Qed.

Lemma quiet_still {A} allowed (c : M A) st a :
  c st = (Ok a, st) → quiet_at allowed c st.
Proof.
  intros E r st' E'. rewrite E in E'. injection E' as <- <-.
  split; [done |]. split; [done |]. by exists [].
Qed.

Lemma quiet_silent {A} allowed (c : M A) st : silent c → quiet_at allowed c st.
Proof.
  intros Hc r st' E. destruct (Hc st) as (a & st1 & E1 & Henv).
  rewrite E1 in E. injection E as <- <-. rewrite Henv.
  split; [done |]. split; [done |]. by exists [].
Qed.

Lemma quiet_bind {A B} allowed (c : M A) (k : A → M B) st :
  quiet_at allowed c st →
  (∀ a st1, c st = (Ok a, st1) → quiet_at allowed (k a) st1) →
  quiet_at allowed (c ≫= k) st.
Proof.
  intros Hc Hk r st'. rewrite bind_unfold.
  destruct (c st) as [[a|] st1] eqn:E.
  - intros Hka. destruct (Hc _ _ E) as (B1 & T1 & l1 & L1 & F1).
    destruct (Hk a st1 eq_refl _ _ Hka) as (B2 & T2 & l2 & L2 & F2).
    rewrite B2, T2, L2, L1. split; [done |]. split; [done |].
    exists (l2 ++ l1). split; [by rewrite app_assoc | by apply Forall_app].
  - intros [= <- <-]. apply (Hc _ _ E).
Qed.

Lemma quiet_api {A} (allowed : api_call → Prop) c (op : browser → option (A * browser)) st :
  allowed c →
  (∀ a b', op (env st) = Some (a, b') →
     br_bookmarks b' = br_bookmarks (env st) ∧ br_tabs b' = br_tabs (env st) ∧
     br_log b' = br_log (env st)) →
  quiet_at allowed (api c op) st.
Proof.
  intros Hc Hop r st'. unfold api.
  destruct (br_fail _ _).
  - intros [= <- <-]. split; [done |]. split; [done |].
    exists [(c, false)]. split; [done |]. by repeat constructor.
  - destruct (op (env st)) as [[a b']|] eqn:E; intros [= <- <-].
    + destruct (Hop _ _ eq_refl) as (H1 & H2 & H3). simpl.
      split; [done |]. split; [done |].
      exists [(c, true)]. split; [by rewrite H3 |]. by repeat constructor.
    + split; [done |]. split; [done |].
      exists [(c, false)]. split; [done |]. by repeat constructor.
Qed.

Lemma lookup_drop_head {A} (l r : list A) k x : x :: r = drop k l → l !! k = Some x.
Proof.
  intros E. rewrite <- (Nat.add_0_r k), <- lookup_drop, <- E. done.
Qed.

Lemma drop_tail {A} (l r : list A) k x : x :: r = drop k l → r = drop (S k) l.
Proof.
  intros E. pose proof (lookup_drop_head _ _ _ _ E) as Hk.
  rewrite (drop_S _ x) in E by done. by injection E.
Qed.

(** Over a folder that already carries the live tabs' urls and titles in
    tab order, the tab loop calls nothing. *)
Lemma t2b_loop_silent m kids tabs : ∀ k acc st,
  NoDup (urls kids) → Forall (λ b, openable b) kids →
  bookmarkIndex acc = k →
  (∀ i b, i < k → kids !! i = Some b → bm_id b ∈ seenBookmarkIds acc) →
  tab_url <$> live (item <$> tabs) = drop k (urls kids) →
  tab_title <$> live (item <$> tabs) = drop k (bm_title <$> kids) →
  ∃ acc', foldM (t2b_tab m (bookmarksByUrl (snapshot kids))) acc tabs st = (Ok acc', st) ∧
          (∀ b, b ∈ kids → bm_id b ∈ seenBookmarkIds acc').
Proof.
  induction tabs as [|t tabs IH]; intros k acc st Hnd Hall Hk Hseen Hlive Htitle.
  - exists acc. split; [done |].
    intros b [i Hi]%list_elem_of_lookup. apply (Hseen i); [| done].
    simpl in Hlive. symmetry in Hlive. apply drop_nil_inv in Hlive.
    rewrite urls_length in Hlive by done. apply lookup_lt_Some in Hi. lia.
  - rewrite foldM_cons, bind_unfold. rewrite fmap_cons, live_cons in Hlive, Htitle.
    unfold t2b_tab at 1. destruct (skipped (item t)) eqn:Hsk.
    + by apply (IH k).
    + rewrite fmap_cons in Hlive, Htitle.
      pose proof (lookup_drop_head _ _ _ _ Hlive) as Hu.
      pose proof (lookup_drop_head _ _ _ _ Htitle) as Hti.
      destruct (urls_lookup_inv _ _ _ Hall Hu) as (b & Hb & Hbu).
      rewrite list_lookup_fmap, Hb in Hti. injection Hti as Hti.
      rewrite (bookmarksByUrl_unique kids k b _ Hnd Hall Hb Hbu). simpl.
      rewrite (decide_True (P := bm_title b = _)) by done.
      rewrite (decide_True (P := k = bookmarkIndex acc)) by done. simpl.
      apply (IH (S k)); try done.
      * simpl. by rewrite Hk.
      * simpl. intros i b' Hi Hb'. apply elem_of_set_add.
        destruct (decide (i = k)) as [->|Hne]; [left; congruence |].
        right. apply (Hseen i); [lia | done].
      * by eapply drop_tail.
      * by eapply drop_tail.
Qed.

Lemma t2b_cleanup_silent seen (existing : list (indexed bookmark)) st :
  (∀ b, b ∈ existing → bm_id (item b) ∈ seen) →
  t2b_cleanup seen existing st = (Ok tt, st).
Proof.
  unfold t2b_cleanup, forM. induction existing as [|b existing IH]; intros Hs; [done |].
  rewrite foldM_cons, bind_unfold. unfold set_has.
  rewrite bool_decide_eq_true_2 by apply Hs, list_elem_of_here. simpl.
  apply IH. intros b' Hb'. by apply Hs, list_elem_of_further.
Qed.

Lemma savePinnedTabs_quiet w f st : quiet_at (reads_or_saves_pinned w f) savePinnedTabs st.
Proof.
  unfold savePinnedTabs. apply quiet_bind.
  - apply quiet_silent. intros s. by exists (ext s), s.
  - intros e st1 [= <- <-]. apply quiet_api; [right; by right |].
    by intros a b' [= <- <-].
Qed.

(** X3.  A tab to bookmark pass over a folder that already agrees with the
    window (same urls and titles as the live tabs, in tab order) issues no
    bookmark call: it reads both sides, saves the pinned set, and leaves
    every folder as it is. *)
Theorem tab_sync_of_synced_folder_is_quiet
    (w : nat) (m : mapping) (st st' : state) (r : outcome unit)
    (kids : list bookmark) (tabs : list tab) :
  br_bookmarks (env st) !! folderId m = Some kids →
  br_tabs (env st) !! w = Some tabs →
  Forall (λ b, openable b) kids →
  NoDup (urls kids) →
  tab_url <$> live tabs = urls kids →
  tab_title <$> live tabs = bm_title <$> kids →
  run_task (TabsToBookmarks w m) st = (r, st') →
  br_bookmarks (env st') = br_bookmarks (env st) ∧
  ∃ calls, br_log (env st') = calls ++ br_log (env st) ∧
           Forall (λ e, reads_or_saves_pinned w (folderId m) e.1) calls.
Proof.
  intros Hk Ht Hop Hnd Hurls Htitles E.
  apply run_task_split in E as (mid & Hbody & ->). simpl in Hbody.
  assert (Henv : ∀ s, env (match pendingSyncs (ext s) with
        | [] => with_ext (set_isSyncing false) s
        | next :: rest => syncTabsToBookmarks next
              (with_ext (set_pendingSyncs rest) (with_ext (set_isSyncing false) s))
        end) = env s).
  { intros s. destruct (pendingSyncs (ext s)); [done |]. by rewrite sync_tabs_env. }
  rewrite Henv.
  assert (Q : quiet_at (reads_or_saves_pinned w (folderId m)) (t2b_body w m) st).
  { unfold t2b_body. apply quiet_bind.
    { apply quiet_api; [by left |]. by intros a b' [= <- <-]. }
    intros tabs0 st1 H1. apply tabs_query_Ok in H1 as [-> ->]. rewrite Ht. simpl.
    apply quiet_bind.
    { apply quiet_api; [right; by left |].
      intros a b' Hop'. simpl in Hop'. by simplify_option_eq. }
    intros ex st2 H2. apply bookmarks_getSubTree_Ok in H2 as (kids0 & Hk0 & -> & ->).
    simpl in Hk0. rewrite Hk in Hk0. injection Hk0 as <-.
    match goal with |- quiet_at _ _ ?s => set (s2 := s) end.
    destruct (t2b_loop_silent m kids (snapshot tabs) 0 (T2bLocals [] [] 0) s2)
      as (acc & Hloop & Hseen); try done.
    { intros i b Hi. lia. }
    { by rewrite snapshot_items. }
    { by rewrite snapshot_items. }
    apply quiet_bind; [by eapply quiet_still |].
    intros acc' st3 H3. rewrite Hloop in H3. injection H3 as <- <-.
    apply quiet_bind.
    { eapply quiet_still. apply t2b_cleanup_silent.
      intros b Hb. apply Hseen. apply elem_of_snapshot in Hb.
      by eapply list_elem_of_lookup_2. }
    intros [] st4 _. apply quiet_bind.
    { apply quiet_silent. intros s. by eexists tt, _. }
    intros [] st5 _. apply savePinnedTabs_quiet. }
  destruct (Q _ _ Hbody) as (B1 & _ & calls & L1 & F1). eauto.
Qed.

Lemma tab_sync_leaves_tabs_alone_witness :
  let st := Demo.failing 3 (Demo.start [Demo.entry 1 Demo.A]
                                       [Demo.page 11 Demo.B; Demo.page 12 Demo.C]) in
  let st' := (run_task (TabsToBookmarks 1 (Mapping 10 "Group")) st).2 in
  br_tabs (env st') = br_tabs (env st).
Proof.
  intros st. destruct (run_task (TabsToBookmarks 1 (Mapping 10 "Group")) st) as [r s] eqn:E.
  simpl. by destruct (tab_sync_leaves_tabs_alone 1 _ st s r E) as [H _].
Defined.

Lemma bookmark_sync_leaves_bookmarks_alone_witness :
  let st := Demo.failing 3 (Demo.start [Demo.entry 1 Demo.A; Demo.entry 2 Demo.B]
                                       [Demo.page 11 Demo.C]) in
  let st' := (run_task (BookmarksToTabs 10 1) st).2 in
  br_bookmarks (env st') = br_bookmarks (env st).
Proof.
  intros st. destruct (run_task (BookmarksToTabs 10 1) st) as [r s] eqn:E.
  simpl. by destruct (bookmark_sync_leaves_bookmarks_alone 10 1 st s r E) as [H _].
Defined.

Lemma tab_sync_of_synced_folder_is_quiet_witness :
  let kids := [Demo.entry 1 Demo.A; Demo.entry 2 Demo.B] in
  let tabs := [Demo.page 11 Demo.A; Tab 12 "about:blank" "" false; Demo.page 13 Demo.B] in
  let st := Demo.start kids tabs in
  let st' := (run_task (TabsToBookmarks 1 (Mapping 10 "Group")) st).2 in
  br_bookmarks (env st') = br_bookmarks (env st).
Proof.
  intros kids tabs st.
  destruct (run_task (TabsToBookmarks 1 (Mapping 10 "Group")) st) as [r s] eqn:E. simpl.
  destruct (tab_sync_of_synced_folder_is_quiet 1 (Mapping 10 "Group") st s r kids tabs)
    as [H _]; try (vm_compute; reflexivity); try exact E; try exact H.
  - apply (bool_decide_unpack _); by vm_compute.
  - apply (bool_decide_unpack _); by vm_compute.
Defined.

(** *** The url lookup of the bookmark to tab pass *)

Lemma tabsByUrl_None tabs u t :
  tabsByUrl (snapshot tabs) !! u = None → t ∈ tabs → skipped t = false → tab_url t ≠ u.
Proof.
  unfold tabsByUrl. intros Hn Ht Hsk.
  assert (G : ∀ (l : list (indexed tab)) (m0 : gmap string (indexed tab)),
    foldl (λ m t, if skipped (item t) then m else <[tab_url (item t) := t]> m) m0 l !! u
      = None →
    m0 !! u = None ∧ ∀ x, x ∈ l → skipped (item x) = false → tab_url (item x) ≠ u).
  { induction l as [|x l IH]; intros m0; simpl.
    - intros H0. split; [done |]. by intros x ?%not_elem_of_nil.
    - intros H0. apply IH in H0 as [H0 Hl].
      destruct (skipped (item x)) eqn:Hx.
      + split; [done |]. intros x' [->|Hx']%elem_of_cons; [congruence | by apply Hl].
      + destruct (decide (tab_url (item x) = u)) as [E|Hne];
          [by rewrite E, lookup_insert_eq in H0 |].
        rewrite lookup_insert_ne in H0 by done. split; [done |].
        intros x' [->|Hx']%elem_of_cons; [done | by apply Hl]. }
  apply G in Hn as [_ Hl]. apply list_elem_of_lookup in Ht as [i Hi].
  apply (Hl (Indexed i t)); [by apply elem_of_snapshot | done].
Qed.

Lemma tabsByUrl_unique tabs i t :
  NoDup (tab_url <$> tabs) → tabs !! i = Some t → skipped t = false →
  tabsByUrl (snapshot tabs) !! tab_url t = Some (Indexed i t).
Proof.
  intros Hnd Hi Hsk.
  destruct (tabsByUrl (snapshot tabs) !! tab_url t) as [e|] eqn:He.
  - apply tabsByUrl_Some in He as (Hidx & Hu & _).
    assert (index e = i).
    { eapply NoDup_lookup; [exact Hnd | |]; rewrite list_lookup_fmap.
      - by rewrite Hidx; simpl; rewrite Hu.
      - by rewrite Hi. }
    destruct e as [j x]. simpl in *. subst j. congruence.
  - exfalso. eapply tabsByUrl_None; eauto. by eapply list_elem_of_lookup_2.
Qed.

(** Over a window whose tabs already carry the children's urls and pinned
    flags in folder order, the bookmark loop calls nothing. *)
Lemma b2t_loop_silent w pinned tabs (bs : list (indexed bookmark)) : ∀ seen st,
  NoDup (tab_url <$> tabs) →
  (∀ x, x ∈ bs → ∃ t, tabs !! index x = Some t ∧ has_url (item x) = Some (tab_url t) ∧
                      tab_pinned t = set_has (tab_url t) pinned ∧ skipped t = false) →
  ∃ seen', foldM (b2t_bookmark w pinned (tabsByUrl (snapshot tabs))) seen bs st
             = (Ok seen', st) ∧
           (∀ id, id ∈ seen → id ∈ seen') ∧
           (∀ x t, x ∈ bs → tabs !! index x = Some t → tab_id t ∈ seen').
Proof.
  induction bs as [|x bs IH]; intros seen st Hnd Hall.
  - exists seen. split; [done |]. split; [done |]. by intros x t ?%not_elem_of_nil.
  - rewrite foldM_cons, bind_unfold.
    destruct (Hall x (list_elem_of_here _ _)) as (t & Hx & Hu & Hp & Hsk).
    unfold b2t_bookmark at 1. rewrite Hu.
    rewrite (tabsByUrl_unique tabs (index x) t Hnd Hx Hsk). simpl.
    rewrite (decide_True (P := tab_pinned t = _)) by done.
    rewrite (decide_True (P := index x = index x)) by done. simpl.
    destruct (IH (set_add (tab_id t) seen) st Hnd) as (seen' & E & Hmono & Hcov).
    { intros x' Hx'. by apply Hall, list_elem_of_further. }
    exists seen'. split; [done |]. split.
    + intros id Hid. apply Hmono, elem_of_set_add. by right.
    + intros x' t' [->|Hx']%elem_of_cons Ht'; [| by eapply Hcov].
      rewrite Hx in Ht'. injection Ht' as <-. apply Hmono, elem_of_set_add. by left.
Qed.

Lemma b2t_cleanup_silent seen (tabs : list (indexed tab)) st :
  (∀ t, t ∈ tabs → tab_id (item t) ∈ seen) →
  b2t_cleanup seen tabs st = (Ok tt, st).
Proof.
  unfold b2t_cleanup, forM. induction tabs as [|t tabs IH]; intros Hs; [done |].
  rewrite foldM_cons, bind_unfold. unfold set_has.
  rewrite bool_decide_eq_true_2 by apply Hs, list_elem_of_here. simpl.
  apply IH. intros t' Ht'. by apply Hs, list_elem_of_further.
Qed.

(** X4.  A bookmark to tab pass over a window that already agrees with the
    folder (one tab per child, same urls in the same order, pinned as the
    pinned set says) issues no tab call: it reads both sides and leaves
    every window as it is. *)
Theorem bookmark_sync_of_synced_window_is_quiet
    (f w : nat) (st st' : state) (r : outcome unit)
    (kids : list bookmark) (tabs : list tab) :
  br_bookmarks (env st) !! f = Some kids →
  br_tabs (env st) !! w = Some tabs →
  Forall (λ b, openable b) kids →
  NoDup (urls kids) →
  tab_url <$> tabs = urls kids →
  tab_pinned <$> tabs
    = (λ u, set_has u (default [] (pinnedTabsByFolder (ext st) !! f))) <$> urls kids →
  run_task (BookmarksToTabs f w) st = (r, st') →
  br_tabs (env st') = br_tabs (env st) ∧
  ∃ calls, br_log (env st') = calls ++ br_log (env st) ∧
           Forall (λ e, reads_only w f e.1) calls.
Proof.
  intros Hk Ht Hop Hnd Hurls Hpins E.
  apply run_task_split in E as (mid & Hbody & ->). simpl in Hbody.
  assert (Henv : ∀ s, env (match pendingSyncs (ext s) with
        | [] => with_ext (set_isSyncing false) s
        | next :: rest => syncTabsToBookmarks next
              (with_ext (set_pendingSyncs rest) (with_ext (set_isSyncing false) s))
        end) = env s).
  { intros s. destruct (pendingSyncs (ext s)); [done |]. by rewrite sync_tabs_env. }
  rewrite Henv.
  assert (Hitems : ∀ x, x ∈ snapshot kids →
            ∃ t, tabs !! index x = Some t ∧ has_url (item x) = Some (tab_url t) ∧
                 tab_pinned t = set_has (tab_url t)
                                  (default [] (pinnedTabsByFolder (ext st) !! f)) ∧
                 skipped t = false).
  { intros x Hx. apply elem_of_snapshot in Hx.
    assert (Hox : openable (item x)).
    { rewrite Forall_forall in Hop. apply Hop. by eapply list_elem_of_lookup_2. }
    destruct (openable_url _ Hox) as (u & Hu & _ & Hord).
    pose proof (urls_lookup kids _ _ _ Hop Hx Hu) as Hui.
    assert (Hti : (tab_url <$> tabs) !! index x = Some u) by (by rewrite Hurls).
    rewrite list_lookup_fmap in Hti.
    destruct (tabs !! index x) as [t|] eqn:Htx; [| done]. injection Hti as Hti.
    exists t. split; [done |]. split; [by rewrite Hti |]. split.
    - assert (Hpi : (tab_pinned <$> tabs) !! index x
                    = Some (set_has u (default [] (pinnedTabsByFolder (ext st) !! f)))).
      { by rewrite Hpins, list_lookup_fmap, Hui. }
      rewrite list_lookup_fmap, Htx in Hpi. injection Hpi as ->. by rewrite Hti.
    - apply has_url_Some in Hu as [_ Htr]. unfold skipped. rewrite Hti, Htr.
      unfold ordinary in Hord. by rewrite Hord. }
  assert (Q : quiet_at (reads_only w f) (b2t_body f w) st).
  { unfold b2t_body. apply quiet_bind.
    { apply quiet_api; [by right |].
      intros a b' Hop'. simpl in Hop'. by simplify_option_eq. }
    intros ex st1 H1. apply bookmarks_getSubTree_Ok in H1 as (kids0 & Hk0 & -> & ->).
    rewrite Hk in Hk0. injection Hk0 as <-.
    apply quiet_bind.
    { apply quiet_api; [by left |]. by intros a b' [= <- <-]. }
    intros tabs0 st2 H2. apply tabs_query_Ok in H2 as [-> ->]. simpl. rewrite Ht. simpl.
    apply quiet_bind.
    { apply quiet_silent. intros s. by exists (ext s), s. }
    intros e st3 [= <- <-]. simpl.
    match goal with |- quiet_at _ _ ?s => set (s2 := s) end.
    destruct (b2t_loop_silent w (default [] (pinnedTabsByFolder (ext st) !! f)) tabs
                (snapshot kids) [] s2) as (seen & Hloop & _ & Hcov); [| done |].
    { rewrite Hurls. done. }
    apply quiet_bind; [by eapply quiet_still |].
    intros seen' st4 H4. rewrite Hloop in H4. injection H4 as <- <-.
    eapply quiet_still. apply b2t_cleanup_silent.
    intros t Ht'. apply elem_of_snapshot in Ht'.
    assert (Hlt : index t < length kids).
    { rewrite <- urls_length by done. rewrite <- Hurls, length_fmap.
      by eapply lookup_lt_Some. }
    apply lookup_lt_is_Some in Hlt as [b Hb].
    apply (Hcov (Indexed (index t) b) (item t)); [by apply elem_of_snapshot | done]. }
  destruct (Q _ _ Hbody) as (_ & T1 & calls & L1 & F1). eauto.
Qed.

Lemma bookmark_sync_of_synced_window_is_quiet_witness :
  let kids := [Demo.entry 1 Demo.A; Demo.entry 2 Demo.B] in
  let tabs := [Tab 11 Demo.A "a" true; Tab 12 Demo.B "b" false] in
  let st := with_ext (set_pinnedTabsByFolder {[ 10 := [Demo.A] ]}) (Demo.start kids tabs) in
  let st' := (run_task (BookmarksToTabs 10 1) st).2 in
  br_tabs (env st') = br_tabs (env st).
Proof.
  intros kids tabs st.
  destruct (run_task (BookmarksToTabs 10 1) st) as [r s] eqn:E. simpl.
  destruct (bookmark_sync_of_synced_window_is_quiet 10 1 st s r kids tabs)
    as [H _]; try (vm_compute; reflexivity); try exact E; try exact H.
  - apply (bool_decide_unpack _); by vm_compute.
  - apply (bool_decide_unpack _); by vm_compute.
Defined.

(** *** [Object.keys] and the scan for the window of a folder *)

Lemma elem_of_Object_keys {V} (o : gmap nat V) k : k ∈ Object_keys o ↔ is_Some (o !! k).
Proof.
  unfold Object_keys. rewrite merge_sort_Permutation, list_elem_of_fmap. split.
  - intros ([k' v] & -> & Hin). apply elem_of_map_to_list in Hin. by exists v.
  - intros [v Hv]. exists (k, v). split; [done |]. by apply elem_of_map_to_list.
Qed.

Lemma Object_keys_sorted {V} (o : gmap nat V) : StronglySorted Nat.le (Object_keys o).
Proof.
  apply StronglySorted_merge_sort.
  - intros x y z. apply Nat.le_trans.
  - intros x y. apply Nat.le_ge_cases.
Qed.

Lemma StronglySorted_lookup_le (l : list nat) i j x y :
  StronglySorted Nat.le l → l !! i = Some x → l !! j = Some y → i < j → x ≤ y.
Proof.
  intros Hs Hi Hj Hlt. rewrite <- (take_drop j l) in Hs.
  apply (StronglySorted_app_1_elem_of _ _ _ x y Hs).
  - apply list_elem_of_lookup. exists i. by rewrite lookup_take_lt.
  - apply list_elem_of_lookup. exists 0. by rewrite lookup_drop, Nat.add_0_r.
Qed.

(** X5.  The window [syncBookmarksToTabs] works on is the one with the least
    identifier among the windows mapped to the folder; there is none exactly
    when no window is mapped to it. *)
Theorem find_window_is_least_mapped (mappings : gmap nat mapping) (f : nat) :
  (∀ w, find_window mappings f = Some w ↔
        (∃ mp, mappings !! w = Some mp ∧ folderId mp = f) ∧
        (∀ w' mp', mappings !! w' = Some mp' → folderId mp' = f → w ≤ w')) ∧
  (find_window mappings f = None ↔
   ∀ w mp, mappings !! w = Some mp → folderId mp ≠ f).
Proof.
  set (P := λ wId : nat, folderId <$> mappings !! wId = Some f).
  assert (HP : ∀ w, P w ↔ ∃ mp, mappings !! w = Some mp ∧ folderId mp = f).
  { intros w. unfold P. destruct (mappings !! w) as [mp|]; simpl.
    - split; [intros [= E]; eauto | intros (mp' & [= <-] & E); by rewrite E].
    - split; [done | by intros (mp' & ? & _)]. }
  assert (Hfwd : ∀ w, find_window mappings f = Some w →
            (∃ mp, mappings !! w = Some mp ∧ folderId mp = f) ∧
            (∀ w' mp', mappings !! w' = Some mp' → folderId mp' = f → w ≤ w')).
  { intros w. unfold find_window. fold P.
    destruct (list_find P (Object_keys mappings)) as [[i x]|] eqn:E; [| done].
    intros [= <-]. apply list_find_Some in E as (Hi & Hx & Hmin).
    split; [by apply HP |]. intros w' mp' Hw' Hf'.
    assert (Hin : w' ∈ Object_keys mappings) by (apply elem_of_Object_keys; eauto).
    apply list_elem_of_lookup in Hin as [j Hj].
    destruct (decide (j < i)) as [Hlt|Hge].
    - exfalso. apply (Hmin j w' Hj Hlt). apply HP. eauto.
    - destruct (decide (j = i)) as [->|Hne]; [rewrite Hi in Hj; injection Hj as ->; lia |].
      apply (StronglySorted_lookup_le (Object_keys mappings) i j); [apply Object_keys_sorted | done.. | lia]. }
  assert (Hnone : find_window mappings f = None ↔
                  ∀ w mp, mappings !! w = Some mp → folderId mp ≠ f).
  { unfold find_window. fold P.
    destruct (list_find P (Object_keys mappings)) as [[i x]|] eqn:E; simpl.
    - split; [done |]. intros Hall. exfalso.
      apply list_find_Some in E as (_ & Hx & _). apply HP in Hx as (mp & Hm & Hf).
      by apply (Hall x mp).
    - split; [| done]. intros _ w mp Hm Hf.
      apply list_find_None in E. rewrite Forall_forall in E.
      apply (E w); [apply elem_of_Object_keys; eauto | apply HP; eauto]. }
  split; [| done]. intros w. split; [apply Hfwd |].
  intros [(mp & Hm & Hf) Hmin].
  destruct (find_window mappings f) as [x|] eqn:E.
  - destruct (Hfwd x eq_refl) as [(mpx & Hmx & Hfx) Hminx].
    f_equal. apply Nat.le_antisymm; [by eapply Hminx | by eapply Hmin].
  - exfalso. by apply (proj1 Hnone eq_refl w mp).
Qed.

(** *** The pending set across turns of the event loop *)

Lemma turn_exit st t :
  suspended st = [t] →
  ∃ r mid, task_body t (set_suspended [] st) = (r, mid) ∧
    guard_view mid = guard_view (set_suspended [] st) ∧
    (turn st).2 = match pendingSyncs (ext st) with
                  | [] => with_ext (set_isSyncing false) mid
                  | next :: rest =>
                      syncTabsToBookmarks next
                        (with_ext (set_pendingSyncs rest)
                           (with_ext (set_isSyncing false) mid))
                  end.
Proof.
  intros Hq. unfold turn. rewrite Hq.
  destruct (run_task t (set_suspended [] st)) as [r st'] eqn:E.
  apply run_task_split in E as (mid & Hbody & ->).
  pose proof (task_body_keeps_guard _ _ _ _ Hbody) as Hv.
  exists r, mid. split; [done |]. split; [done |].
  injection Hv as _ E2 _ _. simpl in E2. by rewrite E2.
Qed.

Lemma turn_redispatch st t next rest m :
  suspended st = [t] → pendingSyncs (ext st) = next :: rest →
  windowMappings (ext st) !! next = Some m →
  suspended (turn st).2 = [TabsToBookmarks next m] ∧
  pendingSyncs (ext (turn st).2) = rest ∧
  isSyncing (ext (turn st).2) = true ∧
  windowMappings (ext (turn st).2) = windowMappings (ext st).
Proof.
  intros Hq Hp Hm. destruct (turn_exit st t Hq) as (r & mid & _ & Hv & ->).
  injection Hv as _ _ E3 E4. simpl in E3, E4.
  rewrite Hp. unfold syncTabsToBookmarks. simpl. by rewrite E4, Hm, E3.
Qed.

Lemma turn_last st t :
  suspended st = [t] → pendingSyncs (ext st) = [] →
  suspended (turn st).2 = [] ∧
  pendingSyncs (ext (turn st).2) = [] ∧
  isSyncing (ext (turn st).2) = false ∧
  windowMappings (ext (turn st).2) = windowMappings (ext st).
Proof.
  intros Hq Hp. destruct (turn_exit st t Hq) as (r & mid & _ & Hv & ->).
  injection Hv as _ E2 E3 E4. simpl in E2, E3, E4.
  rewrite Hp. simpl. by rewrite E2, E3, E4, Hp.
Qed.

Lemma turn_stranded st t next rest :
  suspended st = [t] → pendingSyncs (ext st) = next :: rest →
  windowMappings (ext st) !! next = None →
  suspended (turn st).2 = [] ∧
  pendingSyncs (ext (turn st).2) = rest ∧
  isSyncing (ext (turn st).2) = false ∧
  windowMappings (ext (turn st).2) = windowMappings (ext st).
Proof.
  intros Hq Hp Hm. destruct (turn_exit st t Hq) as (r & mid & _ & Hv & ->).
  injection Hv as _ _ E3 E4. simpl in E3, E4.
  rewrite Hp. unfold syncTabsToBookmarks. simpl. by rewrite E4, Hm.
Qed.

Lemma resume_idle n st : suspended st = [] → run_events (replicate n Resume) st = st.
Proof.
  intros Hq. induction n as [|n IH]; [done |].
  simpl. unfold run_events in IH. unfold turn. by rewrite Hq.
Qed.

(** X6.  With one pass in flight and every pending window still mapped, the
    event loop drains the pending set in insertion order: turn [i + 1] ends
    with the tab to bookmark pass of the [i]-th pending window queued, and
    after as many turns as there are pending windows plus one the guard is
    free and nothing is pending or queued. *)
Theorem pending_windows_are_drained (t : task) (st : state) :
  suspended st = [t] →
  (∀ w, w ∈ pendingSyncs (ext st) → is_Some (windowMappings (ext st) !! w)) →
  (∀ i w, pendingSyncs (ext st) !! i = Some w →
     ∃ m, windowMappings (ext st) !! w = Some m ∧
          suspended (run_events (replicate (S i) Resume) st) = [TabsToBookmarks w m]) ∧
  let st' := run_events (replicate (S (length (pendingSyncs (ext st)))) Resume) st in
  suspended st' = [] ∧ isSyncing (ext st') = false ∧ pendingSyncs (ext st') = [] ∧
  windowMappings (ext st') = windowMappings (ext st).
Proof.
  remember (pendingSyncs (ext st)) as p eqn:Hp. symmetry in Hp.
  revert t st Hp. induction p as [|next rest IH]; intros t st Hp Hq Hall.
  - split; [intros i w; by rewrite lookup_nil |].
    simpl. by destruct (turn_last st t Hq Hp) as (? & ? & ? & ?).
  - destruct (Hall next) as [m Hm]; [apply list_elem_of_here |].
    destruct (turn_redispatch st t next rest m Hq Hp Hm) as (Hq1 & Hp1 & Hs1 & Hm1).
    destruct (IH (TabsToBookmarks next m) (turn st).2 Hp1 Hq1) as [Hsteps Hend].
    { intros w Hw. rewrite Hm1. apply Hall. by apply list_elem_of_further. }
    split.
    + intros [|i] w Hi.
      * injection Hi as <-. exists m. split; [done |]. exact Hq1.
      * destruct (Hsteps i w Hi) as (m' & Hm' & Hq'). exists m'.
        split; [by rewrite <- Hm1 |]. exact Hq'.
    + simpl in Hend |- *. by rewrite <- Hm1.
Qed.

Lemma pending_windows_are_drained_witness :
  let st := run_events [TabNotification 1; TabNotification 1; BookmarkNotification 10]
              (Demo.start [] [Demo.page 11 Demo.A]) in
  pendingSyncs (ext st) = [1] ∧
  suspended (run_events [Resume] st) = [TabsToBookmarks 1 (Mapping 10 "Group")] ∧
  suspended (run_events [Resume; Resume] st) = [] ∧
  isSyncing (ext (run_events [Resume; Resume] st)) = false ∧
  pendingSyncs (ext (run_events [Resume; Resume] st)) = [].
Proof.
  intros st.
  assert (Hp : pendingSyncs (ext st) = [1]) by (vm_compute; reflexivity).
  assert (Hq : suspended st = [TabsToBookmarks 1 (Mapping 10 "Group")])
    by (vm_compute; reflexivity).
  assert (Hm : windowMappings (ext st) = {[ 1 := Mapping 10 "Group" ]})
    by (vm_compute; reflexivity).
  destruct (pending_windows_are_drained _ st Hq) as [Hsteps Hend].
  { intros w. rewrite Hp, Hm. intros ->%list_elem_of_singleton. by eexists. }
  split; [exact Hp |].
  rewrite Hp in Hsteps, Hend.
  destruct (Hsteps 0 1 eq_refl) as (m & Hm1 & Hs).
  rewrite Hm in Hm1. injection Hm1 as <-.
  split; [exact Hs |].
  destruct Hend as (H1 & H2 & H3 & _). by repeat split.
Defined.

(** X7.  A pending window whose mapping is gone by the time the running pass
    ends is dropped, and with it the hand-over: the guard is released with
    nothing queued, so the windows still pending stay pending through any
    number of further turns of the event loop, until some later notification
    starts a pass. *)
Theorem unmapped_pending_window_strands_the_rest
    (t : task) (st : state) (next : nat) (rest : list nat) (n : nat) :
  suspended st = [t] →
  pendingSyncs (ext st) = next :: rest →
  windowMappings (ext st) !! next = None →
  let st' := run_events (replicate (S n) Resume) st in
  st' = run_events [Resume] st ∧
  suspended st' = [] ∧ isSyncing (ext st') = false ∧ pendingSyncs (ext st') = rest.
Proof.
  intros Hq Hp Hm.
  destruct (turn_stranded st t next rest Hq Hp Hm) as (Hq1 & Hp1 & Hs1 & _).
  simpl. change (foldl (λ s ev, handle ev s) (turn st).2 (replicate n Resume))
    with (run_events (replicate n Resume) (turn st).2).
  by rewrite resume_idle.
Qed.

Lemma unmapped_pending_window_strands_the_rest_witness :
  let st := with_ext (set_pendingSyncs [7; 1])
              (run_events [TabNotification 1] (Demo.start [] [Demo.page 11 Demo.A])) in
  let st' := run_events [Resume; Resume; Resume] st in
  suspended st' = [] ∧ isSyncing (ext st') = false ∧ pendingSyncs (ext st') = [1].
Proof.
  intros st.
  assert (Hq : suspended st = [TabsToBookmarks 1 (Mapping 10 "Group")])
    by (vm_compute; reflexivity).
  assert (Hm : windowMappings (ext st) !! 7 = None) by (vm_compute; reflexivity).
  destruct (unmapped_pending_window_strands_the_rest _ st 7 [1] 2 Hq eq_refl Hm)
    as (_ & H1 & H2 & H3).
  by repeat split.
Defined.

(** *** A window's new folder *)





(** *** Opening a folder, whatever the tab provider's placement *)

Lemma open_loop_perm w pinned bookmarks : ∀ st r st' ts,
  forM bookmarks (λ bookmark,
      let url := default "" (bm_url (item bookmark)) in
      _ ← tabs_create w url (set_has url pinned) None;
      skip) st = (Ok r, st') →
  br_tabs (env st) !! w = Some ts →
  Forall (λ b, openable (item b)) bookmarks →
  ∃ ts' created,
    br_tabs (env st') = <[w := ts']> (br_tabs (env st)) ∧
    ts' ≡ₚ ts ++ created ∧
    look <$> created = shown_as pinned <$> urls (item <$> bookmarks) ∧
    Forall (λ t, br_next (env st) ≤ tab_id t) created ∧
    br_next (env st) ≤ br_next (env st') ∧
    tab_frame st' = tab_frame st ∧ script_view st' = script_view st.
Proof.
  unfold forM.
  induction bookmarks as [|b bookmarks IH]; intros st r st' ts H Ht Hall.
  - apply ret_Ok in H as [-> ->]. exists ts, []. rewrite app_nil_r.
    rewrite insert_id by done. done.
  - rewrite foldM_cons in H. apply bind_Ok in H as ([] & st1 & H1 & H).
    apply bind_Ok in H1 as (t & st0 & H1 & [= <-]).
    apply Forall_cons in Hall as [Hop Hall].
    destruct (openable_url _ Hop) as (u & Hu & Hbu & _).
    rewrite Hbu in H1. simpl in H1.
    apply tabs_create_Ok in H1 as (ts0 & Hts0 & -> & Htabs & Hnext & Hf & Hs).
    rewrite Ht in Hts0. injection Hts0 as <-. simpl in Htabs.
    injection Hf as Hp Hti Hbm Hst.
    set (t := Tab (br_next (env st)) u (br_title (env st) u) (set_has u pinned)) in *.
    destruct (IH st0 r st' (insert_at (br_place (env st) ts t (length ts)) t ts) H) as
      (ts' & created & Ht' & Hperm & Hlook & Hids & Hn' & Hf' & Hs').
    + by rewrite Htabs, lookup_insert_eq.
    + done.
    + exists ts', (t :: created).
      split; [by rewrite Ht', Htabs, insert_insert_eq |].
      split; [by rewrite Hperm, insert_at_perm, <- Permutation_middle |].
      rewrite !fmap_cons, urls_cons, Hu, Hlook. split; [done |].
      split; [| split; [lia |]].
      * apply Forall_cons. split; [simpl; lia |].
        eapply Forall_impl; [exact Hids |]. intros x Hx. simpl in Hx. lia.
      * unfold tab_frame in *. rewrite Hs', Hs. by rewrite Hf', Hp, Hti, Hbm, Hst.
Qed.

Lemma mappings_tail_Ok f s se :
  (saveWindowMappings ;; updateFolderLastUsed f) s = (Ok tt, se) →
  stored_mappings (br_storage (env se)) = Some (windowMappings (ext s)) ∧
  windowMappings (ext se) = windowMappings (ext s) ∧
  folderLastUsed (ext se) = <[f := br_now (env s)]> (folderLastUsed (ext s)) ∧
  stored_lastUsed (br_storage (env se)) = Some (folderLastUsed (ext se)).
Proof.
  unfold saveWindowMappings, updateFolderLastUsed,
    modify_ext, get_ext, Date_now, api, mbind, M_bind. simpl.
  destruct (br_fail (env s) (br_clock (env s))); simpl; [discriminate |].
  destruct (br_fail (env s) (S (br_clock (env s)))); simpl; [discriminate |].
  by intros [= <-].
Qed.

Lemma remove_id_fresh (id : nat) (ts : list tab) :
  Forall (λ t, tab_id t ≠ id) ts → remove_id id ts = ts.
Proof.
  intros Hall. apply filter_all. intros t Ht.
  rewrite Forall_forall in Hall. exact (Hall t Ht).
Qed.

Lemma remove_id_fresh_map (id : nat) (tabs : gmap nat (list tab)) :
  (∀ w ts, tabs !! w = Some ts → Forall (λ t, tab_id t ≠ id) ts) →
  remove_id id <$> tabs = tabs.
Proof.
  intros Hall. apply map_eq. intros w. rewrite lookup_fmap.
  destruct (tabs !! w) as [ts|] eqn:E; [| done]. simpl.
  f_equal. apply remove_id_fresh. by apply (Hall w).
Qed.

Lemma filter_snapshot_items {A} (P : A → Prop) `{Hdec : ∀ x, Decision (P x)} (l : list A) :
  item <$> filter (λ e, P (item e)) (snapshot l) = filter P l.
Proof.
  rewrite <- (snapshot_items l) at 2. generalize (snapshot l). intros s.
  induction s as [|e s IH]; [done |].
  rewrite fmap_cons, !filter_cons. simpl.
  destruct (decide (P (item e))); [rewrite fmap_cons |]; by rewrite IH.
Qed.

Lemma urls_nil_openable kids :
  Forall (λ b, openable b) kids → urls kids = [] → kids = [].
Proof.
  intros Hall Hu. apply urls_length in Hall. rewrite Hu in Hall. by destruct kids.
Qed.

(** X10.  What [openFolderAsNewWindow] leaves behind when it returns, for any
    folder and any placement policy of the tab provider: a new window with a
    fresh identifier, mapped to the folder in memory and in storage, every
    other window as it was, and in the new window exactly one tab per child
    that has a url of no special scheme, pinned exactly when the url is in
    the folder's pinned set; the blank tab the window was born with is gone.
    A folder with no such child gives a window with just the blank tab. *)
Theorem open_folder_shows_each_openable_child
    (f : nat) (title : string) (st st1 : state) (w : nat) (kids : list bookmark) :
  openFolderAsNewWindow f title st = (Ok w, st1) →
  br_bookmarks (env st) !! f = Some kids →
  fresh_tabs (env st) →
  let pinned := default [] (pinnedTabsByFolder (ext st) !! f) in
  let shown := urls (filter (λ b, openable b) kids) in
  w = br_next (env st) ∧
  windowMappings (ext st1) = <[w := Mapping f title]> (windowMappings (ext st)) ∧
  stored_mappings (br_storage (env st1)) = Some (windowMappings (ext st1)) ∧
  ∃ tabs1,
    br_tabs (env st1) = <[w := tabs1]> (br_tabs (env st)) ∧
    if decide (shown = [])
    then tabs1 = [Tab (S w) blank_page (br_title (env st) blank_page) false]
    else look <$> tabs1 ≡ₚ shown_as pinned <$> shown.
Proof.
  intros H Hk Hfresh pinned shown.
  unfold openFolderAsNewWindow in H.
  apply bind_Ok in H as (bookmarks & sa & Ha & H).
  apply bookmarks_getSubTree_Ok in Ha as (kids0 & Hk0 & -> & ->).
  rewrite Hk in Hk0. injection Hk0 as <-.
  set (ub := filter (λ b, openable (item b)) (snapshot kids)) in *.
  assert (Hitems : item <$> ub = filter (λ b, openable b) kids)
    by exact (filter_snapshot_items (λ b, openable b)
                (Hdec := λ b, Is_true_dec (openable b)) kids).
  assert (Hall : Forall (λ b, openable (item b)) ub).
  { apply Forall_forall. intros x Hx. by apply list_elem_of_filter in Hx as [Hx _]. }
  assert (Hopen : Forall (λ b, openable b) (filter (λ b, openable b) kids)).
  { apply Forall_forall. intros x Hx. by apply list_elem_of_filter in Hx as [Hx _]. }
  destruct (decide (length ub = 0)) as [Hlen|Hlen].
  - assert (shown = []) as Hshown.
    { unfold shown. rewrite <- Hitems. by destruct ub. }
    destruct (decide (shown = [])) as [_ | ?]; [| done].
    apply bind_Ok in H as (w' & sb & Hb & H).
    apply windows_create_Ok in Hb as (-> & Htabs & Hnext & Hf & Hs).
    apply bind_Ok in H as ([] & sc & [= <-] & H).
    apply bind_Ok in H as ([] & sd & Hd & H).
    apply bind_Ok in H as ([] & se & He & H).
    apply ret_Ok in H as [-> ->].
    pose proof (tail_run f _ _ _ Hd He) as Htail.
    pose proof (keeps_data_tail f _ _ _ Htail) as Hd2.
    apply mappings_tail_Ok in Htail as (Hsm & Hm2 & _ & _).
    injection Hd2 as _ Htb _ _ _. simpl in *.
    injection Hs as Hs _.
    split; [done |]. rewrite Hm2, Hsm, Hs. split; [done |]. split; [done |].
    eexists. split; [| done]. by rewrite Htb, Htabs.
  - assert (shown ≠ []) as Hshown.
    { unfold shown. intros Hu. apply urls_nil_openable in Hu; [| done].
      rewrite <- Hitems in Hu. apply Hlen. by destruct ub. }
    destruct (decide (shown = [])) as [? | _]; [done |].
    apply bind_Ok in H as (e & s0 & [= <- <-] & H).
    apply bind_Ok in H as (w' & sb & Hb & H).
    apply windows_create_Ok in Hb as (-> & Htabs & Hnext & Hf & Hs).
    apply bind_Ok in H as (initialTabs & sc & Hc & H).
    apply tabs_query_Ok in Hc as [-> ->].
    simpl in H. rewrite Htabs, lookup_insert_eq in H. simpl in H.
    apply bind_Ok in H as ([] & sd & [= <-] & H).
    apply bind_Ok in H as ([] & se & He & H).
    apply bind_Ok in H as ([] & sf & Hf' & H).
    apply bind_Ok in H as ([] & sg & Hg & H).
    apply bind_Ok in H as ([] & sh & Hh & H).
    apply ret_Ok in H as [-> ->].
    pose proof (tail_run f _ _ _ He Hf') as Htail.
    pose proof (keeps_data_tail f _ _ _ Htail) as Hd2.
    apply mappings_tail_Ok in Htail as (Hsm & Hm2 & _ & _).
    injection Hd2 as _ Htb Hnx _ _. simpl in *.
    injection Hs as Hs _.
    apply (open_loop_perm _ _ _ _ _ _
             [Tab (S (br_next (env st))) blank_page (br_title (env st) blank_page) false])
      in Hg as (ts' & created & Htg & Hperm & Hlook & Hids & Hng & Hfg & Hsg);
      [| by rewrite Htb, Htabs, lookup_insert_eq | done].
    apply tabs_remove_Ok in Hh as (Htr & Hnr & Hfr & Hsr).
    injection Hfg as _ _ _ Hstg. injection Hfr as _ _ _ Hstr.
    injection Hsg as Hsg _. injection Hsr as Hsr _.
    split; [done |]. rewrite Hsr, Hsg, Hm2, Hstr, Hstg, Hsm, Hs.
    split; [done |]. split; [done |].
    exists (remove_id (S (br_next (env st))) ts'). split.
    + rewrite Htr, Htg, Htb, Htabs, insert_insert_eq, fmap_insert. f_equal.
      apply remove_id_fresh_map. intros w0 ts Hw0.
      destruct (Hfresh w0 ts Hw0) as [_ Hts].
      eapply Forall_impl; [exact Hts |]. intros t Ht. simpl in Ht. lia.
    + unfold shown, pinned. rewrite <- Hitems, <- Hlook. apply fmap_Permutation.
      unfold remove_id. rewrite Hperm. simpl.
      rewrite filter_cons_False by (simpl; auto).
      rewrite filter_all; [done |]. intros t Ht. rewrite Forall_forall in Hids.
      specialize (Hids t Ht). change (tab_id t ≠ S (br_next (env st))). lia.
Qed.

Lemma open_folder_shows_each_openable_child_witness :
  let kids := [Demo.entry 21 Demo.A; Bookmark 22 (Some "about:config") "cfg";
               Bookmark 23 None "sub"; Demo.entry 24 Demo.B] in
  let st := Demo.start kids [Demo.page 11 Demo.A] in
  ∃ st1 tabs1,
    openFolderAsNewWindow 10 "Group" st = (Ok 100, st1) ∧
    br_tabs (env st1) = <[100 := tabs1]> (br_tabs (env st)) ∧
    look <$> tabs1 ≡ₚ [(Demo.A, false); (Demo.B, false)].
Proof.
  intros kids st.
  destruct (openFolderAsNewWindow 10 "Group" st) as [r st1] eqn:E.
  assert (r = Ok 100) as -> by (vm_compute in E; by injection E as <- _).
  assert (Hfresh : fresh_tabs (env st)).
  { intros w ts Hw.
    change (({[ 1 := [Demo.page 11 Demo.A] ]} : gmap nat (list tab)) !! w = Some ts) in Hw.
    apply lookup_singleton_Some in Hw as [<- <-].
    split; [simpl; lia |]. apply Forall_cons. split; [simpl; lia | constructor]. }
  destruct (open_folder_shows_each_openable_child 10 "Group" st st1 100 kids
              E eq_refl Hfresh) as (_ & _ & _ & tabs1 & Ht & Hshow).
  exists st1, tabs1. split; [reflexivity |]. split; [exact Ht |].
  destruct (decide _) as [Hn | _] in Hshow; [vm_compute in Hn; discriminate |].
  vm_compute in Hshow. exact Hshow.
Defined.

(** *** The calls of a run *)

Lemma within_silent {A} allowed (c : M A) st : silent c → calls_within allowed c st.
Proof.
  intros Hc r st' E. destruct (Hc st) as (a & st1 & E1 & Henv).
  rewrite E1 in E. injection E as <- <-. rewrite Henv. by exists [].
Qed.

Lemma within_ret {A} allowed (a : A) st : calls_within allowed (mret a) st.
Proof. apply within_silent. intros s. by exists a, s. Qed.

Lemma within_bind {A B} allowed (c : M A) (k : A → M B) st :
  calls_within allowed c st →
  (∀ a st1, c st = (Ok a, st1) → calls_within allowed (k a) st1) →
  calls_within allowed (c ≫= k) st.
Proof.
  intros Hc Hk r st'. rewrite bind_unfold.
  destruct (c st) as [[a|] st1] eqn:E.
  - intros Hka. destruct (Hc _ _ E) as (l1 & L1 & F1).
    destruct (Hk a st1 eq_refl _ _ Hka) as (l2 & L2 & F2).
    rewrite L2, L1. exists (l2 ++ l1). split; [by rewrite app_assoc | by apply Forall_app].
  - intros [= <- <-]. apply (Hc _ _ E).
Qed.

Lemma within_api {A} (allowed : api_call → Prop) c (op : browser → option (A * browser)) st :
  allowed c →
  (∀ a b', op (env st) = Some (a, b') → br_log b' = br_log (env st)) →
  calls_within allowed (api c op) st.
Proof.
  intros Hc Hop r st'. unfold api.
  destruct (br_fail _ _).
  - intros [= <- <-]. exists [(c, false)]. split; [done |]. by repeat constructor.
  - destruct (op (env st)) as [[a b']|] eqn:E; intros [= <- <-].
    + exists [(c, true)]. simpl. split; [by rewrite (Hop _ _ eq_refl) |].
      by repeat constructor.
    + exists [(c, false)]. split; [done |]. by repeat constructor.
Qed.

Ltac within_api :=
  apply within_api; [| intros ? ? ?; simplify_option_eq; reflexivity].

Lemma within_saveWindowMappings (allowed : api_call → Prop) st :
  allowed (StorageSet STORAGE_KEY) → calls_within allowed saveWindowMappings st.
Proof.
  intros H1. unfold saveWindowMappings.
  apply within_bind; [apply within_silent; intros s; by exists (ext s), s |].
  intros e s _. by within_api.
Qed.

Lemma within_updateFolderLastUsed (allowed : api_call → Prop) f st :
  allowed (StorageSet FOLDER_LAST_USED_KEY) →
  calls_within allowed (updateFolderLastUsed f) st.
Proof.
  intros H2. unfold updateFolderLastUsed.
  apply within_bind; [apply within_silent; intros s; by eexists _, s |].
  intros now s2 _.
  apply within_bind; [apply within_silent; intros s; by eexists tt, _ |].
  intros _ s3 _.
  apply within_bind; [apply within_silent; intros s; by exists (ext s), s |].
  intros e s _. by within_api.
Qed.

Lemma within_open_loop (allowed : api_call → Prop) w pinned bookmarks :
  (∀ b, b ∈ bookmarks →
     allowed (TabsCreate w (default "" (bm_url (item b)))
                (set_has (default "" (bm_url (item b))) pinned) None)) →
  ∀ st, calls_within allowed
    (forM bookmarks (λ bookmark,
       let url := default "" (bm_url (item bookmark)) in
       _ ← tabs_create w url (set_has url pinned) None;
       skip)) st.
Proof.
  unfold forM. induction bookmarks as [|b bookmarks IH]; intros Hall st.
  - apply within_ret.
  - rewrite foldM_cons. apply within_bind.
    + apply within_bind.
      * unfold tabs_create. within_api. apply Hall, list_elem_of_here.
      * intros t s _. apply within_ret.
    + intros [] s _. apply IH. intros b' Hb'. by apply Hall, list_elem_of_further.
Qed.

Lemma keeps_bookmark_side_api {A} c (op : browser → option (A * browser)) :
  (∀ b a b', op b = Some (a, b') →
     br_bookmarks b' = br_bookmarks b ∧
     stored_pinned (br_storage b') = stored_pinned (br_storage b)) →
  keeps bookmark_side (api c op).
Proof.
  intros Hop. apply keeps_api_op.
  - intros st a b' E. destruct (Hop _ _ _ E) as [H1 H2].
    unfold bookmark_side. simpl. by rewrite H1, H2.
  - done.
Qed.

Ltac side_api :=
  apply keeps_bookmark_side_api; intros ? ? ? ?; simplify_option_eq; by split.

Lemma openFolder_keeps_bookmark_side f title :
  keeps bookmark_side (openFolderAsNewWindow f title).
Proof.
  assert (Hmod : ∀ w, keeps bookmark_side
            (modify_ext (λ e, set_windowMappings
               (<[w := Mapping f title]> (windowMappings e)) e))) by (intros w; frame).
  unfold openFolderAsNewWindow.
  apply keeps_bind; [unfold bookmarks_getSubTree; side_api | intros bookmarks].
  apply keeps_decide.
  - apply keeps_bind; [unfold windows_create; side_api | intros w].
    apply keeps_bind; [apply Hmod | intros _].
    apply keeps_bind; [unfold saveWindowMappings; apply keeps_bind; [frame | intros e; side_api] | intros _].
    apply keeps_bind; [| intros _; frame].
    unfold updateFolderLastUsed.
    apply keeps_bind; [frame | intros now].
    apply keeps_bind; [frame | intros _].
    apply keeps_bind; [frame | intros e]. side_api.
  - apply keeps_bind; [frame | intros e].
    apply keeps_bind; [unfold windows_create; side_api | intros w].
    apply keeps_bind; [unfold tabs_query; side_api | intros initialTabs].
    apply keeps_bind; [apply Hmod | intros _].
    apply keeps_bind; [unfold saveWindowMappings; apply keeps_bind; [frame | intros e'; side_api] | intros _].
    apply keeps_bind.
    { unfold updateFolderLastUsed.
      apply keeps_bind; [frame | intros now].
      apply keeps_bind; [frame | intros _].
      apply keeps_bind; [frame | intros e']. side_api. }
    intros _.
    apply keeps_bind.
    { apply keeps_foldM. intros [] b.
      apply keeps_bind; [unfold tabs_create; side_api | intros _; frame]. }
    intros _.
    apply keeps_bind; [| intros _; frame].
    destruct (_ <$> head initialTabs) as [[|n]|]; [frame | unfold tabs_remove; side_api | frame].
Qed.

Lemma within_modify allowed f st : calls_within allowed (modify_ext f) st.
Proof. apply within_silent. intros s. by eexists tt, _. Qed.

(** X11.  [openFolderAsNewWindow], returned or thrown, writes no bookmark and
    no pinned set and asks for no pass.  Its calls are: one read of the
    folder, the creation of the window and one query of it, the two storage
    writes of the mappings and the time stamp, one [tabs.create] in the new
    window per child for a url of a child that is of no special scheme,
    pinned as the pinned set says and with no position asked, and the removal
    of the tab the window was born with. *)
Theorem opening_a_folder_only_builds_the_window
    (f : nat) (title : string) (st st' : state) (r : outcome nat) :
  openFolderAsNewWindow f title st = (r, st') →
  bookmark_side st' = bookmark_side st ∧
  lock_view st' = lock_view st ∧
  ∃ calls,
    br_log (env st') = calls ++ br_log (env st) ∧
    Forall (λ e, opening f (br_next (env st))
                   (default [] (br_bookmarks (env st) !! f))
                   (default [] (pinnedTabsByFolder (ext st) !! f)) e.1) calls.
Proof.
  intros E.
  split; [exact (openFolder_keeps_bookmark_side f title _ _ _ E) |].
  split; [exact (openFolder_keeps_lock f title _ _ _ E) |].
  revert r st' E.
  change (calls_within (opening f (br_next (env st))
                          (default [] (br_bookmarks (env st) !! f))
                          (default [] (pinnedTabsByFolder (ext st) !! f)))
            (openFolderAsNewWindow f title) st).
  set (allowed := opening _ _ _ _).
  assert (A1 : allowed (BookmarksGetSubTree f)) by (by left).
  assert (A2 : allowed WindowsCreate) by (right; by left).
  assert (A3 : allowed (TabsQuery (br_next (env st)))) by (right; right; by left).
  assert (A4 : allowed (StorageSet STORAGE_KEY)) by (right; right; right; by left).
  assert (A5 : allowed (StorageSet FOLDER_LAST_USED_KEY))
    by (right; right; right; right; by left).
  assert (A6 : allowed (TabsRemove (S (br_next (env st)))))
    by (right; right; right; right; right; by left).
  unfold openFolderAsNewWindow.
  apply within_bind; [unfold bookmarks_getSubTree; by within_api |].
  intros bookmarks sa Ha.
  apply bookmarks_getSubTree_Ok in Ha as (kids & Hk & -> & ->).
  destruct (decide _) as [Hlen|Hlen].
  - apply within_bind; [unfold windows_create; by within_api |].
    intros w sb Hb.
    apply within_bind; [apply within_modify | intros _ sc _].
    apply within_bind; [by apply within_saveWindowMappings | intros [] sd _].
    apply within_bind; [by apply within_updateFolderLastUsed | intros [] se _].
    apply within_ret.
  - apply within_bind; [apply within_silent; intros s; by exists (ext s), s |].
    intros e s0 [= <- <-].
    apply within_bind; [unfold windows_create; by within_api |].
    intros w sb Hb. apply windows_create_Ok in Hb as (-> & Htabs & _). simpl in *.
    apply within_bind; [unfold tabs_query; by within_api |].
    intros initialTabs sc Hc. apply tabs_query_Ok in Hc as [-> ->].
    rewrite Htabs, lookup_insert_eq. simpl.
    apply within_bind; [apply within_modify | intros _ sd _].
    apply within_bind; [by apply within_saveWindowMappings | intros [] se _].
    apply within_bind; [by apply within_updateFolderLastUsed | intros [] se' _].
    apply within_bind.
    { apply within_open_loop. intros b Hb.
      apply list_elem_of_filter in Hb as [Hop Hb].
      destruct (openable_url _ Hop) as (u & Hu & Hbu & Hord).
      rewrite Hbu. simpl. repeat right. exists (item b), u.
      rewrite Hk. simpl. split; [| done].
      apply elem_of_snapshot in Hb. by eapply list_elem_of_lookup_2. }
    intros [] sf _.
    apply within_bind; [unfold tabs_remove; by within_api | intros [] sg _].
    apply within_ret.
Qed.

Lemma opening_a_folder_only_builds_the_window_witness :
  let st := Demo.failing 5
              (Demo.start [Demo.entry 21 Demo.A; Demo.entry 22 Demo.B] [Demo.page 11 Demo.A]) in
  let st' := (openFolderAsNewWindow 10 "Group" st).2 in
  bookmark_side st' = bookmark_side st ∧ lock_view st' = lock_view st.
Proof.
  intros st st'.
  destruct (openFolderAsNewWindow 10 "Group" st) as [r s] eqn:E.
  destruct (opening_a_folder_only_builds_the_window 10 "Group" st s r E) as (H1 & H2 & _).
  by split.
Defined.

(** *** The listeners *)

Lemma guard_ok_on_tab w st : guard_ok st → guard_ok (on_tab w st).
Proof.
  intros Hg. unfold on_tab. destruct (_ !! w); [by apply guard_ok_sync_tabs | done].
Qed.

Lemma guard_ok_on_bookmark f st : guard_ok st → guard_ok (on_bookmark f st).
Proof.
  intros Hg. unfold on_bookmark.
  destruct (find_window _ f); [by apply guard_ok_sync_bookmarks | done].
Qed.

Lemma guard_ok_run_task t st r st' :
  suspended st = [] → run_task t (with_ext (set_isSyncing true) st) = (r, st') →
  guard_ok st'.
Proof.
  intros Hq E. apply run_task_split in E as (mid & Hbody & ->).
  apply task_body_keeps_guard in Hbody. injection Hbody as E1 E2 E3 E4.
  apply guard_ok_exit; simpl in *; congruence.
Qed.

Lemma on_tab_deferred w st :
  isSyncing (ext st) = true → on_tab w st = st ∨ on_tab w st = deferred w st.
Proof.
  intros Hs. unfold on_tab. destruct (windowMappings (ext st) !! w) as [m|] eqn:Hm; [| by left].
  right. by apply (sync_tabs_deferred w m).
Qed.

Lemma on_bookmark_deferred f st :
  isSyncing (ext st) = true →
  on_bookmark f st = st ∨ ∃ w, on_bookmark f st = deferred w st.
Proof.
  intros Hs. unfold on_bookmark.
  destruct (find_window (windowMappings (ext st)) f) as [w|] eqn:Hm; [| by left].
  right. exists w. by apply sync_bookmarks_deferred.
Qed.

(** X12.  The listeners keep the guard's invariant: in a state with at most
    one pass in flight, whichever listener fires, at most one pass is in
    flight afterwards.  While the flag is set, a tab or bookmark listener
    makes no browser call and queues nothing: it leaves the state alone or
    adds a window to the pending set, [bookmarks.onMoved] at most two. *)
Theorem listeners_respect_the_guard (l : listener) (st : state) :
  guard_ok st →
  guard_ok (listen l st) ∧
  (isSyncing (ext st) = true → (∀ w, l ≠ WindowsOnRemoved w) →
     ∃ ws, length ws ≤ 2 ∧ listen l st = all_deferred ws st).
Proof.
  intros Hg. split.
  - destruct l as [w|w closing|w ci|w|w|w|w|url f|f|p o]; simpl;
      try (by apply guard_ok_on_tab); try (by apply guard_ok_on_bookmark).
    + destruct (_ !! w); [| done]. destruct closing; [done |]. by apply guard_ok_sync_tabs.
    + destruct (_ !! w); [| done].
      destruct (relevant ci); [by apply guard_ok_sync_tabs | done].
    + destruct (_ !! w); [| done].
      destruct (disassociateWindow w st) as [r st'] eqn:E.
      by apply (preserves_guard_of_keeps _ (disassociate_keeps_lock w)) in E.
    + destruct (from_option truthy false url); [by apply guard_ok_on_bookmark | done].
    + unfold bookmarks_onMoved.
      destruct (find_window _ p) as [w|]; [| by apply guard_ok_on_bookmark].
      destruct (isSyncing (ext st)) eqn:Hs.
      * by apply guard_ok_on_bookmark, guard_ok_sync_bookmarks.
      * destruct Hg as [[_ Hq]|[? _]]; [| congruence].
        destruct (run_task _ _) as [[[]|] st1] eqn:E;
          apply guard_ok_run_task in E; try done.
        by apply guard_ok_on_bookmark.
  - intros Hs Hl.
    assert (Htab : ∀ w, ∃ ws, length ws ≤ 2 ∧ on_tab w st = all_deferred ws st).
    { intros w. destruct (on_tab_deferred w st Hs) as [-> | ->];
        [exists [] | exists [w]]; simpl; split; (lia || done). }
    assert (Hbm : ∀ f, ∃ ws, length ws ≤ 2 ∧ on_bookmark f st = all_deferred ws st).
    { intros f. destruct (on_bookmark_deferred f st Hs) as [-> | [w ->]];
        [exists [] | exists [w]]; simpl; split; (lia || done). }
    destruct l as [w|w closing|w ci|w|w|w|w|url f|f|p o]; simpl; try done.
    + destruct (windowMappings (ext st) !! w) as [m|] eqn:Hm;
        [| exists []; simpl; split; [lia | done]].
      destruct closing; [exists []; simpl; split; [lia | done] |].
      exists [w]. simpl. split; [lia |]. by apply (sync_tabs_deferred w m).
    + destruct (windowMappings (ext st) !! w) as [m|] eqn:Hm;
        [| exists []; simpl; split; [lia | done]].
      destruct (relevant ci); [| exists []; simpl; split; [lia | done]].
      exists [w]. simpl. split; [lia |]. by apply (sync_tabs_deferred w m).
    + by destruct (Hl w).
    + destruct (from_option truthy false url); [done |].
      exists []. simpl. split; [lia | done].
    + unfold bookmarks_onMoved.
      destruct (find_window (windowMappings (ext st)) p) as [w|] eqn:Hp; [| done].
      rewrite Hs, (sync_bookmarks_deferred p w st Hp Hs).
      destruct (on_bookmark_deferred o (deferred w st) Hs) as [-> | [w' ->]].
      * exists [w]. simpl. split; [lia | done].
      * exists [w'; w]. simpl. split; [lia | done].
Qed.

Lemma listeners_respect_the_guard_witness :
  let st := run_events [TabNotification 1] (Demo.start [] [Demo.page 11 Demo.A]) in
  guard_ok (listen (BookmarksOnMoved 10 10) st) ∧
  ∃ ws, length ws ≤ 2 ∧ listen (BookmarksOnMoved 10 10) st = all_deferred ws st.
Proof.
  intros st.
  assert (Hg : guard_ok st) by (right; split; [reflexivity | by eexists]).
  destruct (listeners_respect_the_guard (BookmarksOnMoved 10 10) st Hg) as [H1 H2].
  split; [exact H1 |]. apply H2; [reflexivity | intros w; discriminate].
Defined.

(** X13.  Closing a synced window keeps its bookmarks: the removals of its
    tabs, flagged [isWindowClosing], start no pass, and [windows.onRemoved]
    only deletes the mapping.  Every folder's children, the pinned sets and
    the guard are as before, and the window is no longer mapped. *)
Theorem closing_a_window_keeps_its_bookmarks (w n : nat) (st : state) :
  let st' := listen (WindowsOnRemoved w)
               (Nat.iter n (listen (TabsOnRemoved w true)) st) in
  br_bookmarks (env st') = br_bookmarks (env st) ∧
  br_tabs (env st') = br_tabs (env st) ∧
  pinned_view st' = pinned_view st ∧
  lock_view st' = lock_view st ∧
  windowMappings (ext st') = delete w (windowMappings (ext st)).
Proof.
  assert (Hn : Nat.iter n (listen (TabsOnRemoved w true)) st = st).
  { induction n as [|n IH]; [done |]. simpl. rewrite IH.
    by destruct (windowMappings (ext st) !! w). }
  simpl. rewrite Hn.
  destruct (windowMappings (ext st) !! w) as [m|] eqn:Hm.
  - unfold disassociateWindow, saveWindowMappings, modify_ext, get_ext, api,
      mbind, M_bind. simpl.
    destruct (br_fail (env st) (br_clock (env st))); simpl; by repeat split.
  - repeat split. by rewrite delete_id.
Qed.

Lemma run_task_guard t st r st' :
  run_task t st = (r, st') →
  windowMappings (ext st') = windowMappings (ext st) ∧
  isSyncing (ext st') =
    match pendingSyncs (ext st) with
    | [] => false
    | next :: _ => bool_decide (is_Some (windowMappings (ext st) !! next))
    end.
Proof.
  intros E. apply run_task_split in E as (mid & Hbody & ->).
  apply task_body_keeps_guard in Hbody. injection Hbody as E1 E2 E3 E4.
  rewrite E2. destruct (pendingSyncs (ext st)) as [|next rest]; [done |].
  unfold syncTabsToBookmarks. simpl. rewrite E4.
  by destruct (windowMappings (ext st) !! next) as [m|].
Qed.

(** X14.  [bookmarks.onMoved] with the guard free and the new parent synced:
    the bookmark to tab pass of the new parent runs first.  When it throws
    the listener ends there and the old parent is never looked at.  When it
    returns, the old parent's pass is requested on the state the first pass
    left: it is admitted, unless the first pass handed the guard to a
    pending window, in which case the old parent's window only joins the
    pending set (and will be served by a tab to bookmark pass). *)
Theorem moved_bookmark_syncs_new_parent_first
    (p o w : nat) (st st1 : state) (r : outcome unit) :
  isSyncing (ext st) = false →
  find_window (windowMappings (ext st)) p = Some w →
  run_task (BookmarksToTabs p w) (with_ext (set_isSyncing true) st) = (r, st1) →
  match r with
  | Throw => listen (BookmarksOnMoved p o) st = st1
  | Ok _ =>
      ∀ w', find_window (windowMappings (ext st)) o = Some w' →
        listen (BookmarksOnMoved p o) st =
          match pendingSyncs (ext st) with
          | [] => admitted (BookmarksToTabs o w') st1
          | next :: _ =>
              if decide (is_Some (windowMappings (ext st) !! next))
              then deferred w' st1
              else admitted (BookmarksToTabs o w') st1
          end
  end.
Proof.
  intros Hs Hp E. simpl. unfold bookmarks_onMoved. rewrite Hp, Hs, E.
  destruct r as [[]|]; [| done].
  intros w' Ho. apply run_task_guard in E as [Hm Hs1]. simpl in Hm, Hs1.
  unfold on_bookmark. rewrite Hm, Ho.
  destruct (pendingSyncs (ext st)) as [|next rest].
  - apply sync_bookmarks_admitted; [by rewrite Hm | done].
  - destruct (decide (is_Some (windowMappings (ext st) !! next))) as [Hn|Hn].
    + rewrite bool_decide_true in Hs1 by done.
      apply sync_bookmarks_deferred; [by rewrite Hm | done].
    + rewrite bool_decide_false in Hs1 by done.
      apply sync_bookmarks_admitted; [by rewrite Hm | done].
Qed.

Lemma moved_bookmark_syncs_new_parent_first_witness :
  let st := Demo.failing 1 (Demo.start [Demo.entry 21 Demo.A] [Demo.page 11 Demo.A]) in
  listen (BookmarksOnMoved 10 10) st
  = (run_task (BookmarksToTabs 10 1) (with_ext (set_isSyncing true) st)).2.
Proof.
  intros st.
  destruct (run_task (BookmarksToTabs 10 1) (with_ext (set_isSyncing true) st))
    as [r st1] eqn:E.
  assert (Hp : find_window (windowMappings (ext st)) 10 = Some 1) by (vm_compute; reflexivity).
  pose proof (moved_bookmark_syncs_new_parent_first 10 10 1 st st1 r eq_refl Hp E) as H.
  assert (r = Throw) as -> by (vm_compute in E; by injection E as <- _).
  exact H.
Defined.

(** *** Start-up *)

Lemma Set_of_from (l : list string) : ∀ acc,
  NoDup acc →
  NoDup (foldl (λ s x, set_add x s) acc l) ∧
  ∀ u, u ∈ foldl (λ s x, set_add x s) acc l ↔ u ∈ acc ∨ u ∈ l.
Proof.
  induction l as [|x l IH]; intros acc Hnd; simpl.
  - split; [done |]. intros u. rewrite elem_of_nil. tauto.
  - destruct (IH (set_add x acc)) as [H1 H2].
    { unfold set_add. destruct (decide (x ∈ acc)); [done |].
      apply NoDup_app. split; [done |]. split; [| apply NoDup_singleton].
      intros y Hy ->%list_elem_of_singleton. done. }
    split; [done |]. intros u. rewrite H2, elem_of_set_add, elem_of_cons. tauto.
Qed.

Lemma Set_of_spec l : NoDup (Set_of l) ∧ ∀ u, u ∈ Set_of l ↔ u ∈ l.
Proof.
  destruct (Set_of_from l [] (NoDup_nil_2)) as [H1 H2]. split; [done |].
  intros u. rewrite H2, elem_of_nil. tauto.
Qed.

Lemma Set_of_id_from (l : list string) : ∀ acc,
  NoDup (acc ++ l) → foldl (λ s x, set_add x s) acc l = acc ++ l.
Proof.
  induction l as [|x l IH]; intros acc Hnd; simpl.
  - by rewrite app_nil_r.
  - apply NoDup_app in Hnd as (Ha & Hdis & Hl).
    unfold set_add at 2. rewrite decide_False.
    + rewrite IH; [by rewrite <- app_assoc |]. rewrite <- app_assoc. simpl.
      apply NoDup_app. done.
    + intros Hx. apply (Hdis x Hx). apply list_elem_of_here.
Qed.

Lemma Set_of_id l : NoDup l → Set_of l = l.
Proof. intros Hnd. by apply (Set_of_id_from l []). Qed.

Lemma await_read_Ok {A} (read : browser → A) st a st' :
  await_read read st = (Ok a, st') → a = read (env st) ∧ st' = with_env ticked st.
Proof. unfold await_read. destruct (br_fail _ _); [discriminate |]. by intros [= <- <-]. Qed.

Lemma elem_of_windows (tabs : gmap nat (list tab)) w :
  w ∈ (map_to_list tabs).*1 ↔ is_Some (tabs !! w).
Proof.
  rewrite list_elem_of_fmap. split.
  - intros ([k v] & -> & Hin). apply elem_of_map_to_list in Hin. by exists v.
  - intros [v Hv]. exists (w, v). split; [done |]. by apply elem_of_map_to_list.
Qed.

Lemma initialize_Ok st st' :
  initialize st = (Ok tt, st') →
  let data := br_storage (env st) in
  windowMappings (ext st')
    = filter (λ kv, kv.1 ∈ (map_to_list (br_tabs (env st))).*1)
             (default ∅ (stored_mappings data)) ∧
  pinnedTabsByFolder (ext st') = Set_of <$> default ∅ (stored_pinned data) ∧
  folderLastUsed (ext st') = default ∅ (stored_lastUsed data) ∧
  br_storage (env st')
    = Storage (Some (windowMappings (ext st'))) (stored_pinned data) (stored_lastUsed data) ∧
  lock_view st' = lock_view st ∧
  br_bookmarks (env st') = br_bookmarks (env st) ∧
  br_tabs (env st') = br_tabs (env st).
Proof.
  unfold initialize. intros H.
  apply bind_Ok in H as (data & s1 & H1 & H).
  apply await_read_Ok in H1 as [-> ->].
  apply bind_Ok in H as ([] & s2 & [= <-] & H).
  apply bind_Ok in H as ([] & s3 & [= <-] & H).
  apply bind_Ok in H as ([] & s4 & [= <-] & H).
  apply bind_Ok in H as (windows & s5 & H5 & H).
  apply await_read_Ok in H5 as [-> ->].
  apply bind_Ok in H as ([] & s6 & [= <-] & H).
  unfold saveWindowMappings in H.
  apply bind_Ok in H as (e & s7 & [= <- <-] & H).
  apply api_Ok in H as (b' & [= <-] & ->). simpl. done.
Qed.

(** X15.  What [initialize] leaves when it returns: the mappings are the
    stored ones of the windows that are still open, and they are written
    back, so that memory and storage agree; every folder's pinned set has
    exactly the urls of its stored array, each once; the time stamps are the
    stored ones.  A missing record counts as empty.  Bookmarks, tabs, the
    other stored records and the guard are not touched. *)
Theorem startup_loads_storage_and_drops_closed_windows (st st' : state) :
  initialize st = (Ok tt, st') →
  let data := br_storage (env st) in
  (∀ w m, windowMappings (ext st') !! w = Some m ↔
          default ∅ (stored_mappings data) !! w = Some m ∧
          is_Some (br_tabs (env st) !! w)) ∧
  stored_mappings (br_storage (env st')) = Some (windowMappings (ext st')) ∧
  (∀ f, match default ∅ (stored_pinned data) !! f with
        | Some array =>
            ∃ s, pinnedTabsByFolder (ext st') !! f = Some s ∧ NoDup s ∧
                 ∀ u, u ∈ s ↔ u ∈ array
        | None => pinnedTabsByFolder (ext st') !! f = None
        end) ∧
  folderLastUsed (ext st') = default ∅ (stored_lastUsed data) ∧
  stored_pinned (br_storage (env st')) = stored_pinned data ∧
  stored_lastUsed (br_storage (env st')) = stored_lastUsed data ∧
  br_bookmarks (env st') = br_bookmarks (env st) ∧
  br_tabs (env st') = br_tabs (env st) ∧
  lock_view st' = lock_view st.
Proof.
  intros H data. apply initialize_Ok in H as (Hm & Hp & Hl & Hs & Hlock & Hb & Ht).
  fold data in Hm, Hp, Hl, Hs.
  split; [| split; [by rewrite Hs | split; [| by rewrite Hs]]].
  - intros w m. rewrite Hm, map_lookup_filter_Some. simpl.
    by rewrite elem_of_windows.
  - intros f. rewrite Hp, lookup_fmap.
    destruct (default ∅ (stored_pinned data) !! f) as [array|]; [| done].
    exists (Set_of array). split; [done |]. apply Set_of_spec.
Qed.

Lemma startup_loads_storage_and_drops_closed_windows_witness :
  let st := with_env (set_storage
              (Storage (Some {[ 1 := Mapping 10 "Group"; 2 := Mapping 20 "Gone" ]})
                       (Some {[ 10 := [Demo.A; Demo.B; Demo.A] ]}) None))
              (Demo.start [] [Demo.page 11 Demo.A]) in
  let st' := (initialize st).2 in
  windowMappings (ext st') !! 1 = Some (Mapping 10 "Group") ∧
  windowMappings (ext st') !! 2 = None ∧
  stored_mappings (br_storage (env st')) = Some (windowMappings (ext st')).
Proof.
  intros st st'.
  assert (E : initialize st = (Ok tt, st')) by (vm_compute; reflexivity).
  destruct (startup_loads_storage_and_drops_closed_windows st st' E) as (H1 & H2 & _).
  split; [| split; [| exact H2]].
  - apply H1. split; [reflexivity | by eexists].
  - destruct (windowMappings (ext st') !! 2) as [m|] eqn:E2; [| reflexivity].
    apply H1 in E2 as [_ [ts Hts]]. vm_compute in Hts. discriminate.
Defined.

(** X16.  A restart restores what was saved.  When storage holds the
    mappings, the pinned sets and the time stamps as the script has them,
    a script loaded afresh and initialised has the same pinned sets, with
    their urls in the same order, the same time stamps, and the mappings of
    the windows that are still open; the guard is free. *)
Theorem restart_restores_the_saved_state (st st' : state) :
  (∀ f s, pinnedTabsByFolder (ext st) !! f = Some s → NoDup s) →
  br_storage (env st)
    = Storage (Some (windowMappings (ext st))) (Some (pinnedTabsByFolder (ext st)))
              (Some (folderLastUsed (ext st))) →
  initialize (State script_start (env st) []) = (Ok tt, st') →
  pinnedTabsByFolder (ext st') = pinnedTabsByFolder (ext st) ∧
  folderLastUsed (ext st') = folderLastUsed (ext st) ∧
  (∀ w, windowMappings (ext st') !! w =
        if decide (is_Some (br_tabs (env st) !! w))
        then windowMappings (ext st) !! w else None) ∧
  lock_view st' = (false, [], []).
Proof.
  intros Hnd Hs H. apply initialize_Ok in H as (Hm & Hp & Hl & _ & Hlock & _).
  simpl in *. rewrite Hs in Hm, Hp, Hl. simpl in *.
  split; [| split; [done | split; [| done]]].
  - rewrite Hp. apply map_eq. intros f. rewrite lookup_fmap.
    destruct (pinnedTabsByFolder (ext st) !! f) as [s|] eqn:E; [| done].
    simpl. f_equal. apply Set_of_id. by apply (Hnd f).
  - intros w. rewrite Hm. apply option_eq. intros m.
    rewrite map_lookup_filter_Some. simpl. rewrite elem_of_windows.
    destruct (decide (is_Some (br_tabs (env st) !! w))); [tauto |].
    split; [tauto | done].
Qed.

Lemma restart_restores_the_saved_state_witness :
  let st0 := with_ext (set_pinnedTabsByFolder {[ 10 := [Demo.B; Demo.A] ]})
               (Demo.start [] [Demo.page 11 Demo.A]) in
  let st := with_env (set_storage
              (Storage (Some (windowMappings (ext st0))) (Some (pinnedTabsByFolder (ext st0)))
                       (Some (folderLastUsed (ext st0))))) st0 in
  pinnedTabsByFolder (ext (initialize (State script_start (env st) [])).2)
  = pinnedTabsByFolder (ext st).
Proof.
  intros st0 st.
  destruct (initialize (State script_start (env st) [])) as [r st'] eqn:E.
  assert (r = Ok tt) as -> by (vm_compute in E; by injection E as <- _).
  assert (Hnd : ∀ f s, pinnedTabsByFolder (ext st) !! f = Some s → NoDup s).
  { intros f s Hf.
    change (({[ 10 := [Demo.B; Demo.A] ]} : gmap nat (list string)) !! f = Some s) in Hf.
    apply lookup_singleton_Some in Hf as [_ <-].
    apply (bool_decide_unpack _). by vm_compute. }
  by destruct (restart_restores_the_saved_state st st' Hnd eq_refl E) as [H _].
Defined.

(** *** popup.js: the list of folders *)

Lemma sort_insert_perm x l : sort_insert x l ≡ₚ x :: l.
Proof.
  induction l as [|y l IH]; simpl; [done |].
  destruct (decide _); [| done]. rewrite IH. apply perm_swap.
Qed.

Lemma sort_by_lastUsed_perm l : sort_by_lastUsed l ≡ₚ l.
Proof.
  induction l as [|x l IH]; simpl; [done |]. by rewrite sort_insert_perm, IH.
Qed.

Lemma sort_insert_sorted x l : recent_first l → recent_first (sort_insert x l).
Proof.
  unfold recent_first. induction l as [|y l IH]; intros Hs; simpl.
  - by repeat constructor.
  - apply StronglySorted_inv in Hs as [Hs Hy]. destruct (decide _) as [Hlt|Hge].
    + constructor; [by apply IH |].
      apply Forall_forall. intros z Hz. rewrite sort_insert_perm in Hz.
      apply elem_of_cons in Hz as [-> | Hz]; [lia |].
      rewrite Forall_forall in Hy. by apply Hy.
    + constructor; [by constructor |].
      constructor; [lia |]. eapply Forall_impl; [exact Hy |]. simpl. intros z Hz. lia.
Qed.

Lemma sort_by_lastUsed_sorted l : recent_first (sort_by_lastUsed l).
Proof.
  induction l as [|x l IH]; simpl; [constructor | by apply sort_insert_sorted].
Qed.

Lemma sort_insert_stable k x l :
  filter (λ e, f_lastUsed e = k) (sort_insert x l) = filter (λ e, f_lastUsed e = k) (x :: l).
Proof.
  induction l as [|y l IH]; simpl; [done |].
  destruct (decide (f_lastUsed x < f_lastUsed y)) as [Hlt|Hge]; [| done].
  rewrite (filter_cons _ y), IH, !filter_cons.
  destruct (decide (f_lastUsed y = k)), (decide (f_lastUsed x = k)); try done. lia.
Qed.

Lemma sort_by_lastUsed_stable k l :
  filter (λ e, f_lastUsed e = k) (sort_by_lastUsed l) = filter (λ e, f_lastUsed e = k) l.
Proof.
  induction l as [|x l IH]; simpl; [done |].
  by rewrite sort_insert_stable, !filter_cons, IH.
Qed.

(** X17.  The folder list of the popup is the traversal's list, most
    recently used first: no folder is lost or doubled by the sort, a folder
    never comes before one used later, and folders with the same time stamp
    (those never used, above all) keep the order in which the traversal met
    them. *)
Theorem folder_list_is_sorted_by_last_use
    (folderLastUsed : gmap string nat) (bookmarkTree : list node) :
  let found := traverseTree folderLastUsed bookmarkTree 0 in
  let shown := loadBookmarkFolders folderLastUsed bookmarkTree in
  shown ≡ₚ found ∧
  recent_first shown ∧
  (∀ i j a b, shown !! i = Some a → shown !! j = Some b → i < j →
              f_lastUsed b ≤ f_lastUsed a) ∧
  (∀ k, filter (λ e, f_lastUsed e = k) shown = filter (λ e, f_lastUsed e = k) found).
Proof.
  intros found shown. unfold shown, loadBookmarkFolders. fold found.
  split; [apply sort_by_lastUsed_perm |]. split; [apply sort_by_lastUsed_sorted |].
  split; [| intros k; apply sort_by_lastUsed_stable].
  intros i j a b Hi Hj Hlt.
  pose proof (sort_by_lastUsed_sorted found) as Hs. unfold recent_first in Hs.
  rewrite <- (take_drop j (sort_by_lastUsed found)) in Hs.
  apply (StronglySorted_app_1_elem_of _ _ _ a b Hs).
  - apply list_elem_of_lookup. exists i. by rewrite lookup_take_lt.
  - apply list_elem_of_lookup. exists 0. by rewrite lookup_drop, Nat.add_0_r.
Qed.

Lemma node_nested_ind (P : node → Prop) :
  (∀ n, (∀ cs, node_children n = Some cs → Forall P cs) → P n) → ∀ n, P n.
Proof.
  intros H. fix IH 1. intros [id title type url children]. apply H. simpl.
  destruct children as [cs'|]; [| discriminate]. intros cs [= <-].
  revert cs'. fix IHl 1. intros [|c cs']; constructor; [apply IH | apply IHl].
Qed.

Lemma traverseTree_cons lu n nodes d :
  traverseTree lu (n :: nodes) d = traverse_node lu d n ++ traverseTree lu nodes d.
Proof. reflexivity. Qed.

Lemma traverse_node_unfold lu d n :
  traverse_node lu d n =
    if is_folder n then
      (if listable n then [entry_of lu d n] else []) ++
      match node_children n with
      | Some children => traverseTree lu children (S d)
      | None => []
      end
    else [].
Proof.
  destruct n as [id title type url [cs|]]; simpl; [| done].
  destruct (is_folder _); [| done]. by f_equal.
Qed.

Lemma elem_of_traverseTree lu nodes d e :
  e ∈ traverseTree lu nodes d ↔ ∃ n, n ∈ nodes ∧ e ∈ traverse_node lu d n.
Proof.
  unfold traverseTree. rewrite list_elem_of_bind. naive_solver.
Qed.

Lemma met_entry lu n d nodes depth :
  met n d nodes depth → is_folder n = true → listable n = true →
  entry_of lu d n ∈ traverseTree lu nodes depth.
Proof.
  intros Hmet Hf Hl. induction Hmet as [nodes Hn | nodes depth p cs Hp Hpf Hpc Hmet IH].
  - apply elem_of_traverseTree. exists n. split; [done |].
    rewrite traverse_node_unfold, Hf, Hl. apply elem_of_app. left. apply list_elem_of_here.
  - apply elem_of_traverseTree. exists p. split; [done |].
    rewrite traverse_node_unfold, Hpf, Hpc. apply elem_of_app. by right.
Qed.

Lemma traverse_node_met lu n : ∀ d e,
  e ∈ traverse_node lu d n →
  ∃ m, met m (f_depth e) [n] d ∧ is_folder m = true ∧ listable m = true ∧
       e = entry_of lu (f_depth e) m.
Proof.
  induction n as [n IH] using node_nested_ind. intros d e.
  rewrite traverse_node_unfold. destruct (is_folder n) eqn:Hf; [| by intros ?%not_elem_of_nil].
  intros [He | He]%elem_of_app.
  - destruct (listable n) eqn:Hl; [| by apply not_elem_of_nil in He].
    apply list_elem_of_singleton in He as ->. exists n. simpl.
    split; [apply met_here, list_elem_of_here | done].
  - destruct (node_children n) as [cs|] eqn:Hc; [| by apply not_elem_of_nil in He].
    apply elem_of_traverseTree in He as (c & Hcin & He).
    specialize (IH cs eq_refl). rewrite Forall_forall in IH.
    destruct (IH c Hcin _ _ He) as (m & Hmet & Hm).
    exists m. split; [| done].
    apply (met_below _ _ _ _ n cs); [apply list_elem_of_here | done | done |].
    inversion Hmet as [? Hin | ? ? p cs' Hp Hpf Hpc Hbelow]; subst.
    + apply list_elem_of_singleton in Hin as ->. by apply met_here.
    + apply list_elem_of_singleton in Hp as ->. by eapply met_below.
Qed.

Lemma met_depth n d nodes depth : met n d nodes depth → depth ≤ d.
Proof. induction 1; lia. Qed.

(** X18.  Which folders the popup lists.  An entry is in the list exactly
    when the traversal meets a node for it: one that is a folder (by its
    type, or by having children and no url), whose identifier is none of
    the browser's five roots and whose title is not empty, reached from the
    top through folders only; the entry carries the node's identifier and
    title, the depth at which the node was met, roots counted, and the
    folder's time stamp, 0 when it has none. *)
Theorem folder_list_holds_the_folders_met
    (folderLastUsed : gmap string nat) (bookmarkTree : list node) (e : folder_entry) :
  (e ∈ loadBookmarkFolders folderLastUsed bookmarkTree ↔
   (∃ n, met n (f_depth e) bookmarkTree 0 ∧ is_folder n = true ∧ listable n = true ∧
         e = entry_of folderLastUsed (f_depth e) n)) ∧
  (e ∈ loadBookmarkFolders folderLastUsed bookmarkTree →
   (f_id e ∉ rootFolderIds) ∧ f_title e ≠ "" ∧
   f_lastUsed e = default 0 (folderLastUsed !! f_id e)).
Proof.
  assert (Hiff : e ∈ loadBookmarkFolders folderLastUsed bookmarkTree ↔
     ∃ n, met n (f_depth e) bookmarkTree 0 ∧ is_folder n = true ∧ listable n = true ∧
          e = entry_of folderLastUsed (f_depth e) n).
  { unfold loadBookmarkFolders. rewrite sort_by_lastUsed_perm. split.
    - intros (n & Hn & He)%elem_of_traverseTree.
      destruct (traverse_node_met _ _ _ _ He) as (m & Hmet & Hf & Hl & Hm).
      exists m. split; [| done].
      inversion Hmet as [? Hin | ? ? p cs' Hp Hpf Hpc Hbelow]; subst.
      + apply list_elem_of_singleton in Hin as ->. by apply met_here.
      + apply list_elem_of_singleton in Hp as ->. by eapply met_below.
    - intros (n & Hmet & Hf & Hl & ->). simpl in *. by apply met_entry. }
  split; [exact Hiff |].
  intros (n & _ & _ & Hl & ->)%Hiff. simpl.
  unfold listable in Hl. apply andb_true_iff in Hl as [Hroot Htitle].
  split; [| split; [| done]].
  - unfold set_has in Hroot. apply negb_true_iff, bool_decide_eq_false in Hroot. done.
  - intros Ht. rewrite Ht in Htitle. done.
Qed.

(** X19.  Depth counts the browser's own folders.  In a tree shaped like
    Firefox's, where the top node and its children are roots that are not
    listed, every folder in the popup's list has depth 2 or more: the first
    level of the user's folders is shown indented by two steps. *)
Theorem listed_folders_sit_below_the_roots
    (folderLastUsed : gmap string nat) (bookmarkTree : list node) (e : folder_entry) :
  (∀ n, n ∈ bookmarkTree → listable n = false) →
  (∀ n children c, n ∈ bookmarkTree → node_children n = Some children → c ∈ children →
                   listable c = false) →
  e ∈ loadBookmarkFolders folderLastUsed bookmarkTree →
  2 ≤ f_depth e.
Proof.
  intros Htop Hsecond He.
  unfold loadBookmarkFolders in He. rewrite sort_by_lastUsed_perm in He.
  apply elem_of_traverseTree in He as (n & Hn & He).
  destruct (traverse_node_met _ _ _ _ He) as (m & Hmet & _ & Hl & _).
  inversion Hmet as [? Hin | ? ? p cs Hp Hpf Hpc Hbelow]; subst.
  - apply list_elem_of_singleton in Hin as ->. rewrite (Htop n Hn) in Hl. discriminate.
  - apply list_elem_of_singleton in Hp as ->.
    inversion Hbelow as [? Hin | ? ? q cs' Hq Hqf Hqc Hdeep]; subst.
    + rewrite (Hsecond n cs m Hn Hpc Hin) in Hl. discriminate.
    + by apply met_depth in Hdeep.
Qed.

Lemma listed_folders_sit_below_the_roots_witness :
  let work := Node "w1" "Work" (Some "folder") None (Some []) in
  let menu := Node "menu________" "Bookmarks Menu" (Some "folder") None (Some [work]) in
  let root := Node "root________" "" (Some "folder") None (Some [menu]) in
  FolderEntry "w1" "Work" 2 0 ∈ loadBookmarkFolders ∅ [root] ∧
  2 ≤ f_depth (FolderEntry "w1" "Work" 2 0).
Proof.
  intros work menu root.
  assert (Hin : FolderEntry "w1" "Work" 2 0 ∈ loadBookmarkFolders ∅ [root]).
  { assert (loadBookmarkFolders ∅ [root] = [FolderEntry "w1" "Work" 2 0]) as ->
      by (vm_compute; reflexivity).
    apply list_elem_of_here. }
  split; [exact Hin |].
  apply (listed_folders_sit_below_the_roots ∅ [root]); [| | exact Hin].
  - intros n ->%list_elem_of_singleton. reflexivity.
  - intros n children c ->%list_elem_of_singleton [= <-] ->%list_elem_of_singleton.
    reflexivity.
Defined.

(** *** A tab to bookmark pass that throws, and the pinned sets *)

#[export] Hint Extern 1 (keeps pinned_view (api _ _)) => frame_op : frames.

Lemma t2b_tab_keeps_pinned m byUrl acc t : keeps pinned_view (t2b_tab m byUrl acc t).
Proof. unfold t2b_tab. frame. Qed.

Lemma t2b_cleanup_keeps_pinned seen existing : keeps pinned_view (t2b_cleanup seen existing).
Proof. unfold t2b_cleanup. frame. Qed.

Lemma throw_bind_keeps {A B X} (proj : state → X) (c : M A) (k : A → M B) st st' :
  keeps proj c → (c ≫= k) st = (Throw, st') →
  proj st' = proj st ∨
  ∃ a s1, proj s1 = proj st ∧ k a s1 = (Throw, st').
Proof.
  intros Hc. rewrite bind_unfold. destruct (c st) as [[a|] s1] eqn:E.
  - intros Hk. right. exists a, s1. split; [by eapply Hc | done].
  - intros [= <-]. left. by eapply Hc.
Qed.

Lemma exit_env mid :
  env (match pendingSyncs (ext mid) with
       | [] => with_ext (set_isSyncing false) mid
       | next :: rest =>
           syncTabsToBookmarks next
             (with_ext (set_pendingSyncs rest) (with_ext (set_isSyncing false) mid))
       end) = env mid.
Proof. destruct (pendingSyncs (ext mid)); [done |]. by rewrite sync_tabs_env. Qed.

(** X20.  A tab to bookmark pass that throws and the pinned sets.  The
    stored pinned sets are as before the pass, and so are the pinned sets
    in memory, unless the call that rejected was the final save of the
    pinned sets itself: only then do memory and storage part. *)
Theorem failed_tab_sync_keeps_pinned_sets_until_the_save
    (w : nat) (m : mapping) (st st' : state) :
  run_task (TabsToBookmarks w m) st = (Throw, st') →
  stored_pinned (br_storage (env st')) = stored_pinned (br_storage (env st)) ∧
  (pinnedTabsByFolder (ext st') = pinnedTabsByFolder (ext st) ∨
   head (br_log (env st')) = Some (StorageSet PINNED_TABS_KEY, false)).
Proof.
  intros E. apply run_task_split in E as (mid & Hbody & ->).
  rewrite exit_env.
  assert (Hexit : ∀ s,
    pinnedTabsByFolder (ext (match pendingSyncs (ext s) with
       | [] => with_ext (set_isSyncing false) s
       | next :: rest =>
           syncTabsToBookmarks next
             (with_ext (set_pendingSyncs rest) (with_ext (set_isSyncing false) s))
       end)) = pinnedTabsByFolder (ext s)).
  { intros s. destruct (pendingSyncs (ext s)); [done |]. by rewrite sync_tabs_pinned. }
  rewrite Hexit. clear Hexit.
  assert (Hdone : pinned_view mid = pinned_view st →
    stored_pinned (br_storage (env mid)) = stored_pinned (br_storage (env st)) ∧
    (pinnedTabsByFolder (ext mid) = pinnedTabsByFolder (ext st) ∨
     head (br_log (env mid)) = Some (StorageSet PINNED_TABS_KEY, false))).
  { intros [= H1 H2]. split; [done | by left]. }
  simpl in Hbody. unfold t2b_body in Hbody.
  apply (throw_bind_keeps pinned_view) in Hbody as [H | (tabs & s1 & H1 & Hbody)];
    [by apply Hdone | | frame].
  apply (throw_bind_keeps pinned_view) in Hbody as [H | (existing & s2 & H2 & Hbody)];
    [apply Hdone; congruence | | frame].
  apply (throw_bind_keeps pinned_view) in Hbody as [H | (acc & s3 & H3 & Hbody)];
    [apply Hdone; congruence | |].
  2:{ apply keeps_foldM. intros ? ?. apply t2b_tab_keeps_pinned. }
  apply (throw_bind_keeps pinned_view) in Hbody as [H | ([] & s4 & H4 & Hbody)];
    [apply Hdone; congruence | | apply t2b_cleanup_keeps_pinned].
  assert (H0 : pinned_view s4 = pinned_view st) by congruence.
  injection H0 as _ Hst.
  revert Hbody. unfold savePinnedTabs, modify_ext, get_ext, api, mbind, M_bind. simpl.
  destruct (br_fail (env s4) (br_clock (env s4))); [| discriminate].
  intros [= <-]. simpl. split; [done | by right].
Qed.

Lemma failed_tab_sync_keeps_pinned_sets_until_the_save_witness :
  let st := Demo.failing 2
              (Demo.start [] [Tab 11 Demo.A Demo.A true; Demo.page 12 Demo.B]) in
  let st' := (run_task (TabsToBookmarks 1 (Mapping 10 "Group")) st).2 in
  stored_pinned (br_storage (env st')) = stored_pinned (br_storage (env st)) ∧
  pinnedTabsByFolder (ext st') = pinnedTabsByFolder (ext st).
Proof.
  intros st st'.
  destruct (run_task (TabsToBookmarks 1 (Mapping 10 "Group")) st) as [r s] eqn:E.
  assert (r = Throw) as -> by (vm_compute in E; by injection E as <- _).
  destruct (failed_tab_sync_keeps_pinned_sets_until_the_save 1 _ st s E) as [H1 [H2 | H2]].
  - by split.
  - assert (s = (run_task (TabsToBookmarks 1 (Mapping 10 "Group")) st).2) as ->
      by (by rewrite E).
    vm_compute in H2. discriminate.
Defined.

(** *** The tab loop, whatever the tabs *)

Lemma t2b_weak_inv_perm kids0 done acc cur cur' next :
  cur ≡ₚ cur' → t2b_weak_inv kids0 done acc cur next → t2b_weak_inv kids0 done acc cur' next.
Proof.
  intros Hp [I1 I2 I3 I4 I5 I6 I8]. split.
  - unfold ids. by rewrite <- Hp.
  - intros b. rewrite <- Hp. apply I2.
  - intros b Hb. destruct (I3 b Hb) as (b' & ? & ?). exists b'. by rewrite <- Hp.
  - intros b. rewrite <- Hp. apply I4.
  - intros b. rewrite <- Hp. apply I5.
  - intros t Ht. destruct (I6 t Ht) as (b & ? & ?). exists b. by rewrite <- Hp.
  - done.
Qed.

Lemma t2b_weak_inv_init kids0 next :
  NoDup (ids kids0) → (∀ b, b ∈ kids0 → bm_id b < next) →
  t2b_weak_inv kids0 [] (T2bLocals [] [] 0) kids0 next.
Proof.
  intros Hnd Hf. split; simpl; try done.
  - intros b Hb. by exists b.
  - by intros b _ ?%not_elem_of_nil.
  - by intros t ?%not_elem_of_nil.
  - intros u. split; [by intros ?%not_elem_of_nil |].
    by intros (t & ?%not_elem_of_nil & _).
Qed.

(** The child found under the url of the tab is marked as seen; it gets the
    tab's title unless the snapshot already showed that title. *)
Lemma t2b_weak_inv_found kids0 done acc cur next (t : tab) (b0 : bookmark) :
  NoDup (ids kids0) →
  t2b_weak_inv kids0 done acc cur next →
  b0 ∈ kids0 → bm_url b0 = Some (tab_url t) →
  t2b_weak_inv kids0 (done ++ [t])
    (T2bLocals (set_add (bm_id b0) (seenBookmarkIds acc))
       (if tab_pinned t then set_add (tab_url t) (pinnedUrls acc) else pinnedUrls acc)
       (S (bookmarkIndex acc)))
    (if decide (bm_title b0 = tab_title t) then cur
     else alter_id (retitle (tab_title t)) (bm_id b0) cur) next.
Proof.
  intros Hnd0 [I1 I2 I3 I4 I5 I6 I8] He0 Hurl.
  destruct (I3 b0 He0) as (b' & Hb' & Hid' & Hurl').
  assert (Hsame : ∀ x, x ∈ cur → bm_id x = bm_id b0 → x = b').
  { intros x Hx E. apply (same_id_same_item cur); [done.. |].
    change (bm_id x = bm_id b'). congruence. }
  assert (Hold : ∀ t', t' ∈ done → t' ∈ done ++ [t]) by (intros; apply elem_of_app; by left).
  assert (Hlast : t ∈ done ++ [t]) by (apply elem_of_app; right; apply list_elem_of_here).
  destruct (decide (bm_title b0 = tab_title t)) as [Ht|Ht].
  - split; simpl; try done.
    + intros b Hb Hns. rewrite elem_of_set_add in Hns.
      apply I4; [done |]. intros ?. apply Hns. by right.
    + intros b Hb Hs. rewrite elem_of_set_add in Hs.
      destruct (decide (bm_id b ∈ seenBookmarkIds acc)) as [Hin|Hout].
      * destruct (I5 b Hb Hin) as (t' & Ht' & ?). exists t'. auto.
      * destruct Hs as [E|?]; [| done].
        assert (b ∈ kids0) as Hb0 by (by apply I4).
        assert (b = b0) as -> by (by apply (same_id_same_item kids0)).
        exists t. auto.
    + intros t' [Ht'|Ht']%elem_of_app.
      * destruct (I6 t' Ht') as (b & Hb & Hbs & Hbu). exists b.
        split; [done |]. split; [apply elem_of_set_add; by right | done].
      * apply list_elem_of_singleton in Ht' as ->. exists b'.
        split; [done |]. split; [apply elem_of_set_add; left; done |]. congruence.
    + by apply t2b_inv_pinned_step.
  - split; simpl.
    + by rewrite ids_alter_id.
    + intros y (x & Hx & ->)%elem_of_alter_id.
      destruct (decide _); [apply (I2 x Hx) | by apply I2].
    + intros b Hb. destruct (I3 b Hb) as (x & Hx & Hxi & Hxu).
      exists (if decide (get_id x = bm_id b0) then retitle (tab_title t) x else x).
      split; [apply elem_of_alter_id; eauto |]. by destruct (decide _).
    + intros y (x & Hx & ->)%elem_of_alter_id Hns.
      rewrite elem_of_set_add in Hns.
      destruct (decide (get_id x = bm_id b0)) as [E|Hne].
      * exfalso. apply Hns. by left.
      * apply I4; [done |]. intros ?. apply Hns. by right.
    + intros y (x & Hx & ->)%elem_of_alter_id Hs.
      rewrite elem_of_set_add in Hs.
      destruct (decide (get_id x = bm_id b0)) as [E|Hne].
      * exists t. rewrite (Hsame x Hx E). simpl. split; [done |]. split; [congruence | done].
      * destruct Hs as [?|Hs]; [done |].
        destruct (I5 x Hx Hs) as (t' & Ht' & ?). exists t'. auto.
    + intros t' [Ht'|Ht']%elem_of_app.
      * destruct (I6 t' Ht') as (b & Hb & Hbs & Hbu).
        exists (if decide (get_id b = bm_id b0) then retitle (tab_title t) b else b).
        split; [apply elem_of_alter_id; eauto |].
        split; [apply elem_of_set_add; right; by destruct (decide _) |].
        by destruct (decide _).
      * apply list_elem_of_singleton in Ht' as ->. exists (retitle (tab_title t) b').
        split; [| split; [apply elem_of_set_add; by left | simpl; congruence]].
        apply elem_of_alter_id. exists b'. split; [done |].
        rewrite decide_True; [done | exact Hid'].
    + by apply t2b_inv_pinned_step.
Qed.

Lemma t2b_weak_inv_create kids0 done acc cur next (t : tab) :
  t2b_weak_inv kids0 done acc cur next →
  let nb := Bookmark next (Some (tab_url t)) (tab_title t) in
  t2b_weak_inv kids0 (done ++ [t])
    (T2bLocals (set_add next (seenBookmarkIds acc))
       (if tab_pinned t then set_add (tab_url t) (pinnedUrls acc) else pinnedUrls acc)
       (S (bookmarkIndex acc)))
    (nb :: cur) (S next).
Proof.
  intros [I1 I2 I3 I4 I5 I6 I8] nb.
  assert (Hold : ∀ z, z ∈ cur → bm_id z ≠ next).
  { intros z Hz E. specialize (I2 z Hz). lia. }
  split; simpl.
  - change (NoDup (next :: ids cur)). apply NoDup_cons. split; [| done].
    intros (z & Hz & Hzin)%list_elem_of_fmap. by apply (Hold z).
  - intros b [->|Hb]%elem_of_cons; [simpl; lia |]. specialize (I2 b Hb). lia.
  - intros b Hb. destruct (I3 b Hb) as (b' & ? & ?). exists b'.
    split; [by apply list_elem_of_further | done].
  - intros b [->|Hb]%elem_of_cons Hns; rewrite elem_of_set_add in Hns.
    + exfalso. apply Hns. by left.
    + apply I4; [done |]. intros ?. apply Hns. by right.
  - intros b [->|Hb]%elem_of_cons Hs; rewrite elem_of_set_add in Hs.
    + exists t. split; [| done]. apply elem_of_app. right. apply list_elem_of_here.
    + destruct Hs as [E|Hs]; [by apply Hold in Hb |].
      destruct (I5 b Hb Hs) as (t' & Ht' & ?). exists t'. split; [| done].
      apply elem_of_app. by left.
  - intros t' [Ht'|Ht']%elem_of_app.
    + destruct (I6 t' Ht') as (b & Hb & Hbs & Hbu). exists b.
      split; [by apply list_elem_of_further |].
      split; [apply elem_of_set_add; by right | done].
    + apply list_elem_of_singleton in Ht' as ->. exists nb.
      split; [apply list_elem_of_here |].
      split; [apply elem_of_set_add; by left | done].
  - by apply t2b_inv_pinned_step.
Qed.

Lemma t2b_weak_inv_step kids0 done acc cur next t acc' cur' next' :
  NoDup (ids kids0) →
  t2b_weak_inv kids0 done acc cur next →
  skipped t = false →
  t2b_tab_effect (bookmarksByUrl (snapshot kids0)) (acc, cur, next) t = (acc', cur', next') →
  t2b_weak_inv kids0 (done ++ [t]) acc' cur' next'.
Proof.
  intros Hnd0 Hinv Hsk. unfold t2b_tab_effect. rewrite Hsk.
  destruct (bookmarksByUrl _ !! tab_url t) as [e|] eqn:He.
  - apply bookmarksByUrl_Some in He as [Hidx Hurl].
    apply has_url_Some in Hurl as [Hurl _].
    assert (He0 : item e ∈ kids0) by (eapply list_elem_of_lookup_2; eauto).
    pose proof (t2b_weak_inv_found _ _ _ _ _ t (item e) Hnd0 Hinv He0 Hurl) as Hinv'.
    intros [= <- <- <-].
    destruct (decide (index e = bookmarkIndex acc)); [done |].
    eapply t2b_weak_inv_perm; [| exact Hinv']. symmetry. apply move_id_perm. apply Hinv'.
  - intros [= <- <- <-].
    eapply t2b_weak_inv_perm; [| by apply t2b_weak_inv_create].
    symmetry. apply insert_at_perm.
Qed.

Lemma t2b_weak_inv_loop kids0 tabs : ∀ done acc cur next acc' cur' next',
  NoDup (ids kids0) →
  t2b_weak_inv kids0 done acc cur next →
  foldl (t2b_tab_effect (bookmarksByUrl (snapshot kids0))) (acc, cur, next) tabs
    = (acc', cur', next') →
  t2b_weak_inv kids0 (done ++ live tabs) acc' cur' next'.
Proof.
  induction tabs as [|t tabs IH]; intros done acc cur next acc' cur' next' Hnd0 Hinv.
  - intros [= <- <- <-]. unfold live. by rewrite filter_nil, app_nil_r.
  - cbn [foldl]. rewrite live_cons. destruct (skipped t) eqn:Hsk.
    + rewrite t2b_tab_effect_skipped by done. by apply IH.
    + destruct (t2b_tab_effect _ (acc, cur, next) t) as [[acc1 cur1] next1] eqn:E.
      rewrite cons_middle, app_assoc. apply IH; [done |].
      eapply t2b_weak_inv_step; eauto.
Qed.

Lemma t2b_effect_url_set kids next tabs kids' pinned :
  NoDup (ids kids) → (∀ b, b ∈ kids → bm_id b < next) →
  t2b_effect kids next tabs = (kids', pinned) →
  NoDup (ids kids') ∧
  (∀ b, b ∈ kids' →
     ∃ t, t ∈ live tabs ∧ bm_url b = Some (tab_url t) ∧ bm_title b = tab_title t) ∧
  (∀ t, t ∈ live tabs → ∃ b, b ∈ kids' ∧ bm_url b = Some (tab_url t)) ∧
  (∀ u, u ∈ pinned ↔ ∃ t, t ∈ live tabs ∧ tab_pinned t = true ∧ tab_url t = u).
Proof.
  intros Hnd Hf. unfold t2b_effect.
  destruct (foldl _ _ tabs) as [[acc cur] next'] eqn:E.
  intros [= <- <-].
  pose proof (t2b_weak_inv_loop kids tabs [] _ _ _ _ _ _ Hnd
                (t2b_weak_inv_init _ _ Hnd Hf) E) as [I1 I2 I3 I4 I5 I6 I8].
  simpl in *. rewrite t2b_cleanup_effect_filter.
  set (keep := λ x : bookmark, ¬ (bm_id x ∈ ids kids ∧ bm_id x ∉ seenBookmarkIds acc)).
  assert (Hkeep : ∀ x, x ∈ filter keep cur ↔ x ∈ cur ∧ bm_id x ∈ seenBookmarkIds acc).
  { intros x. rewrite list_elem_of_filter. unfold keep. split.
    - intros [Hk Hx]. split; [done |].
      destruct (decide (bm_id x ∈ seenBookmarkIds acc)) as [|Hn]; [done |].
      exfalso. apply Hk. split; [| done].
      apply (list_elem_of_fmap_2 bm_id). by apply I4.
    - intros [Hx Hs]. split; [| done]. by intros [_ ?]. }
  split; [| split; [| split; [| done]]].
  - unfold ids. apply NoDup_fmap_2_strong.
    + intros x y [Hx _]%Hkeep [Hy _]%Hkeep Hid. by apply (same_id_same_item cur).
    + apply NoDup_filter. by apply NoDup_ids_NoDup.
  - intros b [Hb Hbs]%Hkeep. by apply I5.
  - intros t Ht. destruct (I6 t Ht) as (b & Hb & Hbs & Hu).
    exists b. split; [by apply Hkeep | done].
Qed.

(** X21.  What a completed tab to bookmark pass guarantees whatever the
    tabs are, two tabs on one url included: the folder's children have
    distinct identifiers, every child carries the url of a live tab and the
    title of a live tab with that url, every live tab's url is carried by a
    child, and the folder's pinned set is the set of urls of the pinned
    live tabs.  (How many children carry a url, and in which order, is not
    part of it.) *)
Theorem tab_sync_mirrors_the_set_of_live_urls
    (w : nat) (m : mapping) (st st' : state) (kids : list bookmark) (tabs : list tab) :
  br_bookmarks (env st) !! folderId m = Some kids →
  br_tabs (env st) !! w = Some tabs →
  identified (br_next (env st)) kids →
  run_task (TabsToBookmarks w m) st = (Ok tt, st') →
  ∃ kids',
    br_bookmarks (env st') !! folderId m = Some kids' ∧
    NoDup (ids kids') ∧
    (∀ b, b ∈ kids' →
       ∃ t, t ∈ live tabs ∧ bm_url b = Some (tab_url t) ∧ bm_title b = tab_title t) ∧
    (∀ t, t ∈ live tabs → ∃ b, b ∈ kids' ∧ bm_url b = Some (tab_url t)) ∧
    (∀ u, u ∈ default [] (pinnedTabsByFolder (ext st') !! folderId m) ↔
          ∃ t, t ∈ live tabs ∧ tab_pinned t = true ∧ tab_url t = u).
Proof.
  intros Hk Ht [Hnd Hf] E. rewrite Forall_forall in Hf.
  apply t2b_pass_Ok in E as (kids0 & Hk0 & H1 & H2 & _).
  rewrite Hk in Hk0. injection Hk0 as <-. rewrite Ht in *. simpl in *.
  destruct (t2b_effect kids (br_next (env st)) tabs) as [kids' pinned] eqn:E.
  destruct (t2b_effect_url_set _ _ _ _ _ Hnd Hf E) as (P0 & P1 & P2 & P3).
  exists kids'. split; [done |]. split; [done |]. split; [done |]. split; [done |].
  rewrite H2, lookup_insert_eq. done.
Qed.

Lemma tab_sync_mirrors_the_set_of_live_urls_witness :
  let kids := [Demo.entry 21 Demo.A; Demo.entry 22 Demo.A] in
  let tabs := [Demo.page 11 Demo.B; Demo.page 12 Demo.A; Demo.page 13 Demo.B] in
  let st' := (run_task (TabsToBookmarks 1 (Mapping 10 "Group")) (Demo.start kids tabs)).2 in
  ∃ kids', br_bookmarks (env st') !! 10 = Some kids' ∧
    ∀ t, t ∈ live tabs → ∃ b, b ∈ kids' ∧ bm_url b = Some (tab_url t).
Proof.
  intros kids tabs st'.
  destruct (run_task (TabsToBookmarks 1 (Mapping 10 "Group")) (Demo.start kids tabs))
    as [r s] eqn:E.
  assert (r = Ok tt) as -> by (vm_compute in E; by injection E as <- _).
  assert (Hid : identified (br_next (env (Demo.start kids tabs))) kids).
  { split; [apply (bool_decide_unpack _); by vm_compute |].
    unfold kids. repeat (apply Forall_cons; split; [vm_compute; lia |]). constructor. }
  assert (Hk : br_bookmarks (env (Demo.start kids tabs)) !! 10 = Some kids)
    by (vm_compute; reflexivity).
  assert (Ht : br_tabs (env (Demo.start kids tabs)) !! 1 = Some tabs)
    by (vm_compute; reflexivity).
  destruct (tab_sync_mirrors_the_set_of_live_urls 1 (Mapping 10 "Group")
              (Demo.start kids tabs) s kids tabs Hk Ht Hid E)
    as (kids' & H1 & _ & _ & H2 & _).
  exists kids'. by split.
Defined.

(** *** Tabs on special pages during a bookmark to tab pass *)

(** Where the identifiers in [seenTabIds] come from: a new tab, or a tab of
    the snapshot that is not on a special page. *)
Lemma b2t_seen_origin place title pinned tabs0 next0 bookmarks :
  ∀ seen cur next seen' cur' next',
  next0 ≤ next →
  (∀ id, id ∈ seen → next0 ≤ id ∨ ∃ t, t ∈ tabs0 ∧ tab_id t = id ∧ skipped t = false) →
  foldl (b2t_bookmark_effect place title pinned (tabsByUrl (snapshot tabs0)))
    (seen, cur, next) bookmarks = (seen', cur', next') →
  ∀ id, id ∈ seen' → next0 ≤ id ∨ ∃ t, t ∈ tabs0 ∧ tab_id t = id ∧ skipped t = false.
Proof.
  induction bookmarks as [|b bookmarks IH]; intros seen cur next seen' cur' next' Hn Hs.
  - by intros [= <- <- <-].
  - cbn [foldl].
    destruct (b2t_bookmark_effect _ _ _ _ (seen, cur, next) b)
      as [[seen1 cur1] next1] eqn:E.
    apply IH with (next := next1).
    + revert E. unfold b2t_bookmark_effect.
      destruct (has_url (item b)) as [u|]; [| intros [= <- <- <-]; lia].
      destruct (tabsByUrl _ !! u); intros [= <- <- <-]; lia.
    + revert E. unfold b2t_bookmark_effect.
      destruct (has_url (item b)) as [u|]; [| by intros [= <- <- <-]].
      destruct (tabsByUrl _ !! u) as [e|] eqn:He; intros [= <- <- <-] id;
        rewrite elem_of_set_add; (intros [-> | Hid]; [| by apply Hs]).
      * right. apply tabsByUrl_Some in He as (Hidx & _ & Hsk).
        exists (item e). split; [by eapply list_elem_of_lookup_2 | done].
      * by left.
Qed.

Lemma special_skipped t : special (tab_url t) = true → skipped t = true.
Proof. unfold skipped. intros ->. apply orb_true_r. Qed.

Lemma b2t_effect_keeps_special place title pinned kids tabs next t :
  NoDup (ids tabs) → (∀ t, t ∈ tabs → tab_id t < next) →
  t ∈ tabs → special (tab_url t) = true →
  t ∈ b2t_effect place title pinned kids tabs next.
Proof.
  intros Hnd Hf Ht Hsp. unfold b2t_effect.
  destruct (foldl _ _ (snapshot kids)) as [[seen cur] next'] eqn:E.
  pose proof (b2t_inv_loop _ _ _ _ _ [] _ _ _ _ _ _ Hnd (b2t_inv_init pinned _ _ Hnd Hf) E)
    as [I1 I2 I3 I4 I5 I6 I7].
  assert (Hunseen : tab_id t ∉ seen).
  { intros Hs.
    destruct (b2t_seen_origin _ _ _ tabs next _ _ _ _ _ _ _ (Nat.le_refl _)
                (λ id (H : id ∈ []), False_ind _ (not_elem_of_nil _ H)) E _ Hs)
      as [Hge | (t0 & Ht0 & Hid & Hsk)].
    - specialize (Hf t Ht). lia.
    - assert (t0 = t) as -> by (by apply (same_id_same_item tabs)).
      rewrite special_skipped in Hsk by done. discriminate. }
  destruct (I3 t Ht) as (t' & Ht' & Hid' & _).
  assert (t' = t) as ->.
  { apply (same_id_same_item tabs); [done | | done | done].
    apply I4; [done |]. by rewrite Hid'. }
  apply elem_of_b2t_cleanup_effect. split; [done |].
  intros t0 Ht0 Hid0. right.
  by rewrite (same_id_same_item tabs t0 t Hnd Ht0 Ht Hid0).
Qed.

(** X22.  A completed bookmark to tab pass leaves every tab that shows a
    special page ([about:], [moz-extension:]) in the window, as it was: such
    a tab is never matched with a child, never pinned, unpinned or closed
    by the pass. *)
Theorem bookmark_sync_keeps_special_tabs
    (f w : nat) (st st' : state) (tabs : list tab) (t : tab) :
  br_tabs (env st) !! w = Some tabs →
  identified (br_next (env st)) tabs →
  run_task (BookmarksToTabs f w) st = (Ok tt, st') →
  t ∈ tabs → special (tab_url t) = true →
  ∃ tabs', br_tabs (env st') !! w = Some tabs' ∧ t ∈ tabs'.
Proof.
  intros Ht [Hnd Hf] E Hin Hsp. rewrite Forall_forall in Hf.
  apply (b2t_pass_Ok f w st st' tabs) in E as (kids & _ & Htabs & _); [| done].
  eexists. split; [exact Htabs |]. by apply b2t_effect_keeps_special.
Qed.

Lemma bookmark_sync_keeps_special_tabs_witness :
  let blank := Tab 11 "about:newtab" "New Tab" false in
  let tabs := [blank; Demo.page 12 Demo.A] in
  let st := Demo.start [Demo.entry 21 Demo.B] tabs in
  ∃ tabs', br_tabs (env (run_task (BookmarksToTabs 10 1) st).2) !! 1 = Some tabs' ∧
           blank ∈ tabs'.
Proof.
  intros blank tabs st.
  destruct (run_task (BookmarksToTabs 10 1) st) as [r s] eqn:E.
  assert (r = Ok tt) as -> by (vm_compute in E; by injection E as <- _).
  assert (Ht : br_tabs (env st) !! 1 = Some tabs) by (vm_compute; reflexivity).
  assert (Hid : identified (br_next (env st)) tabs).
  { split; [apply (bool_decide_unpack _); by vm_compute |].
    unfold tabs. repeat (apply Forall_cons; split; [vm_compute; lia |]). constructor. }
  apply (bookmark_sync_keeps_special_tabs 10 1 st s tabs blank Ht Hid E).
  - apply list_elem_of_here.
  - reflexivity.
Defined.

(** *** Association, and the pass it waits for *)






(** *** Creating the folder of a window *)






